(** * MeshChat Bluetooth service: a shallow embedding and its properties

    The development follows [src/services/bluetoothService.ts] (the
    [BluetoothService] class) and the send handler of the chat component
    ([handleSendMessage], which creates the sent [ChatMessage]).

    - JavaScript strings are sequences of UTF-16 code units ([JsString]).
    - [Map<string, V>] is an insertion-ordered association list ([JsMap]),
      because [connections.keys()] and [devices.values()] are iterated in
      insertion order.
    - The asynchronous methods are computations in a small state and exception
      monad [M] over a [World] holding the service's two maps, the log of the
      calls made on [BleClient], the console, the log of CryptoJS calls and the
      state of the chat component.
    - [BleClient] and CryptoJS are external: whether a [BleClient] call
      resolves or rejects is decided by an oracle, the cipher is a pair of
      section variables.
    - A method or callback runs to its end before the next one starts: the
      interleavings that the [await]s allow are not modelled. *)

From Stdlib Require Import List ZArith NArith Bool Lia String Ascii.
From Stdlib Require Import DecimalString DecimalZ.
Import ListNotations.

Set Implicit Arguments.

(* ================================================================== *)
(** ** JavaScript strings *)

(** A string is its list of UTF-16 code units. *)
Definition JsString : Type := list N.

(** The string of an ASCII literal. *)
Definition js (s : string) : JsString :=
  map N_of_ascii (list_ascii_of_string s).

Module Js.

Local Open Scope N_scope.

Fixpoint eqb (a b : JsString) : bool :=
  match a, b with
  | [], [] => true
  | x :: a', y :: b' => N.eqb x y && eqb a' b'
  | _, _ => false
  end.

(** [a + b] on strings. *)
Definition concat (a b : JsString) : JsString := a ++ b.

(** [s.slice(-n)]: the last [n] code units, all of [s] when it is shorter. *)
Definition slice_last (n : nat) (s : JsString) : JsString :=
  skipn (List.length s - n) s.

(** ECMAScript WhiteSpace and LineTerminator code units: what [\s] matches
    and what [String.prototype.trim] strips. *)
Definition is_space (c : N) : bool :=
  (c =? 0x09) || (c =? 0x0A) || (c =? 0x0B) || (c =? 0x0C) || (c =? 0x0D)
  || (c =? 0x20) || (c =? 0xA0) || (c =? 0x1680)
  || ((0x2000 <=? c) && (c <=? 0x200A))
  || (c =? 0x2028) || (c =? 0x2029) || (c =? 0x202F) || (c =? 0x205F)
  || (c =? 0x3000) || (c =? 0xFEFF).

Fixpoint trimStart (s : JsString) : JsString :=
  match s with
  | c :: s' => if is_space c then trimStart s' else s
  | [] => []
  end.

Definition trimEnd (s : JsString) : JsString := rev (trimStart (rev s)).

Definition trim (s : JsString) : JsString := trimEnd (trimStart s).

(** Truthiness of a string: the empty string is falsy. *)
Definition truthy (s : JsString) : bool :=
  match s with [] => false | _ :: _ => true end.

(** [Number.prototype.toString] on an integer (below 1e21 in magnitude, as
    every [Date.now()] is): its decimal digits, with a minus sign when
    negative. *)
Definition Number_toString (n : Z) : JsString :=
  js (NilZero.string_of_int (Z.to_int n)).

End Js.

(* ================================================================== *)
(** ** UTF-8: [TextEncoder.encode] and [TextDecoder.decode] *)

Module Utf8.

Local Open Scope N_scope.

Definition is_high_surrogate (c : N) : bool := (0xD800 <=? c) && (c <=? 0xDBFF).
Definition is_low_surrogate (c : N) : bool := (0xDC00 <=? c) && (c <=? 0xDFFF).

(** The UTF-8 bytes of one code point. *)
Definition bytes_of (cp : N) : list N :=
  if cp <? 0x80 then [cp]
  else if cp <? 0x800 then
    [N.lor 0xC0 (N.shiftr cp 6); N.lor 0x80 (N.land cp 0x3F)]
  else if cp <? 0x10000 then
    [N.lor 0xE0 (N.shiftr cp 12);
     N.lor 0x80 (N.land (N.shiftr cp 6) 0x3F);
     N.lor 0x80 (N.land cp 0x3F)]
  else
    [N.lor 0xF0 (N.shiftr cp 18);
     N.lor 0x80 (N.land (N.shiftr cp 12) 0x3F);
     N.lor 0x80 (N.land (N.shiftr cp 6) 0x3F);
     N.lor 0x80 (N.land cp 0x3F)].

(** [new TextEncoder().encode(s)]: surrogate pairs are combined, a lone
    surrogate becomes U+FFFD. *)
Fixpoint encode (s : JsString) : list N :=
  match s with
  | [] => []
  | c :: rest =>
      if is_high_surrogate c then
        match rest with
        | d :: rest' =>
            if is_low_surrogate d
            then bytes_of (0x10000 + (c - 0xD800) * 0x400 + (d - 0xDC00))
                   ++ encode rest'
            else bytes_of 0xFFFD ++ encode rest
        | [] => bytes_of 0xFFFD
        end
      else if is_low_surrogate c then bytes_of 0xFFFD ++ encode rest
      else bytes_of c ++ encode rest
  end.

(** The state of the WHATWG UTF-8 decoder. *)
Record state : Type := mkState {
  code_point : N;
  bytes_needed : N;
  bytes_seen : N;
  lower_boundary : N;
  upper_boundary : N
}.

Definition initial : state := mkState 0 0 0 0x80 0xBF.

(** A byte read when no sequence is open. *)
Definition lead (b : N) : list N * state :=
  if b <=? 0x7F then ([b], initial)
  else if (0xC2 <=? b) && (b <=? 0xDF) then
    ([], mkState (N.land b 0x1F) 1 0 0x80 0xBF)
  else if (0xE0 <=? b) && (b <=? 0xEF) then
    ([], mkState (N.land b 0xF) 2 0
           (if b =? 0xE0 then 0xA0 else 0x80)
           (if b =? 0xED then 0x9F else 0xBF))
  else if (0xF0 <=? b) && (b <=? 0xF4) then
    ([], mkState (N.land b 0x7) 3 0
           (if b =? 0xF0 then 0x90 else 0x80)
           (if b =? 0xF4 then 0x8F else 0xBF))
  else ([0xFFFD], initial).

(** One byte: a byte outside the expected range closes the open sequence
    with U+FFFD and is read again as a lead byte. *)
Definition step (st : state) (b : N) : list N * state :=
  if bytes_needed st =? 0 then lead b
  else if negb ((lower_boundary st <=? b) && (b <=? upper_boundary st)) then
    let (out, st') := lead b in (0xFFFD :: out, st')
  else
    let cp := N.lor (N.shiftl (code_point st) 6) (N.land b 0x3F) in
    if bytes_seen st + 1 =? bytes_needed st then ([cp], initial)
    else ([], mkState cp (bytes_needed st) (bytes_seen st + 1) 0x80 0xBF).

Fixpoint decode_from (st : state) (bytes : list N) : list N :=
  match bytes with
  | [] => if bytes_needed st =? 0 then [] else [0xFFFD]
  | b :: bs => let (out, st') := step st b in out ++ decode_from st' bs
  end.

(** The UTF-16 code units of a code point. *)
Definition units_of (cp : N) : list N :=
  if cp <? 0x10000 then [cp]
  else [0xD800 + (cp - 0x10000) / 0x400; 0xDC00 + (cp - 0x10000) mod 0x400].

(** A leading byte order mark is dropped ([ignoreBOM] is false by default). *)
Definition strip_bom (bytes : list N) : list N :=
  match bytes with
  | b0 :: b1 :: b2 :: rest =>
      if (b0 =? 0xEF) && (b1 =? 0xBB) && (b2 =? 0xBF) then rest else bytes
  | _ => bytes
  end.

(** [new TextDecoder().decode(bytes)]. *)
Definition decode (bytes : list N) : JsString :=
  flat_map units_of (decode_from initial (strip_bom bytes)).

End Utf8.

(** A [DataView] and a [Uint8Array] are their bytes. *)
Definition DataView : Type := list N.

Definition Uint8Array_from (numbers : list N) : list N :=
  map (fun n => n mod 256)%N numbers.

(** [numbersToDataView(value)] is [new DataView(Uint8Array.from(value).buffer)]
    and [dataViewToNumbers(value)] reads the bytes back. *)
Definition numbersToDataView (value : list N) : DataView := Uint8Array_from value.
Definition dataViewToNumbers (value : DataView) : list N := value.

(* ================================================================== *)
(** ** Base64: the text form of a CryptoJS ciphertext *)

Module Base64.

Local Open Scope N_scope.

Definition alphabet : JsString :=
  js "ABCDEFGHIJKLMNOPQRSTUVWXYZabcdefghijklmnopqrstuvwxyz0123456789+/".

Definition padding : N := 61.

Definition char (v : N) : N := nth (N.to_nat (N.land v 0x3F)) alphabet padding.

(** [CryptoJS.enc.Base64.stringify]: three bytes give four characters, the
    last group is padded with [=]. *)
Fixpoint stringify (bytes : list N) : JsString :=
  match bytes with
  | [] => []
  | [a] =>
      [char (N.shiftr a 2); char (N.shiftl (N.land a 0x3) 4); padding; padding]
  | [a; b] =>
      [char (N.shiftr a 2);
       char (N.lor (N.shiftl (N.land a 0x3) 4) (N.shiftr b 4));
       char (N.shiftl (N.land b 0xF) 2);
       padding]
  | a :: b :: c :: rest =>
      [char (N.shiftr a 2);
       char (N.lor (N.shiftl (N.land a 0x3) 4) (N.shiftr b 4));
       char (N.lor (N.shiftl (N.land b 0xF) 2) (N.shiftr c 6));
       char c]
        ++ stringify rest
  end.

End Base64.

(* ================================================================== *)
(** ** Regular expressions *)

Module RegExp.

Local Open Scope N_scope.

(** The fragment of the pattern language the service uses. *)
Inductive t : Type :=
| Eps : t
| Cls : (N -> bool) -> t          (* one code unit of a class *)
| Seq : t -> t -> t
| Alt : t -> t -> t
| Opt : t -> t                    (* [r?] *)
| WordB : t.                      (* [\b] *)

(** [\d] and [\w] (without the [u] flag [\w] is ASCII only). *)
Definition digit (c : N) : bool := (0x30 <=? c) && (c <=? 0x39).
Definition word (c : N) : bool :=
  digit c || ((0x41 <=? c) && (c <=? 0x5A)) || ((0x61 <=? c) && (c <=? 0x7A))
  || (c =? 0x5F).

(** [[-\s]] *)
Definition dash_or_space (c : N) : bool := (c =? 0x2D) || Js.is_space c.

Definition exactly (c : N) : N -> bool := fun x => x =? c.

(** A pattern character under the [i] flag (no [u] flag). A code unit matches
    when it canonicalizes to the same unit; a unit of 128 or more never
    canonicalizes to one below 128, so for an ASCII letter only its two cases
    match, and for any other ASCII character only itself. *)
Definition is_i (c : N) : N -> bool :=
  fun x =>
    (x =? c)
    || ((0x61 <=? c) && (c <=? 0x7A) && (x =? c - 0x20))
    || ((0x41 <=? c) && (c <=? 0x5A) && (x =? c + 0x20)).

Fixpoint times (n : nat) (r : t) : t :=
  match n with
  | O => Eps
  | S n' => Seq r (times n' r)
  end.

Fixpoint chars (cls : N -> N -> bool) (s : JsString) : t :=
  match s with
  | [] => Eps
  | c :: s' => Seq (Cls (cls c)) (chars cls s')
  end.

(** [\b] holds where exactly one of the two neighbours is a word character. *)
Definition at_boundary (prev : option N) (s : JsString) : bool :=
  xorb (match prev with Some c => word c | None => false end)
       (match s with c :: _ => word c | [] => false end).

(** Backtracking matcher in continuation style: [prev] is the code unit
    before the position, [s] the input from the position on. *)
Fixpoint run (r : t) (prev : option N) (s : JsString)
         (k : option N -> JsString -> bool) : bool :=
  match r with
  | Eps => k prev s
  | Cls p =>
      match s with
      | c :: s' => p c && k (Some c) s'
      | [] => false
      end
  | Seq a b => run a prev s (fun prev' s' => run b prev' s' k)
  | Alt a b => run a prev s k || run b prev s k
  | Opt a => run a prev s k || k prev s
  | WordB => at_boundary prev s && k prev s
  end.

Definition match_here (r : t) (prev : option N) (s : JsString) : bool :=
  run r prev s (fun _ _ => true).

Fixpoint search (r : t) (prev : option N) (s : JsString) : bool :=
  match_here r prev s
  || match s with
     | c :: s' => search r (Some c) s'
     | [] => false
     end.

(** [pattern.test(s)] for a pattern without the [g] and [y] flags: is there a
    match starting anywhere in [s]. *)
Definition test (pattern : t) (s : JsString) : bool := search pattern None s.

End RegExp.

(* ================================================================== *)
(** ** The content moderation gate *)

Import RegExp.

(** [/\b(?:password|ssn|social security|credit card|bank account)\b/i] *)
Definition keyword_pattern : RegExp.t :=
  Seq WordB
    (Seq (Alt (chars is_i (js "password"))
         (Alt (chars is_i (js "ssn"))
         (Alt (chars is_i (js "social security"))
         (Alt (chars is_i (js "credit card"))
              (chars is_i (js "bank account"))))))
         WordB).

(** [/\b\d{4}[-\s]?\d{4}[-\s]?\d{4}[-\s]?\d{4}\b/] *)
Definition credit_card_pattern : RegExp.t :=
  Seq WordB
    (Seq (times 4 (Cls digit))
    (Seq (Opt (Cls dash_or_space))
    (Seq (times 4 (Cls digit))
    (Seq (Opt (Cls dash_or_space))
    (Seq (times 4 (Cls digit))
    (Seq (Opt (Cls dash_or_space))
    (Seq (times 4 (Cls digit))
         WordB))))))).

(** [/\b\d{3}-\d{2}-\d{4}\b/] *)
Definition ssn_pattern : RegExp.t :=
  Seq WordB
    (Seq (times 3 (Cls digit))
    (Seq (Cls (exactly 0x2D))
    (Seq (times 2 (Cls digit))
    (Seq (Cls (exactly 0x2D))
    (Seq (times 4 (Cls digit))
         WordB))))).

Definition sensitivePatterns : list RegExp.t :=
  [keyword_pattern; credit_card_pattern; ssn_pattern].

(** The object [{ flagged, reason? }]. *)
Record Moderation : Type := mkModeration {
  flagged : bool;
  reason : option JsString
}.

Definition sensitive_reason : JsString :=
  js "Message contains potentially sensitive information".

(** The [for (const pattern of sensitivePatterns)] loop. *)
Fixpoint moderation_loop (patterns : list RegExp.t) (message : JsString)
  : Moderation :=
  match patterns with
  | pattern :: patterns' =>
      if RegExp.test pattern message
      then mkModeration true (Some sensitive_reason)
      else moderation_loop patterns' message
  | [] => mkModeration false None
  end.

(** [checkContentModeration(message)]; the promise it returns always
    resolves, with this value. *)
Definition checkContentModeration (message : JsString) : Moderation :=
  moderation_loop sensitivePatterns message.

(* ================================================================== *)
(** ** [Map<string, V>] *)

Module JsMap.

Section WithValue.

Variable V : Type.

(** The entries in insertion order; a key occurs once. *)
Definition t : Type := list (JsString * V).

Definition empty : t := [].

Fixpoint get (k : JsString) (m : t) : option V :=
  match m with
  | [] => None
  | (k', v) :: m' => if Js.eqb k k' then Some v else get k m'
  end.

Definition has (k : JsString) (m : t) : bool :=
  match get k m with Some _ => true | None => false end.

(** [m.set(k, v)]: an existing entry keeps its place, a new one goes last. *)
Fixpoint set (k : JsString) (v : V) (m : t) : t :=
  match m with
  | [] => [(k, v)]
  | (k', v') :: m' =>
      if Js.eqb k k' then (k, v) :: m' else (k', v') :: set k v m'
  end.

Fixpoint delete (k : JsString) (m : t) : t :=
  match m with
  | [] => []
  | (k', v') :: m' =>
      if Js.eqb k k' then delete k m' else (k', v') :: delete k m'
  end.

Definition keys (m : t) : list JsString := map fst m.
Definition values (m : t) : list V := map snd m.

End WithValue.

End JsMap.

(* ================================================================== *)
(** ** The data model *)

Module ChatDevice.
Record t : Type := mk {
  id : JsString;
  name : JsString;
  rssi : Z;
  connected : bool;
  lastSeen : Z
}.

(** [device.connected = b] *)
Definition set_connected (b : bool) (d : t) : t :=
  mk (id d) (name d) (rssi d) b (lastSeen d).
End ChatDevice.

Module ChatMessage.
Record t : Type := mk {
  id : JsString;
  deviceId : JsString;
  message : JsString;
  timestamp : Z;
  sent : bool;
  encrypted : bool
}.
End ChatMessage.

(** The transport's device handle; the service stores [{ deviceId }]. *)
Module BleDevice.
Record t : Type := mk {
  deviceId : JsString;
  name : option JsString
}.
End BleDevice.

(** What the scan callback receives. *)
Module ScanResult.
Record t : Type := mk {
  device : BleDevice.t;
  rssi : Z
}.
End ScanResult.

(** The calls the service makes on [BleClient]. *)
Inductive BleCall : Type :=
| Initialize
| RequestLEScan (services : list JsString)
| StopLEScan
| Connect (deviceId : JsString)
| GetServices (deviceId : JsString)
| Disconnect (deviceId : JsString)
| Write (deviceId service characteristic : JsString) (value : DataView)
| StartNotifications (deviceId service characteristic : JsString).

Inductive JsError : Type :=
| Error (message : JsString)        (* [new Error(message)] *)
| Rejected (call : BleCall)         (* a [BleClient] promise rejected *)
| MalformedUtf8.                    (* thrown by [toString(CryptoJS.enc.Utf8)] *)

Inductive ConsoleEntry : Type :=
| console_log (text : JsString)
| console_error (text : JsString) (error : JsError).

Inductive CryptoCall : Type :=
| Encrypt (message key : JsString)
| Decrypt (ciphertext key : JsString).

Record Toast : Type := mkToast {
  title : JsString;
  description : JsString;
  destructive : bool
}.

(** The state of the chat component. *)
Module ChatInterface.
Record state : Type := mk {
  messages : list ChatMessage.t;
  newMessage : JsString;
  sending : bool;
  moderationWarning : option JsString;
  toasts : list Toast
}.

Definition initial : state := mk [] [] false None [].
End ChatInterface.

(** Everything a method can read or change. [devices] and [connections] are
    the two private maps of [BluetoothService]. *)
Record World : Type := mkWorld {
  devices : JsMap.t ChatDevice.t;
  connections : JsMap.t BleDevice.t;
  ble_calls : list BleCall;
  console : list ConsoleEntry;
  crypto_calls : list CryptoCall;
  chat : ChatInterface.state
}.

Definition initial_world : World :=
  mkWorld (JsMap.empty _) (JsMap.empty _) [] [] [] ChatInterface.initial.

Definition with_devices (f : JsMap.t ChatDevice.t -> JsMap.t ChatDevice.t)
  (w : World) : World :=
  mkWorld (f (devices w)) (connections w) (ble_calls w) (console w)
          (crypto_calls w) (chat w).

Definition with_connections (f : JsMap.t BleDevice.t -> JsMap.t BleDevice.t)
  (w : World) : World :=
  mkWorld (devices w) (f (connections w)) (ble_calls w) (console w)
          (crypto_calls w) (chat w).

Definition with_ble_call (c : BleCall) (w : World) : World :=
  mkWorld (devices w) (connections w) (ble_calls w ++ [c]) (console w)
          (crypto_calls w) (chat w).

Definition with_console (e : ConsoleEntry) (w : World) : World :=
  mkWorld (devices w) (connections w) (ble_calls w) (console w ++ [e])
          (crypto_calls w) (chat w).

Definition with_crypto_call (c : CryptoCall) (w : World) : World :=
  mkWorld (devices w) (connections w) (ble_calls w) (console w)
          (crypto_calls w ++ [c]) (chat w).

Definition with_chat (f : ChatInterface.state -> ChatInterface.state)
  (w : World) : World :=
  mkWorld (devices w) (connections w) (ble_calls w) (console w)
          (crypto_calls w) (f (chat w)).

(* ================================================================== *)
(** ** Computations: state and exceptions *)

Inductive Completion (A : Type) : Type :=
| Normal (a : A)
| Throw (e : JsError).

Arguments Normal {A} a.
Arguments Throw {A} e.

Definition M (A : Type) : Type := World -> Completion A * World.

Definition ret {A} (a : A) : M A := fun w => (Normal a, w).

Definition bind {A B} (c : M A) (k : A -> M B) : M B :=
  fun w =>
    match c w with
    | (Normal a, w') => k a w'
    | (Throw e, w') => (Throw e, w')
    end.

Definition throw {A} (e : JsError) : M A := fun w => (Throw e, w).

(** [try { c } catch (error) { handler(error) }] *)
Definition try_catch {A} (c : M A) (handler : JsError -> M A) : M A :=
  fun w =>
    match c w with
    | (Normal a, w') => (Normal a, w')
    | (Throw e, w') => handler e w'
    end.

(** [try { c } finally { f }], for an [f] that completes normally. *)
Definition try_finally {A} (c : M A) (f : M unit) : M A :=
  fun w =>
    match c w with
    | (r, w') =>
        match f w' with
        | (Normal _, w'') => (r, w'')
        | (Throw e, w'') => (Throw e, w'')
        end
    end.

Definition gets {A} (f : World -> A) : M A := fun w => (Normal (f w), w).

Definition modify (f : World -> World) : M unit := fun w => (Normal tt, f w).

Declare Scope js_scope.
Delimit Scope js_scope with js.
Notation "x <- c ;; k" := (bind c (fun x => k))
  (at level 61, c at next level, right associativity) : js_scope.
Notation "c ;;; k" := (bind c (fun _ => k))
  (at level 61, right associativity) : js_scope.
Local Open Scope js_scope.

Definition result_of {A} (r : Completion A * World) : Completion A := fst r.
Definition world_of {A} (r : Completion A * World) : World := snd r.

(* ================================================================== *)
(** ** [BluetoothService] *)

Definition encryptionKey : JsString := js "MeshChat_Secret_Key_2024".
Definition SERVICE_UUID : JsString := js "12345678-1234-1234-1234-123456789abc".
Definition MESSAGE_CHARACTERISTIC_UUID : JsString :=
  js "87654321-4321-4321-4321-cba987654321".

Section Service.

(** The transport: [BleClient_resolves calls c] tells whether the call [c],
    made after the calls [calls], resolves ([true]) or rejects. *)
Variable BleClient_resolves : list BleCall -> BleCall -> bool.

(** The cipher. [AES_encrypt message key salt] is the byte content (salt
    header and ciphertext) of [CryptoJS.AES.encrypt(message, key)] when the
    random salt drawn is [salt]; its [toString()] is the Base64 text of these
    bytes. [AES_decrypt_utf8 text key] is
    [CryptoJS.AES.decrypt(text, key).toString(CryptoJS.enc.Utf8)], [None]
    when it throws. *)
Variable AES_encrypt : JsString -> JsString -> N -> list N.
Variable AES_decrypt_utf8 : JsString -> JsString -> option JsString.

Definition CipherParams_toString (bytes : list N) : JsString :=
  Base64.stringify bytes.

(** [await BleClient.c(...)] *)
Definition BleClient (c : BleCall) : M unit :=
  fun w =>
    if BleClient_resolves (ble_calls w) c
    then (Normal tt, with_ble_call c w)
    else (Throw (Rejected c), with_ble_call c w).

Definition log (text : string) : M unit :=
  modify (with_console (console_log (js text))).

Definition log_error (text : string) (e : JsError) : M unit :=
  modify (with_console (console_error (js text) e)).

Definition initialize : M unit :=
  try_catch
    (BleClient Initialize ;;;
     log "Bluetooth LE initialized")
    (fun error =>
       log_error "Failed to initialize Bluetooth LE:" error ;;;
       throw error).

(** The callback given to [requestLEScan], run on one advertisement at the
    clock reading [now]. *)
Definition scan_callback (result : ScanResult.t) (now : Z) : M unit :=
  let deviceId := BleDevice.deviceId (ScanResult.device result) in
  let fallback := Js.concat (js "Device_") (Js.slice_last 4 deviceId) in
  let device :=
    ChatDevice.mk deviceId
      (match BleDevice.name (ScanResult.device result) with
       | Some n => if Js.truthy n then n else fallback
       | None => fallback
       end)
      (ScanResult.rssi result)
      false
      now in
  modify (with_devices (JsMap.set (ChatDevice.id device) device)).

Definition stopScanning : M unit :=
  try_catch
    (BleClient StopLEScan ;;;
     log "Stopped scanning")
    (fun error => log_error "Failed to stop scanning:" error).

(** The advertisements arrive later, through [scan_callback]; the timer
    that stops the scan after ten seconds is [stopScanning] run later. *)
Definition startScanning : M (list ChatDevice.t) :=
  try_catch
    (BleClient (RequestLEScan [SERVICE_UUID]) ;;;
     gets (fun w => JsMap.values (devices w)))
    (fun error =>
       log_error "Failed to start scanning:" error ;;;
       throw error).

Definition connectToDevice (deviceId : JsString) : M bool :=
  try_catch
    (device <- gets (fun w => JsMap.get deviceId (devices w)) ;;
     match device with
     | None => throw (Error (js "Device not found"))
     | Some device =>
         BleClient (Connect deviceId) ;;;
         BleClient (GetServices deviceId) ;;;
         log "Discovered services:" ;;;
         modify (with_connections
                   (JsMap.set deviceId (BleDevice.mk deviceId None))) ;;;
         modify (with_devices
                   (JsMap.set deviceId (ChatDevice.set_connected true device))) ;;;
         ret true
     end)
    (fun error =>
       log_error "Failed to connect to device:" error ;;;
       ret false).

Definition disconnectFromDevice (deviceId : JsString) : M unit :=
  try_catch
    (BleClient (Disconnect deviceId) ;;;
     modify (with_connections (JsMap.delete deviceId)) ;;;
     device <- gets (fun w => JsMap.get deviceId (devices w)) ;;
     match device with
     | Some device =>
         modify (with_devices
                   (JsMap.set deviceId (ChatDevice.set_connected false device)))
     | None => ret tt
     end)
    (fun error => log_error "Failed to disconnect from device:" error).

(** [CryptoJS.AES.encrypt(message, key).toString()] with the salt drawn.
    This is the call on a message CryptoJS accepts. CryptoJS first reads the
    message as UTF-8 and throws a [URIError] when it has an unpaired
    surrogate; that throw is not part of [encrypt], and the statements about
    what is encrypted and written are made for text without unpaired
    surrogates. *)
Definition encrypt (message : JsString) (salt : N) : M JsString :=
  modify (with_crypto_call (Encrypt message encryptionKey)) ;;;
  ret (CipherParams_toString (AES_encrypt message encryptionKey salt)).

Definition decrypt (encryptedMessage : JsString) : M JsString :=
  modify (with_crypto_call (Decrypt encryptedMessage encryptionKey)) ;;;
  match AES_decrypt_utf8 encryptedMessage encryptionKey with
  | Some text => ret text
  | None => throw MalformedUtf8
  end.

(** The bytes [sendMessage] writes for a ciphertext text. *)
Definition payload_of (encryptedMessage : JsString) : DataView :=
  numbersToDataView (Utf8.encode encryptedMessage).

Definition sendMessage (deviceId message : JsString) (salt : N) : M bool :=
  try_catch
    (connected <- gets (fun w => JsMap.has deviceId (connections w)) ;;
     if negb connected then throw (Error (js "Device not connected"))
     else
       encryptedMessage <- encrypt message salt ;;
       let dataView := payload_of encryptedMessage in
       BleClient (Write deviceId SERVICE_UUID MESSAGE_CHARACTERISTIC_UUID
                        dataView) ;;;
       ret true)
    (fun error =>
       log_error "Failed to send message:" error ;;;
       ret false).

(** The message the notification callback creates; [now] is the reading
    [Date.now()] and [date] the reading [new Date()]. *)
Definition receivedMessage (deviceId decryptedMessage : JsString)
  (now date : Z) : ChatMessage.t :=
  ChatMessage.mk (Js.Number_toString now) deviceId decryptedMessage
                 date false true.

(** The callback given to [startNotifications], run on one notification. *)
Definition notification_callback (deviceId : JsString)
  (onMessage : ChatMessage.t -> M unit) (value : DataView) (now date : Z)
  : M unit :=
  try_catch
    (let messageData := dataViewToNumbers value in
     let encryptedMessage := Utf8.decode (Uint8Array_from messageData) in
     decryptedMessage <- decrypt encryptedMessage ;;
     let chatMessage := receivedMessage deviceId decryptedMessage now date in
     onMessage chatMessage)
    (fun error => log_error "Failed to process received message:" error).

Definition startMessageListener (deviceId : JsString) : M unit :=
  try_catch
    (BleClient (StartNotifications deviceId SERVICE_UUID
                                   MESSAGE_CHARACTERISTIC_UUID))
    (fun error => log_error "Failed to start message listener:" error).

Definition getConnectedDevices (w : World) : list ChatDevice.t :=
  filter ChatDevice.connected (JsMap.values (devices w)).

Definition getAllDevices (w : World) : list ChatDevice.t :=
  JsMap.values (devices w).

(** [for (const deviceId of this.connections.keys())]: the iterator is
    live, so a key whose entry is gone when it is reached is skipped. *)
Fixpoint cleanup_loop (ids : list JsString) : M unit :=
  match ids with
  | [] => ret tt
  | deviceId :: rest =>
      present <- gets (fun w => JsMap.has deviceId (connections w)) ;;
      (if present then disconnectFromDevice deviceId else ret tt) ;;;
      cleanup_loop rest
  end.

Definition cleanup : M unit :=
  try_catch
    (ids <- gets (fun w => JsMap.keys (connections w)) ;;
     cleanup_loop ids ;;;
     stopScanning ;;;
     log "Bluetooth service cleaned up")
    (fun error => log_error "Error during cleanup:" error).

(* ---------------------------------------------------------------- *)
(** *** The chat component's handlers *)

Definition setMessages (f : list ChatMessage.t -> list ChatMessage.t) : M unit :=
  modify (with_chat (fun s =>
    ChatInterface.mk (f (ChatInterface.messages s)) (ChatInterface.newMessage s)
      (ChatInterface.sending s) (ChatInterface.moderationWarning s)
      (ChatInterface.toasts s))).

Definition setNewMessage (text : JsString) : M unit :=
  modify (with_chat (fun s =>
    ChatInterface.mk (ChatInterface.messages s) text
      (ChatInterface.sending s) (ChatInterface.moderationWarning s)
      (ChatInterface.toasts s))).

Definition setSending (b : bool) : M unit :=
  modify (with_chat (fun s =>
    ChatInterface.mk (ChatInterface.messages s) (ChatInterface.newMessage s)
      b (ChatInterface.moderationWarning s) (ChatInterface.toasts s))).

Definition setModerationWarning (warning : option JsString) : M unit :=
  modify (with_chat (fun s =>
    ChatInterface.mk (ChatInterface.messages s) (ChatInterface.newMessage s)
      (ChatInterface.sending s) warning (ChatInterface.toasts s))).

Definition toast (t : Toast) : M unit :=
  modify (with_chat (fun s =>
    ChatInterface.mk (ChatInterface.messages s) (ChatInterface.newMessage s)
      (ChatInterface.sending s) (ChatInterface.moderationWarning s)
      (ChatInterface.toasts s ++ [t]))).

(** The handler the component passes to [startMessageListener]. *)
Definition onMessage (message : ChatMessage.t) : M unit :=
  setMessages (fun prev => prev ++ [message]).

(** [moderation.reason || 'Content flagged for review'] *)
Definition warning_of (moderation : Moderation) : JsString :=
  match reason moderation with
  | Some r => if Js.truthy r then r else js "Content flagged for review"
  | None => js "Content flagged for review"
  end.

(** The message [handleSendMessage] creates after a successful send. *)
Definition sentMessage (device : ChatDevice.t) (newMessage : JsString)
  (now date : Z) : ChatMessage.t :=
  ChatMessage.mk (Js.Number_toString now) (ChatDevice.id device) newMessage
                 date true true.

Definition handleSendMessage (device : ChatDevice.t) (salt : N) (now date : Z)
  : M unit :=
  newMessage <- gets (fun w => ChatInterface.newMessage (chat w)) ;;
  if negb (Js.truthy (Js.trim newMessage)) then ret tt
  else
    try_finally
      (try_catch
         (setSending true ;;;
          setModerationWarning None ;;;
          let moderation := checkContentModeration newMessage in
          if flagged moderation then
            setModerationWarning (Some (warning_of moderation))
          else
            success <- sendMessage (ChatDevice.id device) newMessage salt ;;
            if success then
              setMessages (fun prev =>
                prev ++ [sentMessage device newMessage now date]) ;;;
              setNewMessage [] ;;;
              toast (mkToast (js "Message Sent")
                       (js "Your encrypted message has been delivered.") false)
            else throw (Error (js "Failed to send message")))
         (fun _ =>
            toast (mkToast (js "Send Failed")
                     (js "Could not send message. Please check connection.")
                     true)))
      (setSending false).

(** The keys of the rendered message list: the component renders every
    message of [messages] in an element with [key={message.id}]. *)
Definition message_keys (s : ChatInterface.state) : list JsString :=
  map ChatMessage.id (ChatInterface.messages s).

(* ---------------------------------------------------------------- *)
(** *** Runs of the service *)

(** What can happen to the service, one event at a time. *)
Inductive Event : Type :=
| EvInitialize
| EvStartScanning
| EvScanResult (result : ScanResult.t) (now : Z)
| EvStopScanning
| EvConnect (deviceId : JsString)
| EvDisconnect (deviceId : JsString)
| EvSend (deviceId message : JsString) (salt : N)
| EvStartListener (deviceId : JsString)
| EvNotification (deviceId : JsString) (value : DataView) (now date : Z)
| EvHandleSend (device : ChatDevice.t) (salt : N) (now date : Z)
| EvCleanup.

Definition step (ev : Event) (w : World) : World :=
  match ev with
  | EvInitialize => world_of (initialize w)
  | EvStartScanning => world_of (startScanning w)
  | EvScanResult result now => world_of (scan_callback result now w)
  | EvStopScanning => world_of (stopScanning w)
  | EvConnect deviceId => world_of (connectToDevice deviceId w)
  | EvDisconnect deviceId => world_of (disconnectFromDevice deviceId w)
  | EvSend deviceId message salt => world_of (sendMessage deviceId message salt w)
  | EvStartListener deviceId => world_of (startMessageListener deviceId w)
  | EvNotification deviceId value now date =>
      world_of (notification_callback deviceId onMessage value now date w)
  | EvHandleSend device salt now date =>
      world_of (handleSendMessage device salt now date w)
  | EvCleanup => world_of (cleanup w)
  end.

Definition run (events : list Event) (w : World) : World :=
  fold_left (fun w ev => step ev w) events w.

(** The states the service can be in. *)
Definition reachable (w : World) : Prop :=
  exists events, w = run events initial_world.

End Service.

(* ================================================================== *)
(** ** The device scanner component *)

Module DeviceScanner.

(** The labels of [getSignalStrengthText]. *)
Inductive SignalText : Type := Excellent | Good | Fair | Weak.

(** The colour class of the icon [getSignalStrengthIcon] returns. *)
Inductive SignalIcon : Type := text_success | text_warning | text_muted_foreground.

Definition getSignalStrengthIcon (rssi : Z) : SignalIcon :=
  if (-50 <? rssi)%Z then text_success
  else if (-70 <? rssi)%Z then text_warning
  else text_muted_foreground.

Definition getSignalStrengthText (rssi : Z) : SignalText :=
  if (-50 <? rssi)%Z then Excellent
  else if (-70 <? rssi)%Z then Good
  else if (-90 <? rssi)%Z then Fair
  else Weak.

(** The component's state, and [selectedDevice] of the page that renders it:
    the [onDeviceConnect] it is given is the page's [setSelectedDevice]. *)
Record state : Type := mk {
  devices : list ChatDevice.t;
  scanning : bool;
  connecting : option JsString;
  toasts : list Toast;
  selectedDevice : option ChatDevice.t
}.

Definition initial : state := mk [] false None [] None.

Definition setDevices (f : list ChatDevice.t -> list ChatDevice.t) (s : state)
  : state :=
  mk (f (devices s)) (scanning s) (connecting s) (toasts s) (selectedDevice s).

Definition setScanning (b : bool) (s : state) : state :=
  mk (devices s) b (connecting s) (toasts s) (selectedDevice s).

Definition setConnecting (c : option JsString) (s : state) : state :=
  mk (devices s) (scanning s) c (toasts s) (selectedDevice s).

Definition toast (t : Toast) (s : state) : state :=
  mk (devices s) (scanning s) (connecting s) (toasts s ++ [t]) (selectedDevice s).

Definition onDeviceConnect (device : ChatDevice.t) (s : state) : state :=
  mk (devices s) (scanning s) (connecting s) (toasts s) (Some device).

Section Handlers.

Variable BleClient_resolves : list BleCall -> BleCall -> bool.

(** [connectToDevice(device)] of the component: the [try], [catch] and
    [finally] around the service's [connectToDevice]. *)
Definition connectToDevice (device : ChatDevice.t) (s : state) (w : World)
  : state * World :=
  let s1 := setConnecting (Some (ChatDevice.id device)) s in
  let (success, w') :=
    connectToDevice BleClient_resolves (ChatDevice.id device) w in
  let s2 :=
    match success with
    | Normal true =>
        let s2 :=
          toast (mkToast (js "Connected")
                   (Js.concat (js "Successfully connected to ")
                              (ChatDevice.name device))
                   false) s1 in
        let s3 := onDeviceConnect (ChatDevice.set_connected true device) s2 in
        setDevices
          (map (fun d =>
                  if Js.eqb (ChatDevice.id d) (ChatDevice.id device)
                  then ChatDevice.set_connected true d
                  else d))
          s3
    | _ =>
        toast (mkToast (js "Connection Failed")
                 (Js.concat
                    (Js.concat (js "Could not connect to ")
                               (ChatDevice.name device))
                    (js ". Please try again."))
                 true) s1
    end in
  (setConnecting None s2, w').

(** [startScanning()] of the component, up to the point where it has the
    service's answer: on success it returns the [foundDevices] that its two
    timers are given. *)
Definition startScanning (s : state) (w : World)
  : option (list ChatDevice.t) * state * World :=
  let s1 := setScanning true s in
  let s2 := setDevices (fun _ => []) s1 in
  let s3 :=
    toast (mkToast (js "Scanning Started")
             (js "Looking for nearby MeshChat users...") false) s2 in
  match startScanning BleClient_resolves w with
  | (Normal foundDevices, w') =>
      (Some foundDevices, setDevices (fun _ => foundDevices) s3, w')
  | (Throw _, w') =>
      (None,
       toast (mkToast (js "Scan Failed")
                (js "Failed to scan for devices. Please try again.") true)
             (setScanning false s3),
       w')
  end.

End Handlers.

(** One tick of the interval: the list is refreshed from the service. *)
Definition refresh (s : state) (w : World) : state :=
  setDevices (fun _ => getAllDevices w) s.

(** The timeout that ends the scan after ten seconds. *)
Definition scanComplete (foundDevices : list ChatDevice.t) (s : state) : state :=
  toast (mkToast (js "Scan Complete")
           (Js.concat
              (Js.concat (js "Found ")
                 (Js.Number_toString (Z.of_nat (List.length foundDevices))))
              (js " nearby devices."))
           false)
        (setScanning false s).

End DeviceScanner.

(* ================================================================== *)
(** ** The profile settings component *)

Module ProfileSettings.

Record UserProfile : Type := mkProfile {
  displayName : JsString;
  deviceName : JsString;
  avatarColor : JsString;
  avatarInitials : JsString
}.

(** [keyof UserProfile] *)
Inductive Field : Type :=
| field_displayName | field_deviceName | field_avatarColor | field_avatarInitials.

(** [{ ...profile, [field]: value }] *)
Definition with_field (field : Field) (value : JsString) (p : UserProfile)
  : UserProfile :=
  match field with
  | field_displayName =>
      mkProfile value (deviceName p) (avatarColor p) (avatarInitials p)
  | field_deviceName =>
      mkProfile (displayName p) value (avatarColor p) (avatarInitials p)
  | field_avatarColor =>
      mkProfile (displayName p) (deviceName p) value (avatarInitials p)
  | field_avatarInitials =>
      mkProfile (displayName p) (deviceName p) (avatarColor p) value
  end.

(** [s.split(' ')]: the pieces between the spaces, at least one. *)
Fixpoint split_space (s : JsString) : list JsString :=
  match s with
  | [] => [[]]
  | c :: s' =>
      if (c =? 0x20)%N then [] :: split_space s'
      else match split_space s' with
           | word :: words => (c :: word) :: words
           | [] => [[c]]
           end
  end.

(** [word.charAt(0)] *)
Definition charAt0 (word : JsString) : JsString := firstn 1 word.

(** [s.substring(0, 2)] *)
Definition substring_0_2 (s : JsString) : JsString := firstn 2 s.

(** The component's state, with the toasts it raised, and the item
    'meshchat-profile' of [localStorage]. *)
Record state : Type := mk {
  profile : UserProfile;
  editing : bool;
  tempProfile : UserProfile;
  toasts : list Toast;
  stored_profile : option JsString
}.

Section Handlers.

(** [String.prototype.toUpperCase] and [JSON.stringify] are the platform's. *)
Variable toUpperCase : JsString -> JsString.
Variable JSON_stringify : UserProfile -> JsString.

(** The initials [saveProfile] derives from the display name. *)
Definition initials_of (name : JsString) : JsString :=
  let initials :=
    substring_0_2
      (List.concat (map (fun word => toUpperCase (charAt0 word))
                        (split_space name))) in
  if Js.truthy initials then initials else js "AU".

Definition saveProfile (s : state) : state :=
  let updatedProfile :=
    with_field field_avatarInitials
               (initials_of (displayName (tempProfile s))) (tempProfile s) in
  mk updatedProfile false (tempProfile s)
     (toasts s ++ [mkToast (js "Profile Updated")
                           (js "Your profile has been saved successfully.")
                           false])
     (Some (JSON_stringify updatedProfile)).

End Handlers.

Definition cancelEdit (s : state) : state :=
  mk (profile s) false (profile s) (toasts s) (stored_profile s).

Definition updateTempProfile (field : Field) (value : JsString) (s : state)
  : state :=
  mk (profile s) (editing s) (with_field field value (tempProfile s)) (toasts s)
     (stored_profile s).

End ProfileSettings.


(* ================================================================== *)
(** ** Predicates used in the statements *)

(** Text whose code units are all below 128. *)
Definition is_ascii_text (s : list N) : Prop := Forall (fun c => (c < 128)%N) s.

(** Blank text: every code unit is white space. *)
Definition blank (s : JsString) : Prop := Forall (fun c => Js.is_space c = true) s.

(** A class that no white space belongs to. *)
Definition visible (p : N -> bool) : Prop :=
  forall c, Js.is_space c = true -> p c = false.

(** Patterns whose every match begins, after word boundaries, with a code
    unit of a visible class. *)
Fixpoint eats_visible (r : RegExp.t) : Prop :=
  match r with
  | Cls p => visible p
  | Seq WordB b => eats_visible b
  | Seq a _ => eats_visible a
  | Alt a b => eats_visible a /\ eats_visible b
  | _ => False
  end.

(** The registry and the sessions, together, are the same in [w] and [w']. *)
Definition same_service (w w' : World) : Prop :=
  devices w' = devices w /\ connections w' = connections w.

(** At most one record, and at most one session, per id. *)
Definition unique_ids (w : World) : Prop :=
  NoDup (JsMap.keys (devices w)) /\ NoDup (JsMap.keys (connections w)).

(** Every record that is marked connected has a session. *)
Definition connected_have_sessions (w : World) : Prop :=
  forall deviceId device,
    JsMap.get deviceId (devices w) = Some device ->
    ChatDevice.connected device = true ->
    JsMap.has deviceId (connections w) = true.

(** A record is marked connected exactly when a session exists for its id. *)
Definition paired (w : World) : Prop :=
  forall deviceId device,
    JsMap.get deviceId (devices w) = Some device ->
    (ChatDevice.connected device = true
     <-> JsMap.has deviceId (connections w) = true).

(** The messages created at the clock reading [now]: the one the
    notification callback builds and the one [handleSendMessage] builds. *)
Inductive created_at (now : Z) : ChatMessage.t -> Prop :=
| created_received (deviceId text : JsString) (date : Z) :
    created_at now (receivedMessage deviceId text now date)
| created_sent (device : ChatDevice.t) (text : JsString) (date : Z) :
    created_at now (sentMessage device text now date).

(** Every record is stored under its own id, and every session under its
    device id, as the handle [{ deviceId }]. *)
Definition records_keyed (w : World) : Prop :=
  (forall k device, In (k, device) (devices w) -> ChatDevice.id device = k)
  /\ (forall k session,
        In (k, session) (connections w) -> session = BleDevice.mk k None).

(** Sessions exist only for devices of the registry. *)
Definition sessions_known (w : World) : Prop :=
  forall k, JsMap.has k (connections w) = true -> JsMap.has k (devices w) = true.

(** Every record has a name. *)
Definition named (w : World) : Prop :=
  forall k device, In (k, device) (devices w) -> ChatDevice.name device <> [].

(** The last three together. *)
Definition well_kept (w : World) : Prop :=
  records_keyed w /\ sessions_known w /\ named w.

(** The characters of Base64 text. *)
Definition is_base64_text (s : list N) : Prop :=
  Forall (fun c => In c (Base64.padding :: Base64.alphabet)) s.

(** A label's rank, from the weakest. *)
Definition signal_rank (t : DeviceScanner.SignalText) : nat :=
  match t with
  | DeviceScanner.Weak => 0%nat
  | DeviceScanner.Fair => 1%nat
  | DeviceScanner.Good => 2%nat
  | DeviceScanner.Excellent => 3%nat
  end.

(** The code unit before a position: the last one of [m], or [prev] when [m]
    is empty. *)
Fixpoint last_or (prev : option N) (m : JsString) : option N :=
  match m with
  | [] => prev
  | c :: m' => last_or (Some c) m'
  end.

(** What a pattern matches: [Matches r prev m rest] when [r] matches exactly
    [m], with [prev] before it and [rest] after it. *)
Inductive Matches : RegExp.t -> option N -> JsString -> JsString -> Prop :=
| Matches_Eps prev rest : Matches Eps prev [] rest
| Matches_Cls p c prev rest : p c = true -> Matches (Cls p) prev [c] rest
| Matches_Seq a b prev m1 m2 rest :
    Matches a prev m1 (m2 ++ rest) ->
    Matches b (last_or prev m1) m2 rest ->
    Matches (Seq a b) prev (m1 ++ m2) rest
| Matches_Alt_l a b prev m rest : Matches a prev m rest -> Matches (Alt a b) prev m rest
| Matches_Alt_r a b prev m rest : Matches b prev m rest -> Matches (Alt a b) prev m rest
| Matches_Opt_some a prev m rest : Matches a prev m rest -> Matches (Opt a) prev m rest
| Matches_Opt_none a prev rest : Matches (Opt a) prev [] rest
| Matches_WordB prev rest :
    RegExp.at_boundary prev rest = true -> Matches WordB prev [] rest.

(** The five keywords of the first pattern. *)
Definition keywords : list JsString :=
  [js "password"; js "ssn"; js "social security"; js "credit card";
   js "bank account"].

(** [text] spells [keyword] up to the case of its letters. *)
Definition spells (keyword text : JsString) : Prop :=
  Forall2 (fun p c => RegExp.is_i p c = true) keyword text.

(** [n] decimal digits. *)
Definition digits (n : nat) (s : JsString) : Prop :=
  List.length s = n /\ Forall (fun c => RegExp.digit c = true) s.

(** Nothing, or one dash or white space character. *)
Definition separator (s : JsString) : Prop :=
  s = [] \/ exists c, s = [c] /\ RegExp.dash_or_space c = true.

(** The three shapes of sensitive data: a keyword in any letter case,
    sixteen digits in groups of four, and [ddd-dd-dddd]. *)
Inductive sensitive : JsString -> Prop :=
| sensitive_keyword keyword text :
    In keyword keywords -> spells keyword text -> sensitive text
| sensitive_card g1 s1 g2 s2 g3 s3 g4 :
    digits 4 g1 -> separator s1 -> digits 4 g2 -> separator s2 ->
    digits 4 g3 -> separator s3 -> digits 4 g4 ->
    sensitive (g1 ++ s1 ++ g2 ++ s2 ++ g3 ++ s3 ++ g4)
| sensitive_ssn a b c :
    digits 3 a -> digits 2 b -> digits 4 c ->
    sensitive (a ++ [45%N] ++ b ++ [45%N] ++ c).

(** [pre] is empty or ends with a character that is not a word character;
    [post] is empty or starts with one. *)
Definition nonword_before (pre : JsString) : Prop :=
  match last_or None pre with Some c => RegExp.word c = false | None => True end.

Definition nonword_after (post : JsString) : Prop :=
  match post with c :: _ => RegExp.word c = false | [] => True end.

(** Text that begins, and text that ends, with a word character. *)
Definition starts_with_word (t : JsString) : Prop :=
  exists c t', t = c :: t' /\ RegExp.word c = true.
Definition ends_with_word (t : JsString) : Prop :=
  exists t' c, t = t' ++ [c] /\ RegExp.word c = true.


(** Text of 16-bit code units without lone surrogates: every high surrogate
    is followed by a low one, and every low one follows a high one. *)
Inductive well_formed : JsString -> Prop :=
| well_formed_nil : well_formed []
| well_formed_unit c s :
    (c < 0x10000)%N ->
    Utf8.is_high_surrogate c = false -> Utf8.is_low_surrogate c = false ->
    well_formed s -> well_formed (c :: s)
| well_formed_pair h l s :
    Utf8.is_high_surrogate h = true -> Utf8.is_low_surrogate l = true ->
    well_formed s -> well_formed (h :: l :: s).

(** The decoder run over some bytes: what it emits and the state it ends in. *)
Fixpoint decoder_run (st : Utf8.state) (bytes : list N) : list N * Utf8.state :=
  match bytes with
  | [] => ([], st)
  | b :: bs =>
      let (o1, st1) := Utf8.step st b in
      let (o2, st2) := decoder_run st1 bs in (o1 ++ o2, st2)
  end.

Definition state_eqb (a b : Utf8.state) : bool :=
  (Utf8.code_point a =? Utf8.code_point b)%N
  && (Utf8.bytes_needed a =? Utf8.bytes_needed b)%N
  && (Utf8.bytes_seen a =? Utf8.bytes_seen b)%N
  && (Utf8.lower_boundary a =? Utf8.lower_boundary b)%N
  && (Utf8.upper_boundary a =? Utf8.upper_boundary b)%N.

(** A code point of the basic plane whose bytes decode to it alone, are
    bytes, and begin like a byte order mark only if it is U+FEFF. *)
Definition bmp_ok (cp : N) : bool :=
  let bs := Utf8.bytes_of cp in
  let (out, st) := decoder_run Utf8.initial bs in
  match out with
  | [c] =>
      (c =? cp)%N && state_eqb st Utf8.initial
      && forallb (fun b => (b <? 256)%N) bs
      && match bs with
         | [b0] => negb (b0 =? 0xEF)%N
         | [b0; b1] => negb (b0 =? 0xEF)%N
         | [b0; b1; b2] =>
             negb ((b0 =? 0xEF) && (b1 =? 0xBB) && (b2 =? 0xBF))%N
             || (cp =? 0xFEFF)%N
         | _ => false
         end
  | _ => false
  end.

(** The first three bytes of a code point beyond the basic plane, from its
    bits above the lowest six, leave the decoder waiting for the last byte. *)
Definition lead3_ok (h : N) : bool :=
  let bs := [N.lor 0xF0 (N.shiftr h 12);
             N.lor 0x80 (N.land (N.shiftr h 6) 0x3F);
             N.lor 0x80 (N.land h 0x3F)] in
  let (out, st) := decoder_run Utf8.initial bs in
  match out with
  | [] =>
      state_eqb st (Utf8.mkState h 3 2 0x80 0xBF)
      && forallb (fun b => (b <? 256)%N) bs
      && negb (N.lor 0xF0 (N.shiftr h 12) =? 0xEF)%N
  | _ => false
  end.

(** The last byte of a sequence, from six bits. *)
Definition trail_ok (l : N) : bool :=
  let b := N.lor 0x80 l in
  (0x80 <=? b)%N && (b <=? 0xBF)%N && (N.land b 0x3F =? l)%N.

(** [check] holds for [count] numbers from [start] on. *)
Definition all_in_range (check : N -> bool) (start count : N) : bool :=
  snd (N.iter count (fun s => (fst s + 1, snd s && check (fst s)))%N
              (start, true)).

(** A code point whose bytes are bytes, decode to it alone, and are not
    taken for a byte order mark unless it is U+FEFF. *)
Definition decodes_alone (cp : N) : Prop :=
  decoder_run Utf8.initial (Utf8.bytes_of cp) = ([cp], Utf8.initial)
  /\ Forall (fun b => (b < 256)%N) (Utf8.bytes_of cp)
  /\ (cp <> 0xFEFF%N ->
      forall rest,
        Utf8.strip_bom (Utf8.bytes_of cp ++ rest) = Utf8.bytes_of cp ++ rest).

(* ================================================================== *)
(** ** Concrete scenarios *)

Module Scenario.

(** A transport on which every call resolves. *)
Definition always_resolves : list BleCall -> BleCall -> bool :=
  fun _ _ => true.

(** A transport that rejects every [disconnect] of the device [failing]. *)
Definition disconnect_rejects (failing : JsString)
  : list BleCall -> BleCall -> bool :=
  fun _ c =>
    match c with
    | Disconnect deviceId => negb (Js.eqb deviceId failing)
    | _ => true
    end.

(** A cipher for the examples: the bytes are the salt byte followed by the
    text, and the text form is read back as the plaintext. *)
Definition toy_encrypt (message key : JsString) (salt : N) : list N :=
  salt :: message.
Definition toy_decrypt_utf8 (text key : JsString) : option JsString :=
  Some text.

(** A cipher that inverts [toy_encrypt] on two-letter messages: "hi" with
    salt 7 has the text form "B2hp". *)
Definition hi_decrypt_utf8 (text key : JsString) : option JsString :=
  if Js.eqb text (js "B2hp") then Some (js "hi") else None.

Definition idA : JsString := js "11:22:33:44:55:66".
Definition idB : JsString := js "AA:BB:CC:DD:EE:FF".

Definition advertA : ScanResult.t :=
  ScanResult.mk (BleDevice.mk idA (Some (js "Alice"))) (-55).
Definition advertB : ScanResult.t :=
  ScanResult.mk (BleDevice.mk idB None) (-40).

Definition run_ok : list Event -> World -> World :=
  run always_resolves toy_encrypt toy_decrypt_utf8.

(** B discovered and connected. *)
Definition connected_B : World :=
  run_ok [EvScanResult advertB 1000; EvConnect idB] initial_world.

(** B discovered, connected, and then heard again by the scan. *)
Definition rediscovered_B : World :=
  run_ok [EvScanResult advertB 1000; EvConnect idB; EvScanResult advertB 2000]
         initial_world.

(** A and B discovered and connected. *)
Definition connected_A_B : World :=
  run_ok [EvScanResult advertA 1000; EvScanResult advertB 1001;
          EvConnect idA; EvConnect idB] initial_world.

Definition deviceB : ChatDevice.t :=
  ChatDevice.mk idB (js "Device_E:FF") (-40) true 1000.

(** The chat with B, with [text] typed in the input. *)
Definition typed (text : JsString) (w : World) : World :=
  with_chat (fun s =>
    ChatInterface.mk (ChatInterface.messages s) text (ChatInterface.sending s)
      (ChatInterface.moderationWarning s) (ChatInterface.toasts s)) w.

End Scenario.

(** More scenarios. *)
Module Scenario2.

(** A cipher text that never decrypts. *)
Definition never_decrypts (text key : JsString) : option JsString := None.

(** B discovered, not connected. *)
Definition discovered_B : World :=
  Scenario.run_ok [EvScanResult Scenario.advertB 1000] initial_world.

Definition found_B : ChatDevice.t :=
  ChatDevice.mk Scenario.idB (js "Device_E:FF") (-40) false 1000.

(** The letter h, the euro sign and an emoji (a surrogate pair). *)
Definition mixed_text : JsString := [0x68; 0x20AC; 0xD83D; 0xDE00]%N.

End Scenario2.

(* ================================================================== *)
(** ** Strings and maps: basic facts *)

Unset Implicit Arguments.

Lemma Js_eqb_refl (a : JsString) : Js.eqb a a = true.
Proof.
  induction a as [|x a IH]; simpl; [reflexivity|].
  now rewrite N.eqb_refl, IH.
Qed.

Lemma Js_eqb_eq (a b : JsString) : Js.eqb a b = true <-> a = b.
Proof.
  split.
  - revert b; induction a as [|x a IH]; intros [|y b]; simpl;
      try discriminate; [reflexivity|].
    intros H. apply andb_true_iff in H as [Hx Hab].
    apply N.eqb_eq in Hx. apply IH in Hab. now subst.
  - intros ->. apply Js_eqb_refl.
Qed.

Lemma Js_eqb_neq (a b : JsString) : Js.eqb a b = false <-> a <> b.
Proof.
  rewrite <- Js_eqb_eq. destruct (Js.eqb a b); split; congruence.
Qed.

Lemma Js_eqb_spec (a b : JsString) : reflect (a = b) (Js.eqb a b).
Proof.
  destruct (Js.eqb a b) eqn:E; constructor.
  - now apply Js_eqb_eq.
  - now apply Js_eqb_neq.
Qed.

Section MapFacts.

Variable V : Type.
Implicit Types (m : JsMap.t V) (k : JsString) (v : V).

Lemma get_set_same k v m : JsMap.get k (JsMap.set k v m) = Some v.
Proof.
  induction m as [|[k' v'] m IH]; simpl.
  - now rewrite Js_eqb_refl.
  - destruct (Js.eqb k k') eqn:E; simpl.
    + now rewrite Js_eqb_refl.
    + now rewrite E.
Qed.

Lemma get_set_other k k' v m :
  k' <> k -> JsMap.get k' (JsMap.set k v m) = JsMap.get k' m.
Proof.
  intros Hne. induction m as [|[k0 v0] m IH]; simpl.
  - apply Js_eqb_neq in Hne. now rewrite Hne.
  - destruct (Js_eqb_spec k k0) as [->|Hk]; simpl.
    + apply Js_eqb_neq in Hne. now rewrite Hne.
    + now rewrite IH.
Qed.

Lemma get_delete_same k m : JsMap.get k (JsMap.delete k m) = None.
Proof.
  induction m as [|[k' v'] m IH]; simpl; [reflexivity|].
  destruct (Js.eqb k k') eqn:E; simpl; [assumption|].
  now rewrite E.
Qed.

Lemma get_delete_other k k' m :
  k' <> k -> JsMap.get k' (JsMap.delete k m) = JsMap.get k' m.
Proof.
  intros Hne. induction m as [|[k0 v0] m IH]; simpl; [reflexivity|].
  destruct (Js_eqb_spec k k0) as [->|Hk]; simpl.
  - apply Js_eqb_neq in Hne. now rewrite Hne.
  - now rewrite IH.
Qed.

Lemma has_set_same k v m : JsMap.has k (JsMap.set k v m) = true.
Proof. unfold JsMap.has. now rewrite get_set_same. Qed.

Lemma has_set_other k k' v m :
  k' <> k -> JsMap.has k' (JsMap.set k v m) = JsMap.has k' m.
Proof. intros H. unfold JsMap.has. now rewrite get_set_other. Qed.

Lemma has_delete_same k m : JsMap.has k (JsMap.delete k m) = false.
Proof. unfold JsMap.has. now rewrite get_delete_same. Qed.

Lemma has_delete_other k k' m :
  k' <> k -> JsMap.has k' (JsMap.delete k m) = JsMap.has k' m.
Proof. intros H. unfold JsMap.has. now rewrite get_delete_other. Qed.

Lemma get_in_keys k v m : JsMap.get k m = Some v -> In k (JsMap.keys m).
Proof.
  induction m as [|[k' v'] m IH]; simpl; [discriminate|].
  destruct (Js_eqb_spec k k') as [->|Hk]; auto.
Qed.

Lemma get_none_not_in k m : JsMap.get k m = None <-> ~ In k (JsMap.keys m).
Proof.
  induction m as [|[k' v'] m IH]; simpl.
  - tauto.
  - destruct (Js_eqb_spec k k') as [->|Hk].
    + split; [discriminate | intros H; exfalso; auto].
    + rewrite IH. split; intros H; [intros [E|E]|]; auto.
Qed.

(** Writing back the value a key already has changes nothing. *)
Lemma set_same_value k v m : JsMap.get k m = Some v -> JsMap.set k v m = m.
Proof.
  induction m as [|[k' v'] m IH]; simpl; [discriminate|].
  destruct (Js_eqb_spec k k') as [->|Hk].
  - now intros [= ->].
  - intros H. now rewrite IH.
Qed.

Lemma delete_absent k m : JsMap.get k m = None -> JsMap.delete k m = m.
Proof.
  induction m as [|[k' v'] m IH]; simpl; [reflexivity|].
  destruct (Js_eqb_spec k k') as [->|Hk]; [discriminate|].
  intros H. now rewrite IH.
Qed.

Lemma keys_set_in k v m k' :
  In k' (JsMap.keys (JsMap.set k v m)) <-> k' = k \/ In k' (JsMap.keys m).
Proof.
  induction m as [|[k0 v0] m IH]; simpl.
  - split; intros H; intuition (subst; auto).
  - destruct (Js_eqb_spec k k0) as [->|Hk]; simpl.
    + split; intros H; intuition (subst; auto).
    + rewrite IH. split; intros H; intuition (subst; auto).
Qed.

Lemma keys_delete_in k m k' :
  In k' (JsMap.keys (JsMap.delete k m)) -> In k' (JsMap.keys m).
Proof.
  induction m as [|[k0 v0] m IH]; simpl; [tauto|].
  destruct (Js.eqb k k0); simpl; intuition auto.
Qed.

(** [set] and [delete] keep the keys distinct. *)
Lemma NoDup_keys_set k v m :
  NoDup (JsMap.keys m) -> NoDup (JsMap.keys (JsMap.set k v m)).
Proof.
  induction m as [|[k0 v0] m IH]; simpl; intros Hnd.
  - constructor; [intros []|constructor].
  - inversion Hnd as [|? ? Hnotin Hnd']; subst.
    destruct (Js_eqb_spec k k0) as [->|Hk]; simpl.
    + now constructor.
    + constructor; [|auto].
      intros Hin. apply keys_set_in in Hin as [->|Hin]; auto.
Qed.

Lemma NoDup_keys_delete k m :
  NoDup (JsMap.keys m) -> NoDup (JsMap.keys (JsMap.delete k m)).
Proof.
  induction m as [|[k0 v0] m IH]; simpl; intros Hnd; [constructor|].
  inversion Hnd as [|? ? Hnotin Hnd']; subst.
  destruct (Js.eqb k k0); simpl; [auto|].
  constructor; [|auto].
  intros Hin. apply keys_delete_in in Hin. auto.
Qed.

End MapFacts.

(* ================================================================== *)
(** ** The moderation gate *)

Lemma moderation_loop_spec (patterns : list RegExp.t) (message : JsString) :
  moderation_loop patterns message =
    if existsb (fun pattern => RegExp.test pattern message) patterns
    then mkModeration true (Some sensitive_reason)
    else mkModeration false None.
Proof.
  induction patterns as [|pattern patterns IH]; simpl; [reflexivity|].
  destruct (RegExp.test pattern message); simpl; auto.
Qed.


Lemma trimStart_nil (s : JsString) : Js.trimStart s = [] <-> blank s.
Proof.
  unfold blank. induction s as [|c s IH]; simpl.
  - split; auto.
  - destruct (Js.is_space c) eqn:E.
    + rewrite IH. split; intros H; [constructor; auto | now inversion H].
    + split; [discriminate|]. intros H. inversion H; congruence.
Qed.

Lemma trimStart_head (s : JsString) :
  match Js.trimStart s with
  | [] => True
  | c :: _ => Js.is_space c = false
  end.
Proof.
  induction s as [|c s IH]; simpl; [exact I|].
  destruct (Js.is_space c) eqn:E; [exact IH | exact E].
Qed.

Lemma trim_blank (s : JsString) : Js.truthy (Js.trim s) = false -> blank s.
Proof.
  unfold Js.trim, Js.trimEnd. intros H.
  assert (Hrev : Js.trimStart (rev (Js.trimStart s)) = []).
  { destruct (Js.trimStart (rev (Js.trimStart s))) as [|x l] eqn:E; [reflexivity|].
    simpl in H. destruct (rev l ++ [x]) eqn:E'; [|discriminate].
    now apply app_eq_nil in E' as [_ ?]. }
  apply trimStart_nil in Hrev. unfold blank in Hrev.
  apply Forall_rev in Hrev. rewrite rev_involutive in Hrev.
  apply trimStart_nil.
  pose proof (trimStart_head s) as Hhead.
  destruct (Js.trimStart s) as [|c l]; [reflexivity|].
  inversion Hrev; congruence.
Qed.

Lemma space_range (c : N) :
  Js.is_space c = true -> (c <= 32 \/ 160 <= c)%N.
Proof.
  unfold Js.is_space.
  rewrite !orb_true_iff, !andb_true_iff, !N.eqb_eq, !N.leb_le. lia.
Qed.

Lemma digit_range (c : N) : RegExp.digit c = true -> (48 <= c <= 57)%N.
Proof.
  unfold RegExp.digit. rewrite andb_true_iff, !N.leb_le. lia.
Qed.

Lemma is_i_letter_range (p c : N) :
  (97 <= p <= 122)%N -> RegExp.is_i p c = true -> (65 <= c <= 122)%N.
Proof.
  unfold RegExp.is_i.
  rewrite !orb_true_iff, !andb_true_iff, !N.eqb_eq, !N.leb_le. lia.
Qed.


Lemma digit_visible : visible RegExp.digit.
Proof.
  intros c Hc. destruct (RegExp.digit c) eqn:E; [|reflexivity].
  apply space_range in Hc. apply digit_range in E. lia.
Qed.

Lemma is_i_letter_visible (p : N) : (97 <= p <= 122)%N -> visible (RegExp.is_i p).
Proof.
  intros Hp c Hc. destruct (RegExp.is_i p c) eqn:E; [|reflexivity].
  apply space_range in Hc. apply (@is_i_letter_range p c Hp) in E. lia.
Qed.


Lemma eats_visible_no_match (r : RegExp.t) :
  eats_visible r ->
  forall prev s k, blank s -> RegExp.run r prev s k = false.
Proof.
  induction r as [|p|a IHa b IHb|a IHa b IHb|a IHa|]; simpl; try tauto.
  - intros Hp prev [|c s] k Hs; [reflexivity|].
    inversion Hs; subst. now rewrite Hp.
  - intros H prev s k Hs.
    destruct a; simpl in H; try tauto;
      try (apply IHa; [exact H | exact Hs]).
    simpl. now rewrite IHb, andb_false_r.
  - intros [Ha Hb] prev s k Hs. now rewrite IHa, IHb.
Qed.

Lemma eats_visible_no_search (r : RegExp.t) :
  eats_visible r -> forall s prev, blank s -> RegExp.search r prev s = false.
Proof.
  intros Hr. induction s as [|c s IH]; intros prev Hs; simpl;
    unfold RegExp.match_here; rewrite (eats_visible_no_match r Hr) by assumption.
  - reflexivity.
  - inversion Hs; subst. now apply IH.
Qed.

Lemma sensitivePatterns_eat_visible : Forall eats_visible sensitivePatterns.
Proof.
  repeat constructor; simpl;
    try apply digit_visible; apply is_i_letter_visible; lia.
Qed.

(** Blank text is never flagged. *)
Lemma blank_not_flagged (s : JsString) :
  blank s -> flagged (checkContentModeration s) = false.
Proof.
  intros Hs. unfold checkContentModeration. rewrite moderation_loop_spec.
  assert (E : existsb (fun p => RegExp.test p s) sensitivePatterns = false).
  { pose proof sensitivePatterns_eat_visible as Hall.
    induction Hall as [|r l Hr _ IH]; simpl; [reflexivity|].
    unfold RegExp.test at 1. now rewrite (eats_visible_no_search r Hr) by assumption; exact IH. }
  now rewrite E.
Qed.

(** C8: [checkContentModeration] is a function of the text alone: it tests
    the text against the three sensitive-data patterns in their order and
    answers flagged, with the one generic reason, as soon as one matches,
    and not flagged when none does; the SSN sentence and the grouped
    16-digit number are flagged, "hello there" is not. *)
Theorem C8_checkContentModeration_patterns :
  (forall message,
     checkContentModeration message =
       if existsb (fun pattern => RegExp.test pattern message)
                  [keyword_pattern; credit_card_pattern; ssn_pattern]
       then mkModeration true
              (Some (js "Message contains potentially sensitive information"))
       else mkModeration false None)
  /\ (forall pattern message,
        In pattern sensitivePatterns ->
        RegExp.test pattern message = true ->
        checkContentModeration message =
          mkModeration true (Some sensitive_reason))
  /\ flagged (checkContentModeration (js "my ssn is 123-45-6789")) = true
  /\ flagged (checkContentModeration (js "4111 1111 1111 1111")) = true
  /\ checkContentModeration (js "hello there") = mkModeration false None.
Proof.
  split; [|split; [|repeat split; vm_compute; reflexivity]].
  - intros message. apply moderation_loop_spec.
  - intros pattern message Hin Hmatch.
    unfold checkContentModeration. rewrite moderation_loop_spec.
    assert (E : existsb (fun p => RegExp.test p message) sensitivePatterns = true)
      by (apply existsb_exists; eauto).
    now rewrite E.
Qed.

(* ================================================================== *)
(** ** Text on the wire *)

Lemma ascii_not_surrogate (c : N) :
  (c < 128)%N -> Utf8.is_high_surrogate c = false /\ Utf8.is_low_surrogate c = false.
Proof.
  intros Hc. unfold Utf8.is_high_surrogate, Utf8.is_low_surrogate.
  split; apply andb_false_iff; left; apply N.leb_gt; lia.
Qed.

(** ASCII text is its own UTF-8 encoding. *)
Lemma encode_ascii (s : JsString) : is_ascii_text s -> Utf8.encode s = s.
Proof.
  induction 1 as [|c s Hc _ IH]; [reflexivity|].
  cbn [Utf8.encode].
  destruct (ascii_not_surrogate c Hc) as [-> ->].
  unfold Utf8.bytes_of. apply N.ltb_lt in Hc. rewrite Hc, IH. reflexivity.
Qed.

Lemma Uint8Array_from_ascii (s : list N) : is_ascii_text s -> Uint8Array_from s = s.
Proof.
  unfold Uint8Array_from.
  induction 1 as [|c s Hc _ IH]; simpl; [reflexivity|].
  rewrite IH, N.mod_small by lia. reflexivity.
Qed.

Lemma strip_bom_ascii (s : list N) : is_ascii_text s -> Utf8.strip_bom s = s.
Proof.
  intros Hs. destruct s as [|b0 [|b1 [|b2 rest]]]; try reflexivity.
  simpl. inversion Hs as [|? ? Hb0 _]; subst.
  assert (E : (b0 =? 239)%N = false) by (apply N.eqb_neq; lia).
  now rewrite E.
Qed.

Lemma decode_from_ascii (s : list N) :
  is_ascii_text s -> Utf8.decode_from Utf8.initial s = s.
Proof.
  induction 1 as [|c s Hc _ IH]; [reflexivity|].
  cbn [Utf8.decode_from]. unfold Utf8.step, Utf8.lead.
  assert (E : (c <=? 127)%N = true) by (apply N.leb_le; lia).
  cbn [Utf8.bytes_needed Utf8.initial N.eqb]. rewrite E, IH. reflexivity.
Qed.

Lemma units_of_ascii (s : list N) : is_ascii_text s -> flat_map Utf8.units_of s = s.
Proof.
  induction 1 as [|c s Hc _ IH]; [reflexivity|].
  cbn [flat_map]. rewrite IH. unfold Utf8.units_of.
  assert (E : (c <? 65536)%N = true) by (apply N.ltb_lt; lia).
  now rewrite E.
Qed.

Lemma decode_ascii (s : list N) : is_ascii_text s -> Utf8.decode s = s.
Proof.
  intros Hs. unfold Utf8.decode.
  now rewrite strip_bom_ascii, decode_from_ascii, units_of_ascii.
Qed.

(** What the notification callback reads from the bytes [sendMessage] wrote
    for an ASCII text is that text. *)
Lemma wire_roundtrip_ascii (text : JsString) :
  is_ascii_text text ->
  Utf8.decode (Uint8Array_from (dataViewToNumbers (payload_of text))) = text.
Proof.
  intros Hs. unfold payload_of, numbersToDataView, dataViewToNumbers.
  rewrite encode_ascii by assumption.
  rewrite !(@Uint8Array_from_ascii text Hs).
  now apply decode_ascii.
Qed.

Lemma alphabet_ascii : is_ascii_text Base64.alphabet.
Proof. unfold is_ascii_text. repeat constructor. Qed.

Lemma Base64_char_ascii (v : N) : (Base64.char v < 128)%N.
Proof.
  unfold Base64.char.
  destruct (nth_in_or_default (N.to_nat (N.land v 63)) Base64.alphabet Base64.padding)
    as [Hin | ->].
  - pose proof alphabet_ascii as H. unfold is_ascii_text in H.
    rewrite Forall_forall in H. now apply H.
  - reflexivity.
Qed.

Lemma Base64_stringify_ascii_upto (n : nat) :
  forall bytes, (List.length bytes <= n)%nat -> is_ascii_text (Base64.stringify bytes).
Proof.
  induction n as [|n IH];
    intros [|a [|b [|c rest]]] Hlen; simpl in *; try lia;
    repeat (constructor; try apply Base64_char_ascii; try reflexivity).
  apply IH; lia.
Qed.

(** The text form of a ciphertext is ASCII. *)
Lemma Base64_stringify_ascii (bytes : list N) : is_ascii_text (Base64.stringify bytes).
Proof. now apply (Base64_stringify_ascii_upto (List.length bytes)). Qed.

(** [Date.now().toString()] tells two clock readings apart. *)
Lemma js_inj (a b : string) : js a = js b -> a = b.
Proof.
  unfold js. intros H.
  assert (E : list_ascii_of_string a = list_ascii_of_string b).
  { revert H. generalize (list_ascii_of_string a) (list_ascii_of_string b).
    induction l as [|x l IH]; intros [|y l']; simpl; try discriminate; auto.
    intros [= Hxy Hl]. f_equal; [|auto].
    rewrite <- (ascii_N_embedding x), <- (ascii_N_embedding y). now rewrite Hxy. }
  rewrite <- (string_of_list_ascii_of_string a), <- (string_of_list_ascii_of_string b).
  now rewrite E.
Qed.

Lemma Number_toString_inj (a b : Z) :
  Js.Number_toString a = Js.Number_toString b -> a = b.
Proof.
  unfold Js.Number_toString. intros H. apply js_inj in H.
  assert (Hnz : forall z, Z.to_int z <> Decimal.Pos Decimal.Nil
                          /\ Z.to_int z <> Decimal.Neg Decimal.Nil).
  { intros [|p|p]; simpl; split; try discriminate;
      intros [= E]; now apply (DecimalPos.Unsigned.to_uint_nonnil p). }
  apply DecimalZ.to_int_inj.
  assert (Ha := NilZero.isi _ (proj1 (Hnz a)) (proj2 (Hnz a))).
  assert (Hb := NilZero.isi _ (proj1 (Hnz b)) (proj2 (Hnz b))).
  rewrite H in Ha. rewrite Ha in Hb. now injection Hb.
Qed.

(* ================================================================== *)
(** ** The service's methods *)

(** Unfolds the monad to the state transformer it denotes. *)
Ltac run_js :=
  unfold BleClient, log, log_error, encrypt, decrypt,
    setMessages, setNewMessage, setSending, setModerationWarning, toast;
  unfold result_of, world_of, try_catch, try_finally, bind, ret, throw, gets,
    modify;
  cbn [fst snd devices connections ble_calls console crypto_calls chat
       with_devices with_connections with_ble_call with_console
       with_crypto_call with_chat].

Section Properties.

Variable BleClient_resolves : list BleCall -> BleCall -> bool.
Variable AES_encrypt : JsString -> JsString -> N -> list N.
Variable AES_decrypt_utf8 : JsString -> JsString -> option JsString.

Lemma same_service_refl (w : World) : same_service w w.
Proof. split; reflexivity. Qed.

Lemma same_service_trans (w1 w2 w3 : World) :
  same_service w1 w2 -> same_service w2 w3 -> same_service w1 w3.
Proof. intros [? ?] [? ?]. split; congruence. Qed.

(** *** What each method does to the registry and the sessions *)

Lemma initialize_frame (w : World) :
  same_service w (world_of (initialize BleClient_resolves w)).
Proof.
  unfold initialize. run_js.
  destruct (BleClient_resolves (ble_calls w) Initialize); split; reflexivity.
Qed.

Lemma stopScanning_spec (w : World) :
  result_of (stopScanning BleClient_resolves w) = Normal tt
  /\ same_service w (world_of (stopScanning BleClient_resolves w)).
Proof.
  unfold stopScanning. run_js.
  destruct (BleClient_resolves (ble_calls w) StopLEScan); repeat split; reflexivity.
Qed.

Lemma startScanning_frame (w : World) :
  same_service w (world_of (startScanning BleClient_resolves w)).
Proof.
  unfold startScanning. run_js.
  destruct (BleClient_resolves (ble_calls w) _); split; reflexivity.
Qed.

Lemma startMessageListener_frame (w : World) (deviceId : JsString) :
  same_service w (world_of (startMessageListener BleClient_resolves deviceId w)).
Proof.
  unfold startMessageListener. run_js.
  destruct (BleClient_resolves (ble_calls w) _); split; reflexivity.
Qed.

Lemma scan_callback_spec (w : World) (result : ScanResult.t) (now : Z) :
  let deviceId := BleDevice.deviceId (ScanResult.device result) in
  exists device,
    world_of (scan_callback result now w)
      = with_devices (JsMap.set deviceId device) w
    /\ ChatDevice.id device = deviceId
    /\ ChatDevice.rssi device = ScanResult.rssi result
    /\ ChatDevice.lastSeen device = now
    /\ ChatDevice.connected device = false.
Proof.
  unfold scan_callback. run_js. eexists. repeat split.
Qed.

Lemma connectToDevice_cases (w : World) (deviceId : JsString) :
  let r := connectToDevice BleClient_resolves deviceId w in
  (result_of r = Normal false /\ same_service w (world_of r))
  \/ (exists device,
        result_of r = Normal true
        /\ JsMap.get deviceId (devices w) = Some device
        /\ devices (world_of r)
             = JsMap.set deviceId (ChatDevice.set_connected true device) (devices w)
        /\ connections (world_of r)
             = JsMap.set deviceId (BleDevice.mk deviceId None) (connections w)).
Proof.
  unfold connectToDevice. run_js.
  destruct (JsMap.get deviceId (devices w)) as [device|] eqn:Hget;
    [|left; repeat split].
  destruct (BleClient_resolves (ble_calls w) (Connect deviceId));
    cbn [ble_calls with_ble_call]; [|left; repeat split].
  destruct (BleClient_resolves _ (GetServices deviceId));
    [|left; repeat split].
  right. exists device. repeat split.
Qed.

Lemma disconnectFromDevice_spec (w : World) (deviceId : JsString) :
  let r := disconnectFromDevice BleClient_resolves deviceId w in
  result_of r = Normal tt
  /\ ble_calls (world_of r) = ble_calls w ++ [Disconnect deviceId]
  /\ connections (world_of r)
       = (if BleClient_resolves (ble_calls w) (Disconnect deviceId)
          then JsMap.delete deviceId (connections w) else connections w)
  /\ devices (world_of r)
       = (if BleClient_resolves (ble_calls w) (Disconnect deviceId)
          then match JsMap.get deviceId (devices w) with
               | Some device =>
                   JsMap.set deviceId (ChatDevice.set_connected false device)
                             (devices w)
               | None => devices w
               end
          else devices w).
Proof.
  unfold disconnectFromDevice. run_js.
  destruct (BleClient_resolves (ble_calls w) (Disconnect deviceId));
    cbn [devices with_connections with_ble_call]; [|repeat split].
  destruct (JsMap.get deviceId (devices w)); repeat split.
Qed.

Lemma sendMessage_spec (w : World) (deviceId message : JsString) (salt : N) :
  let r := sendMessage BleClient_resolves AES_encrypt deviceId message salt w in
  (exists b, result_of r = Normal b) /\ same_service w (world_of r).
Proof.
  unfold sendMessage. run_js.
  destruct (JsMap.has deviceId (connections w)); cbn [negb];
    [|split; [eexists|split]; reflexivity].
  cbn [ble_calls with_crypto_call].
  destruct (BleClient_resolves (ble_calls w) _);
    (split; [eexists|split]; reflexivity).
Qed.

Lemma onMessage_spec (w : World) (message : ChatMessage.t) :
  onMessage message w
  = (Normal tt,
     with_chat (fun s =>
       ChatInterface.mk (ChatInterface.messages s ++ [message])
         (ChatInterface.newMessage s) (ChatInterface.sending s)
         (ChatInterface.moderationWarning s) (ChatInterface.toasts s)) w).
Proof. reflexivity. Qed.

Lemma notification_callback_frame (w : World) (deviceId : JsString)
  (value : DataView) (now date : Z) :
  same_service w
    (world_of (notification_callback AES_decrypt_utf8 deviceId onMessage value
                                     now date w)).
Proof.
  unfold notification_callback, onMessage. run_js.
  destruct (AES_decrypt_utf8 _ encryptionKey); split; reflexivity.
Qed.

Lemma handleSendMessage_frame (w : World) (device : ChatDevice.t) (salt : N)
  (now date : Z) :
  same_service w
    (world_of (handleSendMessage BleClient_resolves AES_encrypt device salt
                                 now date w)).
Proof.
  unfold handleSendMessage, sendMessage. run_js.
  destruct (Js.truthy _); cbn [negb]; [|split; reflexivity].
  destruct (flagged _); cbn -[checkContentModeration]; [split; reflexivity|].
  destruct (JsMap.has _ (connections w)); cbn [negb];
    [|split; reflexivity].
  cbn [ble_calls with_crypto_call with_chat].
  destruct (BleClient_resolves (ble_calls w) _); split; reflexivity.
Qed.

(** *** Invariants of the registry and the sessions *)

Lemma unique_ids_service (w w' : World) :
  same_service w w' -> unique_ids w -> unique_ids w'.
Proof. unfold unique_ids. intros [-> ->]. auto. Qed.

Lemma connected_have_sessions_service (w w' : World) :
  same_service w w' -> connected_have_sessions w -> connected_have_sessions w'.
Proof. unfold connected_have_sessions. intros [-> ->]. auto. Qed.

Lemma paired_service (w w' : World) :
  same_service w w' -> paired w -> paired w'.
Proof. unfold paired. intros [-> ->]. auto. Qed.

Lemma paired_connected_have_sessions (w : World) :
  paired w -> connected_have_sessions w.
Proof. intros H deviceId device Hget Hc. now apply (H deviceId device Hget). Qed.

(** [connectToDevice] keeps the flag and the session in step. *)
Lemma connectToDevice_paired (w : World) (deviceId : JsString) :
  paired w -> paired (world_of (connectToDevice BleClient_resolves deviceId w)).
Proof.
  intros Hw.
  destruct (connectToDevice_cases w deviceId)
    as [[_ Hsame] | (device & _ & Hget & Hdev & Hconn)].
  - exact (paired_service _ _ Hsame Hw).
  - intros k d. rewrite Hdev, Hconn.
    destruct (Js_eqb_spec k deviceId) as [->|Hk].
    + rewrite get_set_same, has_set_same. intros [= <-]. simpl. tauto.
    + rewrite get_set_other, has_set_other by assumption. apply Hw.
Qed.

Lemma connectToDevice_unique_ids (w : World) (deviceId : JsString) :
  unique_ids w ->
  unique_ids (world_of (connectToDevice BleClient_resolves deviceId w)).
Proof.
  intros Hw.
  destruct (connectToDevice_cases w deviceId)
    as [[_ Hsame] | (device & _ & Hget & Hdev & Hconn)].
  - exact (unique_ids_service _ _ Hsame Hw).
  - destruct Hw as [Hd Hc]. split.
    + rewrite Hdev. now apply NoDup_keys_set.
    + rewrite Hconn. now apply NoDup_keys_set.
Qed.

Lemma connectToDevice_connected_have_sessions (w : World) (deviceId : JsString) :
  connected_have_sessions w ->
  connected_have_sessions
    (world_of (connectToDevice BleClient_resolves deviceId w)).
Proof.
  intros Hw.
  destruct (connectToDevice_cases w deviceId)
    as [[_ Hsame] | (device & _ & Hget & Hdev & Hconn)].
  - exact (connected_have_sessions_service _ _ Hsame Hw).
  - intros k d. rewrite Hdev, Hconn.
    destruct (Js_eqb_spec k deviceId) as [->|Hk].
    + now rewrite has_set_same.
    + rewrite get_set_other, has_set_other by assumption. apply Hw.
Qed.

(** [disconnectFromDevice] keeps the flag and the session in step, whether
    the transport call resolves or not. *)
Lemma disconnectFromDevice_paired (w : World) (deviceId : JsString) :
  paired w ->
  paired (world_of (disconnectFromDevice BleClient_resolves deviceId w)).
Proof.
  intros Hw.
  destruct (disconnectFromDevice_spec w deviceId) as (_ & _ & Hconn & Hdev).
  intros k d. rewrite Hdev, Hconn.
  destruct (BleClient_resolves (ble_calls w) (Disconnect deviceId)); [|apply Hw].
  destruct (Js_eqb_spec k deviceId) as [->|Hk].
  - rewrite has_delete_same.
    destruct (JsMap.get deviceId (devices w)) as [device|] eqn:Hget.
    + rewrite get_set_same. intros [= <-]. simpl. split; discriminate.
    + rewrite Hget. discriminate.
  - rewrite has_delete_other by assumption.
    destruct (JsMap.get deviceId (devices w)) as [device|].
    + rewrite get_set_other by assumption. apply Hw.
    + apply Hw.
Qed.

Lemma disconnectFromDevice_connected_have_sessions (w : World) (deviceId : JsString) :
  connected_have_sessions w ->
  connected_have_sessions
    (world_of (disconnectFromDevice BleClient_resolves deviceId w)).
Proof.
  intros Hw.
  destruct (disconnectFromDevice_spec w deviceId) as (_ & _ & Hconn & Hdev).
  intros k d. rewrite Hdev, Hconn.
  destruct (BleClient_resolves (ble_calls w) (Disconnect deviceId)); [|apply Hw].
  destruct (Js_eqb_spec k deviceId) as [->|Hk].
  - destruct (JsMap.get deviceId (devices w)) as [device|] eqn:Hget.
    + rewrite get_set_same. intros [= <-]. simpl. discriminate.
    + rewrite Hget. discriminate.
  - rewrite has_delete_other by assumption.
    destruct (JsMap.get deviceId (devices w)) as [device|].
    + rewrite get_set_other by assumption. apply Hw.
    + apply Hw.
Qed.

Lemma disconnectFromDevice_unique_ids (w : World) (deviceId : JsString) :
  unique_ids w ->
  unique_ids (world_of (disconnectFromDevice BleClient_resolves deviceId w)).
Proof.
  intros [Hd Hc].
  destruct (disconnectFromDevice_spec w deviceId) as (_ & _ & Hconn & Hdev).
  split.
  - rewrite Hdev.
    destruct (BleClient_resolves (ble_calls w) (Disconnect deviceId)); [|assumption].
    destruct (JsMap.get deviceId (devices w)); [|assumption].
    now apply NoDup_keys_set.
  - rewrite Hconn.
    destruct (BleClient_resolves (ble_calls w) (Disconnect deviceId)); [|assumption].
    now apply NoDup_keys_delete.
Qed.

Lemma cleanup_loop_cons (deviceId : JsString) (rest : list JsString) (w : World) :
  cleanup_loop BleClient_resolves (deviceId :: rest) w
  = if JsMap.has deviceId (connections w)
    then match disconnectFromDevice BleClient_resolves deviceId w with
         | (Normal _, w1) => cleanup_loop BleClient_resolves rest w1
         | (Throw e, w1) => (Throw e, w1)
         end
    else cleanup_loop BleClient_resolves rest w.
Proof.
  cbn [cleanup_loop]. unfold bind at 1 2, gets at 1.
  destruct (JsMap.has deviceId (connections w)); reflexivity.
Qed.

(** The loop of [cleanup] never throws, and keeps whatever every
    [disconnectFromDevice] keeps. *)
Lemma cleanup_loop_spec (ids : list JsString) :
  forall w,
    result_of (cleanup_loop BleClient_resolves ids w) = Normal tt
    /\ forall P : World -> Prop,
         (forall deviceId w0,
            P w0 -> P (world_of (disconnectFromDevice BleClient_resolves deviceId w0))) ->
         P w -> P (world_of (cleanup_loop BleClient_resolves ids w)).
Proof.
  induction ids as [|deviceId rest IH]; intros w.
  - split; [reflexivity | intros; assumption].
  - rewrite cleanup_loop_cons.
    destruct (JsMap.has deviceId (connections w)); [|apply IH].
    pose proof (disconnectFromDevice_spec w deviceId) as (Hres & _).
    destruct (disconnectFromDevice BleClient_resolves deviceId w) as [r w1] eqn:E.
    unfold result_of in Hres. cbn [fst] in Hres. subst r.
    destruct (IH w1) as [Hr HP]. split; [exact Hr|].
    intros P Hstep Hw. apply HP; [exact Hstep|].
    specialize (Hstep deviceId w Hw). now rewrite E in Hstep.
Qed.

Lemma cleanup_unfold (w : World) :
  cleanup BleClient_resolves w
  = match cleanup_loop BleClient_resolves (JsMap.keys (connections w)) w with
    | (Normal _, w1) =>
        match stopScanning BleClient_resolves w1 with
        | (Normal _, w2) =>
            (Normal tt,
             with_console (console_log (js "Bluetooth service cleaned up")) w2)
        | (Throw e, w2) =>
            (Normal tt,
             with_console (console_error (js "Error during cleanup:") e) w2)
        end
    | (Throw e, w1) =>
        (Normal tt,
         with_console (console_error (js "Error during cleanup:") e) w1)
    end.
Proof.
  unfold cleanup, try_catch, bind, gets, log, log_error, modify.
  destruct (cleanup_loop BleClient_resolves (JsMap.keys (connections w)) w)
    as [[[]|e] w1]; [|reflexivity].
  destruct (stopScanning BleClient_resolves w1) as [[[]|e] w2]; reflexivity.
Qed.

Lemma cleanup_spec (w : World) :
  result_of (cleanup BleClient_resolves w) = Normal tt
  /\ forall P : World -> Prop,
       (forall w1 w2, same_service w1 w2 -> P w1 -> P w2) ->
       (forall deviceId w0,
          P w0 -> P (world_of (disconnectFromDevice BleClient_resolves deviceId w0))) ->
       P w -> P (world_of (cleanup BleClient_resolves w)).
Proof.
  rewrite cleanup_unfold.
  destruct (cleanup_loop_spec (JsMap.keys (connections w)) w) as [Hres HP].
  destruct (cleanup_loop BleClient_resolves (JsMap.keys (connections w)) w)
    as [r w1] eqn:E.
  unfold result_of in Hres. cbn [fst] in Hres. subst r.
  destruct (stopScanning_spec w1) as [Hres2 Hsame].
  destruct (stopScanning BleClient_resolves w1) as [r2 w2] eqn:E2.
  unfold result_of in Hres2. cbn [fst] in Hres2. subst r2.
  unfold world_of in Hsame. cbn [snd] in Hsame.
  split; [reflexivity|].
  intros P Hservice Hstep Hw. unfold world_of. cbn [snd].
  apply (Hservice w2); [split; reflexivity|].
  apply (Hservice w1); [exact Hsame|].
  exact (HP P Hstep Hw).
Qed.

(** Every event keeps the ids distinct and keeps a session under every
    record that is marked connected. *)
Lemma step_invariant (ev : Event) (w : World) :
  unique_ids w /\ connected_have_sessions w ->
  let w' := step BleClient_resolves AES_encrypt AES_decrypt_utf8 ev w in
  unique_ids w' /\ connected_have_sessions w'.
Proof.
  intros [Hu Hc].
  assert (Hframe : forall w', same_service w w' ->
                     unique_ids w' /\ connected_have_sessions w').
  { intros w' Hs. split;
      [exact (unique_ids_service _ _ Hs Hu)
      |exact (connected_have_sessions_service _ _ Hs Hc)]. }
  destruct ev; cbn [step].
  - apply Hframe, initialize_frame.
  - apply Hframe, startScanning_frame.
  - destruct (scan_callback_spec w result now)
      as (device & -> & _ & _ & _ & Hfalse).
    split.
    + destruct Hu as [Hd Hs]. split; cbn [devices connections with_devices];
        [now apply NoDup_keys_set | assumption].
    + intros k d. cbn [devices connections with_devices].
      destruct (Js_eqb_spec k (BleDevice.deviceId (ScanResult.device result)))
        as [->|Hk].
      * rewrite get_set_same. intros [= <-]. congruence.
      * rewrite get_set_other by assumption. apply Hc.
  - apply Hframe, stopScanning_spec.
  - split; [now apply connectToDevice_unique_ids
           |now apply connectToDevice_connected_have_sessions].
  - split; [now apply disconnectFromDevice_unique_ids
           |now apply disconnectFromDevice_connected_have_sessions].
  - apply Hframe, sendMessage_spec.
  - apply Hframe, startMessageListener_frame.
  - apply Hframe, notification_callback_frame.
  - apply Hframe, handleSendMessage_frame.
  - destruct (cleanup_spec w) as [_ HP]. split.
    + apply HP;
        [exact unique_ids_service
        |intros d w0; apply disconnectFromDevice_unique_ids
        |exact Hu].
    + apply HP;
        [exact connected_have_sessions_service
        |intros d w0; apply disconnectFromDevice_connected_have_sessions
        |exact Hc].
Qed.

Lemma run_snoc (events : list Event) (ev : Event) (w : World) :
  run BleClient_resolves AES_encrypt AES_decrypt_utf8 (events ++ [ev]) w
  = step BleClient_resolves AES_encrypt AES_decrypt_utf8 ev
      (run BleClient_resolves AES_encrypt AES_decrypt_utf8 events w).
Proof. unfold run. now rewrite fold_left_app. Qed.

(** X2: In every reachable state there is at most one record per id, at most one
    session per id, and every record marked connected has a session. *)
Theorem reachable_invariant (w : World) :
  reachable BleClient_resolves AES_encrypt AES_decrypt_utf8 w ->
  unique_ids w /\ connected_have_sessions w.
Proof.
  intros [events ->].
  induction events as [|ev events IH] using rev_ind.
  - split; [split; constructor | intros k d; discriminate].
  - rewrite run_snoc. now apply step_invariant.
Qed.

Lemma cleanup_paired (w : World) :
  paired w -> paired (world_of (cleanup BleClient_resolves w)).
Proof.
  intros Hw. destruct (cleanup_spec w) as [_ HP].
  apply HP;
    [exact paired_service
    |intros d w0; apply disconnectFromDevice_paired
    |exact Hw].
Qed.

(** *** The claims about single methods *)

(** C10: [sendMessage] returns [true] or [false] and, either way, leaves the
    device registry and the connections map exactly as they were. *)
Theorem C10_sendMessage_leaves_registry_and_sessions
  (w : World) (deviceId message : JsString) (salt : N) :
  let r := sendMessage BleClient_resolves AES_encrypt deviceId message salt w in
  (result_of r = Normal true \/ result_of r = Normal false)
  /\ devices (world_of r) = devices w
  /\ connections (world_of r) = connections w.
Proof.
  cbv zeta.
  destruct (sendMessage_spec w deviceId message salt) as [[b Hb] [Hd Hc]].
  split; [destruct b; auto | split; assumption].
Qed.

(** C7: [connectToDevice] on an id that is not in the registry, or whose
    transport connect or service discovery rejects, returns [false]
    (it does not throw) and leaves the registry and the sessions unchanged;
    for an unknown id the transport is not even called. *)
Theorem C7_connect_failure_changes_nothing (w : World) (deviceId : JsString) :
  JsMap.get deviceId (devices w) = None
  \/ BleClient_resolves (ble_calls w) (Connect deviceId) = false
  \/ BleClient_resolves (ble_calls w ++ [Connect deviceId]) (GetServices deviceId)
     = false ->
  let r := connectToDevice BleClient_resolves deviceId w in
  result_of r = Normal false
  /\ devices (world_of r) = devices w
  /\ connections (world_of r) = connections w
  /\ (JsMap.get deviceId (devices w) = None ->
      ble_calls (world_of r) = ble_calls w).
Proof.
  intros H. cbv zeta. unfold connectToDevice. run_js.
  destruct (JsMap.get deviceId (devices w)) as [device|] eqn:Hget.
  - destruct (BleClient_resolves (ble_calls w) (Connect deviceId)) eqn:Hc;
      cbn [ble_calls with_ble_call].
    + destruct (BleClient_resolves (ble_calls w ++ [Connect deviceId])
                                   (GetServices deviceId)) eqn:Hs.
      * destruct H as [H|[H|H]]; discriminate.
      * repeat split. discriminate.
    + repeat split. discriminate.
  - repeat split.
Qed.

(** C4, as the code has it: [disconnectFromDevice] never throws. When the
    transport disconnect resolves, no session is left for the id, its record
    (if any) is marked not connected, and nothing at all changes when there
    was no session and the record was not marked connected. When the transport
    disconnect rejects, the failure is logged and the registry and the
    sessions stay exactly as they were, so an existing session stays. *)
Theorem C4_disconnect_clears_state_when_transport_resolves
  (w : World) (deviceId : JsString) :
  let r := disconnectFromDevice BleClient_resolves deviceId w in
  let w' := world_of r in
  result_of r = Normal tt
  /\ if BleClient_resolves (ble_calls w) (Disconnect deviceId)
     then JsMap.has deviceId (connections w') = false
          /\ (forall device,
                JsMap.get deviceId (devices w') = Some device ->
                ChatDevice.connected device = false)
          /\ (JsMap.has deviceId (connections w) = false ->
              (forall device,
                 JsMap.get deviceId (devices w) = Some device ->
                 ChatDevice.connected device = false) ->
              same_service w w')
     else same_service w w'
          /\ console w'
             = console w
               ++ [console_error (js "Failed to disconnect from device:")
                                 (Rejected (Disconnect deviceId))].
Proof.
  cbv zeta.
  destruct (disconnectFromDevice_spec w deviceId) as (Hres & _ & Hconn & Hdev).
  split; [exact Hres|]. unfold same_service.
  destruct (BleClient_resolves (ble_calls w) (Disconnect deviceId)) eqn:Hok.
  - rewrite Hconn, Hdev. split; [apply has_delete_same|]. split.
    + intros device.
      destruct (JsMap.get deviceId (devices w)) as [device0|] eqn:Hget.
      * rewrite get_set_same. now intros [= <-].
      * rewrite Hget. discriminate.
    + intros Hno Hflag. split.
      * destruct (JsMap.get deviceId (devices w)) as [device0|] eqn:Hget;
          [|reflexivity].
        apply set_same_value. rewrite Hget. f_equal.
        specialize (Hflag device0 eq_refl).
        destruct device0; simpl in *; now subst.
      * apply delete_absent. unfold JsMap.has in Hno.
        destruct (JsMap.get deviceId (connections w)); [discriminate|reflexivity].
  - split; [split; [rewrite Hdev | rewrite Hconn]; reflexivity|].
    unfold disconnectFromDevice. run_js. now rewrite Hok.
Qed.

(** The scan callback stores a fresh record under the advertised id, with the
    new signal strength and time and with [connected = false], whatever the
    record stored before said; the sessions are not touched. *)
Lemma scan_callback_stores_connected_false
  (w : World) (result : ScanResult.t) (now : Z) :
  let deviceId := BleDevice.deviceId (ScanResult.device result) in
  let w' := world_of (scan_callback result now w) in
  connections w' = connections w
  /\ exists device,
       JsMap.get deviceId (devices w') = Some device
       /\ ChatDevice.rssi device = ScanResult.rssi result
       /\ ChatDevice.lastSeen device = now
       /\ ChatDevice.connected device = false.
Proof.
  cbv zeta.
  destruct (scan_callback_spec w result now) as (device & -> & _ & Hr & Hl & Hc).
  split; [reflexivity|].
  exists device. cbn [devices with_devices]. now rewrite get_set_same.
Qed.

(** *** Messages *)

Lemma flagged_reason (text : JsString) :
  flagged (checkContentModeration text) = true ->
  checkContentModeration text = mkModeration true (Some sensitive_reason).
Proof.
  unfold checkContentModeration. rewrite moderation_loop_spec.
  destruct (existsb _ sensitivePatterns); [reflexivity|discriminate].
Qed.

Lemma flagged_not_blank (text : JsString) :
  flagged (checkContentModeration text) = true ->
  Js.truthy (Js.trim text) = true.
Proof.
  intros Hf. destruct (Js.truthy (Js.trim text)) eqn:E; [reflexivity|].
  apply trim_blank, blank_not_flagged in E. congruence.
Qed.

Lemma sendMessage_writes (w : World) (deviceId message : JsString) (salt : N) :
  JsMap.has deviceId (connections w) = true ->
  let text := CipherParams_toString (AES_encrypt message encryptionKey salt) in
  let r := sendMessage BleClient_resolves AES_encrypt deviceId message salt w in
  ble_calls (world_of r)
    = ble_calls w
      ++ [Write deviceId SERVICE_UUID MESSAGE_CHARACTERISTIC_UUID (payload_of text)]
  /\ crypto_calls (world_of r) = crypto_calls w ++ [Encrypt message encryptionKey]
  /\ result_of r
     = Normal (BleClient_resolves (ble_calls w)
                 (Write deviceId SERVICE_UUID MESSAGE_CHARACTERISTIC_UUID
                        (payload_of text))).
Proof.
  intros Hhas. cbv zeta. unfold sendMessage. run_js. rewrite Hhas. cbn [negb].
  cbn [ble_calls with_crypto_call].
  destruct (BleClient_resolves (ble_calls w) _); repeat split.
Qed.

(** C3, as the code has it: the gate is run by the chat component's
    [handleSendMessage], before it calls [sendMessage]. When the typed text is
    flagged the handler stops there: it shows the gate's reason as the
    moderation warning, and makes no CryptoJS call and no transport call;
    registry, sessions, message list and typed text stay as they were.
    [sendMessage] itself does not run the gate: called with a session for
    the device and the same flagged text, when that text has no unpaired
    surrogate, it encrypts it once and writes the ciphertext to the
    transport, returning whether the write resolved. *)
Theorem C3_handleSendMessage_stops_flagged_text
  (w : World) (device : ChatDevice.t) (salt : N) (now date : Z) :
  flagged (checkContentModeration (ChatInterface.newMessage (chat w))) = true ->
  let r := handleSendMessage BleClient_resolves AES_encrypt device salt now date w in
  let w' := world_of r in
  result_of r = Normal tt
  /\ ChatInterface.moderationWarning (chat w')
     = reason (checkContentModeration (ChatInterface.newMessage (chat w)))
  /\ ChatInterface.moderationWarning (chat w') = Some sensitive_reason
  /\ crypto_calls w' = crypto_calls w
  /\ ble_calls w' = ble_calls w
  /\ same_service w w'
  /\ ChatInterface.messages (chat w') = ChatInterface.messages (chat w)
  /\ ChatInterface.newMessage (chat w') = ChatInterface.newMessage (chat w)
  /\ (forall deviceId,
        well_formed (ChatInterface.newMessage (chat w)) ->
        JsMap.has deviceId (connections w) = true ->
        let text := ChatInterface.newMessage (chat w) in
        let sent :=
          sendMessage BleClient_resolves AES_encrypt deviceId text salt w in
        let payload :=
          payload_of (CipherParams_toString
                        (AES_encrypt text encryptionKey salt)) in
        crypto_calls (world_of sent)
        = crypto_calls w ++ [Encrypt text encryptionKey]
        /\ ble_calls (world_of sent)
           = ble_calls w
             ++ [Write deviceId SERVICE_UUID MESSAGE_CHARACTERISTIC_UUID payload]
        /\ result_of sent
           = Normal (BleClient_resolves (ble_calls w)
                       (Write deviceId SERVICE_UUID MESSAGE_CHARACTERISTIC_UUID
                              payload))).
Proof.
  intros Hf. cbv zeta.
  pose proof (flagged_not_blank _ Hf) as Hnb.
  pose proof (flagged_reason _ Hf) as Hr.
  split; [|split; [|split; [|split; [|split; [|split; [|split; [|split]]]]]]].
  1-8: unfold handleSendMessage; run_js;
       rewrite Hnb; cbn [negb]; rewrite Hf; unfold warning_of; rewrite Hr;
       cbn; repeat split.
  intros deviceId _ Hhas.
  destruct (sendMessage_writes w deviceId (ChatInterface.newMessage (chat w))
                               salt Hhas) as (Hb & Hc & Hres).
  split; [exact Hc|]. split; [exact Hb | exact Hres].
Qed.

(** C6: the bytes [sendMessage] writes for a message [m], handed to the
    notification callback, make it create the message with content [m],
    [sent = false] and [encrypted = true] and pass it to the handler, given
    that the cipher decrypts what it encrypted. *)
Theorem C6_sent_payload_is_received_as_the_message
  (w w_rx : World) (deviceId deviceId_rx m : JsString) (salt : N) (now date : Z) :
  JsMap.has deviceId (connections w) = true ->
  AES_decrypt_utf8
    (CipherParams_toString (AES_encrypt m encryptionKey salt)) encryptionKey
  = Some m ->
  exists payload,
    ble_calls (world_of (sendMessage BleClient_resolves AES_encrypt deviceId m salt w))
    = ble_calls w
      ++ [Write deviceId SERVICE_UUID MESSAGE_CHARACTERISTIC_UUID payload]
    /\ (forall handler,
          notification_callback AES_decrypt_utf8 deviceId_rx handler payload
                                now date w_rx
          = try_catch
              (handler (ChatMessage.mk (Js.Number_toString now) deviceId_rx m
                                       date false true))
              (fun error =>
                 log_error "Failed to process received message:" error)
              (with_crypto_call
                 (Decrypt (CipherParams_toString (AES_encrypt m encryptionKey salt))
                          encryptionKey)
                 w_rx))
    /\ ChatInterface.messages
         (chat (world_of (notification_callback AES_decrypt_utf8 deviceId_rx
                            onMessage payload now date w_rx)))
       = ChatInterface.messages (chat w_rx)
         ++ [ChatMessage.mk (Js.Number_toString now) deviceId_rx m date false true].
Proof.
  intros Hhas Hlaw.
  exists (payload_of (CipherParams_toString (AES_encrypt m encryptionKey salt))).
  destruct (sendMessage_writes w deviceId m salt Hhas) as (Hcalls & _ & _).
  split; [exact Hcalls|].
  assert (Hcb : forall handler,
    notification_callback AES_decrypt_utf8 deviceId_rx handler
      (payload_of (CipherParams_toString (AES_encrypt m encryptionKey salt)))
      now date w_rx
    = try_catch
        (handler (ChatMessage.mk (Js.Number_toString now) deviceId_rx m
                                 date false true))
        (fun error => log_error "Failed to process received message:" error)
        (with_crypto_call
           (Decrypt (CipherParams_toString (AES_encrypt m encryptionKey salt))
                    encryptionKey)
           w_rx)).
  { intros handler. unfold notification_callback.
    rewrite wire_roundtrip_ascii by apply Base64_stringify_ascii.
    unfold decrypt. rewrite Hlaw. reflexivity. }
  split; [exact Hcb|].
  rewrite Hcb. reflexivity.
Qed.

Lemma notification_callback_creates (w : World) (deviceId : JsString)
  (value : DataView) (now date : Z) (message : ChatMessage.t) :
  In message
     (ChatInterface.messages
        (chat (world_of (notification_callback AES_decrypt_utf8 deviceId
                           onMessage value now date w)))) ->
  In message (ChatInterface.messages (chat w)) \/ created_at now message.
Proof.
  unfold notification_callback, onMessage. run_js.
  destruct (AES_decrypt_utf8 _ encryptionKey) as [text|]; cbn; [|auto].
  intros Hin. apply in_app_or in Hin as [Hin|[<-|[]]]; [auto|].
  right. constructor.
Qed.

Lemma handleSendMessage_creates (w : World) (device : ChatDevice.t) (salt : N)
  (now date : Z) (message : ChatMessage.t) :
  In message
     (ChatInterface.messages
        (chat (world_of (handleSendMessage BleClient_resolves AES_encrypt device
                           salt now date w)))) ->
  In message (ChatInterface.messages (chat w)) \/ created_at now message.
Proof.
  unfold handleSendMessage, sendMessage. run_js.
  destruct (Js.truthy _); cbn [negb]; [|auto].
  destruct (flagged _); cbn -[checkContentModeration]; [auto|].
  destruct (JsMap.has _ (connections w)); cbn [negb]; [|cbn; auto].
  cbn [ble_calls with_crypto_call with_chat].
  destruct (BleClient_resolves (ble_calls w) _); cbn; [|auto].
  intros Hin. apply in_app_or in Hin as [Hin|[<-|[]]]; [auto|].
  right. constructor.
Qed.

(** A message's id is the decimal text of the clock reading at which it is
    created and nothing else, so two messages (received or sent) have the
    same id exactly when they are created at the same reading. *)
Lemma created_ids_equal_iff_same_reading
  (now1 now2 : Z) (message1 message2 : ChatMessage.t) :
  created_at now1 message1 ->
  created_at now2 message2 ->
  (ChatMessage.id message1 = ChatMessage.id message2 <-> now1 = now2).
Proof.
  intros H1 H2.
  assert (E1 : ChatMessage.id message1 = Js.Number_toString now1)
    by (destruct H1; reflexivity).
  assert (E2 : ChatMessage.id message2 = Js.Number_toString now2)
    by (destruct H2; reflexivity).
  rewrite E1, E2. split; [apply Number_toString_inj | now intros ->].
Qed.

(** *** Cleanup *)

Lemma set_connected_same (device : ChatDevice.t) :
  ChatDevice.set_connected (ChatDevice.connected device) device = device.
Proof. now destruct device. Qed.

(** C5, as the code has it: with exactly two connected devices [a] and [b],
    [cleanup] calls the transport disconnect of each, in the order of the
    sessions, and never throws. A device whose disconnect resolves ends with
    no session and [connected = false]; a device whose disconnect rejects
    keeps its session and stays [connected = true]. *)
Theorem C5_cleanup_clears_the_devices_whose_disconnect_resolves
  (w : World) (a b : JsString) (session_a session_b : BleDevice.t)
  (device_a device_b : ChatDevice.t) :
  a <> b ->
  connections w = [(a, session_a); (b, session_b)] ->
  JsMap.get a (devices w) = Some device_a ->
  ChatDevice.connected device_a = true ->
  JsMap.get b (devices w) = Some device_b ->
  ChatDevice.connected device_b = true ->
  let r := cleanup BleClient_resolves w in
  let w' := world_of r in
  let resolved_a := BleClient_resolves (ble_calls w) (Disconnect a) in
  let resolved_b :=
    BleClient_resolves (ble_calls w ++ [Disconnect a]) (Disconnect b) in
  result_of r = Normal tt
  /\ ble_calls w' = ble_calls w ++ [Disconnect a; Disconnect b; StopLEScan]
  /\ JsMap.has a (connections w') = negb resolved_a
  /\ JsMap.has b (connections w') = negb resolved_b
  /\ JsMap.get a (devices w')
     = Some (ChatDevice.set_connected (negb resolved_a) device_a)
  /\ JsMap.get b (devices w')
     = Some (ChatDevice.set_connected (negb resolved_b) device_b).
Proof.
  intros Hab Hconn Hda Hca Hdb Hcb. cbv zeta.
  assert (Eab : Js.eqb a b = false) by now apply Js_eqb_neq.
  assert (Eba : Js.eqb b a = false) by (apply Js_eqb_neq; congruence).
  assert (Hba : b <> a) by congruence.
  assert (Sa : ChatDevice.set_connected true device_a = device_a)
    by (rewrite <- Hca; apply set_connected_same).
  assert (Sb : ChatDevice.set_connected true device_b = device_b)
    by (rewrite <- Hcb; apply set_connected_same).
  assert (Hkeys : JsMap.keys (connections w) = [a; b]) by now rewrite Hconn.
  assert (Ha0 : JsMap.has a (connections w) = true).
  { rewrite Hconn. unfold JsMap.has. cbn [JsMap.get]. now rewrite Js_eqb_refl. }
  rewrite cleanup_unfold, Hkeys.
  (* the first device *)
  rewrite cleanup_loop_cons, Ha0.
  destruct (disconnectFromDevice_spec w a) as (R1 & T1 & C1 & D1).
  destruct (disconnectFromDevice BleClient_resolves a w) as [r1 w1].
  unfold result_of, world_of in R1, T1, C1, D1. cbn [fst snd] in R1, T1, C1, D1.
  subst r1. rewrite Hconn in C1. rewrite Hda in D1.
  (* the second device *)
  rewrite cleanup_loop_cons.
  assert (Hb1 : JsMap.has b (connections w1) = true).
  { rewrite C1. destruct (BleClient_resolves (ble_calls w) (Disconnect a));
      unfold JsMap.has; cbn [JsMap.get JsMap.delete];
      rewrite ?Js_eqb_refl, ?Eab, ?Eba; cbn [JsMap.get];
      rewrite ?Js_eqb_refl, ?Eba; reflexivity. }
  rewrite Hb1.
  destruct (disconnectFromDevice_spec w1 b) as (R2 & T2 & C2 & D2).
  destruct (disconnectFromDevice BleClient_resolves b w1) as [r2 w2].
  unfold result_of, world_of in R2, T2, C2, D2. cbn [fst snd] in R2, T2, C2, D2.
  subst r2. rewrite T1 in T2, C2, D2.
  assert (Hdb1 : JsMap.get b (devices w1) = Some device_b).
  { rewrite D1. destruct (BleClient_resolves (ble_calls w) (Disconnect a));
      [rewrite get_set_other by assumption|]; exact Hdb. }
  rewrite Hdb1 in D2.
  (* the scan is stopped, whatever that call answers *)
  cbn [cleanup_loop]. change (ret tt w2) with (Normal tt, w2). cbn iota.
  assert (Hstop : exists w3,
            (stopScanning BleClient_resolves w2 = (Normal tt, w3))
            /\ devices w3 = devices w2 /\ connections w3 = connections w2
            /\ ble_calls w3 = ble_calls w2 ++ [StopLEScan]).
  { unfold stopScanning. run_js.
    destruct (BleClient_resolves (ble_calls w2) StopLEScan);
      eexists; repeat split. }
  destruct Hstop as (w3 & -> & D3 & C3 & T3).
  unfold result_of, world_of. cbn [fst snd devices connections ble_calls with_console].
  rewrite D3, C3, T3, T2, D2, C2, D1, C1.
  split; [reflexivity|].
  split; [now rewrite <- !app_assoc|].
  destruct (BleClient_resolves (ble_calls w) (Disconnect a));
    destruct (BleClient_resolves (ble_calls w ++ [Disconnect a]) (Disconnect b));
    cbn [negb]; unfold JsMap.has; cbn [JsMap.get JsMap.delete];
    rewrite ?Js_eqb_refl, ?Eab, ?Eba; cbn [JsMap.get JsMap.delete];
    rewrite ?Js_eqb_refl, ?Eab, ?Eba; cbn [JsMap.get JsMap.delete];
    rewrite ?get_set_same, ?(get_set_other _ b a) by assumption;
    rewrite ?get_set_same, ?(get_set_other _ a b) by assumption;
    rewrite ?get_set_same, ?Hda, ?Hdb;
    rewrite ?Sa, ?Sb;
    repeat split; reflexivity.
Qed.

End Properties.

(* ================================================================== *)
(** ** The claims on concrete runs *)

Import Scenario.

(** C1: the pairing of the flag with the session is kept by
    [connectToDevice], [disconnectFromDevice] and [cleanup], but a discovery
    callback breaks it: once B is connected, hearing B again stores a record
    with [connected = false] while B's session is still there. The state is
    reachable, has one record and one session for B, and is not paired. *)
Theorem C1_rediscovery_breaks_the_pairing :
  reachable always_resolves toy_encrypt toy_decrypt_utf8 rediscovered_B
  /\ paired connected_B
  /\ JsMap.keys (devices rediscovered_B) = [idB]
  /\ JsMap.has idB (connections rediscovered_B) = true
  /\ (exists device,
        JsMap.get idB (devices rediscovered_B) = Some device
        /\ ChatDevice.connected device = false)
  /\ ~ paired rediscovered_B.
Proof.
  split; [eexists; reflexivity|].
  split.
  { assert (Hd : devices connected_B = [(idB, deviceB)]) by reflexivity.
    assert (Hc : connections connected_B = [(idB, BleDevice.mk idB None)])
      by reflexivity.
    intros k d. rewrite Hd, Hc. unfold JsMap.has. cbn [JsMap.get].
    destruct (Js.eqb k idB); [|discriminate].
    intros [= <-]. cbn. tauto. }
  split; [reflexivity|].
  split; [reflexivity|].
  split; [eexists; split; reflexivity|].
  intros H.
  specialize (H idB _ eq_refl). cbn in H.
  destruct H as [_ H]. specialize (H eq_refl). discriminate.
Qed.

(** C2 on the failing input: B's record says [connected = true]; after one
    more discovery event for B it says [connected = false] (and carries the
    new time), although B's session is untouched. In general the record the
    callback stores always says [connected = false]. *)
Theorem C2_rediscovery_resets_connected :
  (exists device,
     JsMap.get idB (devices connected_B) = Some device
     /\ ChatDevice.connected device = true
     /\ ChatDevice.lastSeen device = 1000%Z)
  /\ (exists device,
        JsMap.get idB (devices (world_of (scan_callback advertB 2000 connected_B)))
        = Some device
        /\ ChatDevice.connected device = false
        /\ ChatDevice.lastSeen device = 2000%Z)
  /\ connections (world_of (scan_callback advertB 2000 connected_B))
     = connections connected_B
  /\ JsMap.has idB (connections connected_B) = true
  /\ (forall w result now,
        exists device,
          JsMap.get (BleDevice.deviceId (ScanResult.device result))
                    (devices (world_of (scan_callback result now w)))
          = Some device
          /\ ChatDevice.connected device = false).
Proof.
  split; [eexists; repeat split|].
  split; [eexists; repeat split|].
  split; [reflexivity|].
  split; [reflexivity|].
  intros w result now.
  destruct (scan_callback_stores_connected_false w result now)
    as (_ & device & Hget & _ & _ & Hc).
  exists device. split; assumption.
Qed.

(** C3 fails for [sendMessage] itself: with a live session, a text the gate
    flags is encrypted, written to the transport, and [true] is returned. *)
Lemma C3_sendMessage_transmits_flagged_text :
  let text := js "my ssn is 123-45-6789" in
  let r := sendMessage always_resolves toy_encrypt idB text 7 connected_B in
  JsMap.has idB (connections connected_B) = true
  /\ flagged (checkContentModeration text) = true
  /\ result_of r = Normal true
  /\ crypto_calls (world_of r)
     = crypto_calls connected_B ++ [Encrypt text encryptionKey]
  /\ ble_calls (world_of r)
     = ble_calls connected_B
       ++ [Write idB SERVICE_UUID MESSAGE_CHARACTERISTIC_UUID
                 (payload_of (Base64.stringify (toy_encrypt text encryptionKey 7)))].
Proof. cbv zeta. repeat split; vm_compute; reflexivity. Qed.

Lemma C3_handleSendMessage_witness :
  let text := js "my ssn is 123-45-6789" in
  let w := typed text connected_B in
  let w' :=
    world_of (handleSendMessage always_resolves toy_encrypt deviceB 7
                                1700000000000 1700000000000 w) in
  ChatInterface.moderationWarning (chat w') = Some sensitive_reason
  /\ crypto_calls w' = crypto_calls w
  /\ ble_calls w' = ble_calls w
  /\ result_of (sendMessage always_resolves toy_encrypt idB text 7 w)
     = Normal true.
Proof.
  cbv zeta.
  pose proof (C3_handleSendMessage_stops_flagged_text
                always_resolves toy_encrypt
                (typed (js "my ssn is 123-45-6789") connected_B)
                deviceB 7 1700000000000 1700000000000 eq_refl) as H.
  cbv zeta in H. destruct H as (_ & _ & Hw & Hc & Hb & _ & _ & _ & Hs).
  assert (Hwf : well_formed (js "my ssn is 123-45-6789")).
  { cbv. repeat (apply well_formed_unit; [reflexivity..|]).
    apply well_formed_nil. }
  destruct (Hs idB Hwf eq_refl) as (_ & _ & Hres).
  exact (conj Hw (conj Hc (conj Hb Hres))).
Defined.

(** C4 fails when the transport disconnect rejects: B keeps its session and
    its record stays [connected = true]. *)
Lemma C4_rejected_disconnect_keeps_the_session :
  let r := disconnectFromDevice (disconnect_rejects idB) idB connected_B in
  result_of r = Normal tt
  /\ JsMap.has idB (connections (world_of r)) = true
  /\ exists device,
       JsMap.get idB (devices (world_of r)) = Some device
       /\ ChatDevice.connected device = true.
Proof. cbv zeta. repeat split. eexists. split; reflexivity. Qed.

(** C5 fails when one of the two disconnects rejects: after [cleanup], A
    (whose disconnect rejected) keeps its session and stays connected, while
    B is cleared. *)
Lemma C5_cleanup_leaves_the_device_whose_disconnect_rejected :
  let r := cleanup (disconnect_rejects idA) connected_A_B in
  JsMap.keys (connections connected_A_B) = [idA; idB]
  /\ map ChatDevice.connected (JsMap.values (devices connected_A_B)) = [true; true]
  /\ result_of r = Normal tt
  /\ JsMap.keys (connections (world_of r)) = [idA]
  /\ map ChatDevice.connected (JsMap.values (devices (world_of r))) = [true; false].
Proof. cbv zeta. repeat split. Qed.

Lemma C5_cleanup_witness :
  let w' := world_of (cleanup (disconnect_rejects idA) connected_A_B) in
  JsMap.has idA (connections w') = true
  /\ JsMap.has idB (connections w') = false.
Proof.
  cbv zeta.
  pose proof (C5_cleanup_clears_the_devices_whose_disconnect_resolves
                (disconnect_rejects idA) connected_A_B idA idB
                (BleDevice.mk idA None) (BleDevice.mk idB None)
                (ChatDevice.mk idA (js "Alice") (-55) true 1000)
                (ChatDevice.mk idB (js "Device_E:FF") (-40) true 1001)
                ltac:(discriminate) eq_refl eq_refl eq_refl eq_refl eq_refl) as H.
  cbv zeta in H. destruct H as (_ & _ & Ha & Hb & _).
  exact (conj Ha Hb).
Defined.

Lemma C6_roundtrip_witness :
  exists payload,
    ble_calls (world_of (sendMessage always_resolves toy_encrypt idB (js "hi") 7
                                     connected_B))
    = ble_calls connected_B
      ++ [Write idB SERVICE_UUID MESSAGE_CHARACTERISTIC_UUID payload]
    /\ ChatInterface.messages
         (chat (world_of (notification_callback hi_decrypt_utf8 idA onMessage
                            payload 1700000000000 1700000000001 initial_world)))
       = [ChatMessage.mk (js "1700000000000") idA (js "hi") 1700000000001
                         false true].
Proof.
  destruct (C6_sent_payload_is_received_as_the_message
              always_resolves toy_encrypt hi_decrypt_utf8
              connected_B initial_world idB idA (js "hi") 7
              1700000000000 1700000000001 eq_refl eq_refl)
    as (payload & Hsent & _ & Hrecv).
  exists payload. split; [exact Hsent | exact Hrecv].
Defined.

Lemma C7_unknown_device_witness :
  let r := connectToDevice always_resolves idA connected_B in
  JsMap.get idA (devices connected_B) = None
  /\ result_of r = Normal false
  /\ devices (world_of r) = devices connected_B
  /\ connections (world_of r) = connections connected_B.
Proof.
  cbv zeta. split; [reflexivity|].
  pose proof (C7_connect_failure_changes_nothing
                always_resolves connected_B idA (or_introl eq_refl)) as H.
  cbv zeta in H. destruct H as (Hr & Hd & Hc & _).
  exact (conj Hr (conj Hd Hc)).
Defined.

(** C9 on the failing input: two notifications handled at one clock reading
    give two different messages with one id, and so do a notification and a
    message sent at that reading; the rendered list, keyed by the id, then
    has the same key twice. In general two messages created at the same
    reading always have the same id. *)
Theorem C9_same_clock_reading_repeats_the_message_id :
  let now := 1700000000000%Z in
  let received_twice :=
    run_ok [EvNotification idB [97%N] now now;
            EvNotification idB [98%N] now now] connected_B in
  let received_and_sent :=
    run_ok [EvNotification idB [97%N] now now;
            EvHandleSend deviceB 7 now now] (typed (js "yo") connected_B) in
  (exists message1 message2,
     ChatInterface.messages (chat received_twice) = [message1; message2]
     /\ message1 <> message2
     /\ ChatMessage.id message1 = ChatMessage.id message2)
  /\ ~ NoDup (message_keys (chat received_twice))
  /\ (exists message1 message2,
        ChatInterface.messages (chat received_and_sent) = [message1; message2]
        /\ ChatMessage.sent message1 = false
        /\ ChatMessage.sent message2 = true
        /\ ChatMessage.id message1 = ChatMessage.id message2)
  /\ ~ NoDup (message_keys (chat received_and_sent))
  /\ (forall reading message1 message2,
        created_at reading message1 ->
        created_at reading message2 ->
        ChatMessage.id message1 = ChatMessage.id message2).
Proof.
  cbv zeta.
  split.
  { do 2 eexists. split; [reflexivity|]. split; [discriminate|reflexivity]. }
  split.
  { intros H. vm_compute in H. apply NoDup_cons_iff in H as [H _].
    apply H. left. reflexivity. }
  split.
  { do 2 eexists. split; [reflexivity|]. repeat split. }
  split.
  { intros H. vm_compute in H. apply NoDup_cons_iff in H as [H _].
    apply H. left. reflexivity. }
  intros reading message1 message2 H1 H2.
  now apply (created_ids_equal_iff_same_reading reading reading message1 message2).
Qed.

(* ================================================================== *)
(** ** More about maps *)

Section MoreMapFacts.

Variable V : Type.
Implicit Types (m : JsMap.t V) (k : JsString) (v : V).

Lemma keys_set_present k v m :
  JsMap.has k m = true -> JsMap.keys (JsMap.set k v m) = JsMap.keys m.
Proof.
  unfold JsMap.has. induction m as [|[k' v'] m IH]; simpl; [discriminate|].
  destruct (Js_eqb_spec k k') as [->|Hk]; simpl; [reflexivity|].
  intros H. now rewrite IH.
Qed.

Lemma keys_set_absent k v m :
  JsMap.has k m = false -> JsMap.keys (JsMap.set k v m) = JsMap.keys m ++ [k].
Proof.
  unfold JsMap.has. induction m as [|[k' v'] m IH]; simpl; [reflexivity|].
  destruct (Js_eqb_spec k k') as [->|Hk]; simpl; [discriminate|].
  intros H. now rewrite IH.
Qed.

Lemma set_set k v1 v2 m : JsMap.set k v2 (JsMap.set k v1 m) = JsMap.set k v2 m.
Proof.
  induction m as [|[k' v'] m IH]; simpl.
  - now rewrite Js_eqb_refl.
  - destruct (Js.eqb k k') eqn:E; simpl.
    + now rewrite Js_eqb_refl.
    + now rewrite E, IH.
Qed.

Lemma delete_set_absent k v m :
  JsMap.has k m = false -> JsMap.delete k (JsMap.set k v m) = m.
Proof.
  unfold JsMap.has. induction m as [|[k' v'] m IH]; simpl.
  - now rewrite Js_eqb_refl.
  - destruct (Js.eqb k k') eqn:E; simpl; [discriminate|].
    intros H. now rewrite E, IH.
Qed.

Lemma in_set k v m k' v' :
  In (k', v') (JsMap.set k v m) -> (k', v') = (k, v) \/ In (k', v') m.
Proof.
  induction m as [|[k0 v0] m IH]; simpl.
  - intros [H|[]]. now left.
  - destruct (Js.eqb k k0); simpl; intros [H|H]; auto.
    destruct (IH H); auto.
Qed.

Lemma in_delete k m k' v' :
  In (k', v') (JsMap.delete k m) -> In (k', v') m.
Proof.
  induction m as [|[k0 v0] m IH]; simpl; [tauto|].
  destruct (Js.eqb k k0); simpl; intuition auto.
Qed.

Lemma has_in_keys k m : JsMap.has k m = true <-> In k (JsMap.keys m).
Proof.
  unfold JsMap.has. split.
  - destruct (JsMap.get k m) eqn:E; [|discriminate].
    intros _. exact (get_in_keys V k v m E).
  - intros Hin. destruct (JsMap.get k m) eqn:E; [reflexivity|].
    apply get_none_not_in in E. contradiction.
Qed.

(** A map none of whose keys is present is empty. *)
Lemma no_key_empty m : (forall k, JsMap.has k m = false) -> m = [].
Proof.
  destruct m as [|[k v] m]; [reflexivity|].
  intros H. specialize (H k). unfold JsMap.has in H. simpl in H.
  rewrite Js_eqb_refl in H. discriminate.
Qed.

Lemma get_in k v m : JsMap.get k m = Some v -> In (k, v) m.
Proof.
  induction m as [|[k0 v0] m IH]; simpl; [discriminate|].
  destruct (Js_eqb_spec k k0) as [->|Hk]; [intros [= ->]; now left|auto].
Qed.

Lemma in_get k v m : NoDup (JsMap.keys m) -> In (k, v) m -> JsMap.get k m = Some v.
Proof.
  induction m as [|[k0 v0] m IH]; simpl; [tauto|].
  intros Hnd [H|H].
  - injection H as -> ->. now rewrite Js_eqb_refl.
  - inversion Hnd as [|? ? Hnotin Hnd']; subst.
    destruct (Js_eqb_spec k k0) as [->|Hk]; [|auto].
    exfalso. apply Hnotin. change k0 with (fst (k0, v)). now apply in_map.
Qed.

End MoreMapFacts.

(* ================================================================== *)
(** ** More about the service's methods *)

Section MoreProperties.

Variable BleClient_resolves : list BleCall -> BleCall -> bool.
Variable AES_encrypt : JsString -> JsString -> N -> list N.
Variable AES_decrypt_utf8 : JsString -> JsString -> option JsString.

#[local] Set Default Proof Using "Type".

(** X5: A successful [connectToDevice]: for a known device whose transport
    connect and service discovery resolve, it returns [true], creates the
    session, marks the record connected keeping its other fields and its
    place in the registry, touches no other device, and has made exactly
    the two transport calls. *)
Theorem connectToDevice_success (w : World) (deviceId : JsString)
  (device : ChatDevice.t) :
  JsMap.get deviceId (devices w) = Some device ->
  BleClient_resolves (ble_calls w) (Connect deviceId) = true ->
  BleClient_resolves (ble_calls w ++ [Connect deviceId]) (GetServices deviceId)
  = true ->
  let r := connectToDevice BleClient_resolves deviceId w in
  let w' := world_of r in
  result_of r = Normal true
  /\ JsMap.get deviceId (connections w') = Some (BleDevice.mk deviceId None)
  /\ JsMap.get deviceId (devices w')
     = Some (ChatDevice.mk (ChatDevice.id device) (ChatDevice.name device)
                           (ChatDevice.rssi device) true
                           (ChatDevice.lastSeen device))
  /\ JsMap.keys (devices w') = JsMap.keys (devices w)
  /\ (forall other,
        other <> deviceId ->
        JsMap.get other (devices w') = JsMap.get other (devices w)
        /\ JsMap.get other (connections w') = JsMap.get other (connections w))
  /\ ble_calls w' = ble_calls w ++ [Connect deviceId; GetServices deviceId].
Proof.
  intros Hget Hc Hs. cbv zeta. unfold connectToDevice. run_js.
  rewrite Hget, Hc. cbn [ble_calls with_ble_call]. rewrite Hs.
  cbn [fst snd devices connections ble_calls with_devices with_connections
       with_console with_ble_call].
  split; [reflexivity|].
  split; [apply get_set_same|].
  split; [apply get_set_same|].
  split; [apply keys_set_present; unfold JsMap.has; now rewrite Hget|].
  split; [|now rewrite <- app_assoc].
  intros other Hne. split; now apply get_set_other.
Qed.

(** X6: [disconnectFromDevice] touches one device only: every other record and
    session is as before, the registry keeps its order, and the record of the
    device keeps its id, name, signal strength and time. *)
Theorem disconnectFromDevice_touches_one_device (w : World) (deviceId : JsString) :
  let w' := world_of (disconnectFromDevice BleClient_resolves deviceId w) in
  JsMap.keys (devices w') = JsMap.keys (devices w)
  /\ (forall other,
        other <> deviceId ->
        JsMap.get other (devices w') = JsMap.get other (devices w)
        /\ JsMap.get other (connections w') = JsMap.get other (connections w))
  /\ match JsMap.get deviceId (devices w), JsMap.get deviceId (devices w') with
     | Some device, Some device' =>
         ChatDevice.id device' = ChatDevice.id device
         /\ ChatDevice.name device' = ChatDevice.name device
         /\ ChatDevice.rssi device' = ChatDevice.rssi device
         /\ ChatDevice.lastSeen device' = ChatDevice.lastSeen device
     | None, None => True
     | _, _ => False
     end.
Proof.
  cbv zeta.
  destruct (disconnectFromDevice_spec BleClient_resolves w deviceId)
    as (_ & _ & -> & ->).
  destruct (BleClient_resolves (ble_calls w) (Disconnect deviceId)).
  - destruct (JsMap.get deviceId (devices w)) as [device|] eqn:Hget.
    + rewrite get_set_same. cbn.
      split; [apply keys_set_present; unfold JsMap.has; now rewrite Hget|].
      split; [|repeat split].
      intros other Hne. split;
        [now apply get_set_other | now apply get_delete_other].
    + rewrite Hget. split; [reflexivity|]. split; [|exact I].
      intros other Hne. split; [reflexivity | now apply get_delete_other].
  - destruct (JsMap.get deviceId (devices w)); repeat split.
Qed.

(** X7: Connecting a device that was not connected and disconnecting it again
    (all three transport calls resolving) gives back the registry and the
    sessions exactly as they were. *)
Theorem connect_then_disconnect_restores (w : World) (deviceId : JsString)
  (device : ChatDevice.t) :
  JsMap.get deviceId (devices w) = Some device ->
  ChatDevice.connected device = false ->
  JsMap.has deviceId (connections w) = false ->
  BleClient_resolves (ble_calls w) (Connect deviceId) = true ->
  BleClient_resolves (ble_calls w ++ [Connect deviceId]) (GetServices deviceId)
  = true ->
  BleClient_resolves (ble_calls w ++ [Connect deviceId; GetServices deviceId])
                     (Disconnect deviceId) = true ->
  let w1 := world_of (connectToDevice BleClient_resolves deviceId w) in
  let w2 := world_of (disconnectFromDevice BleClient_resolves deviceId w1) in
  JsMap.has deviceId (connections w1) = true
  /\ devices w2 = devices w
  /\ connections w2 = connections w.
Proof.
  intros Hget Hflag Hno Hc Hs Hd. cbv zeta.
  destruct (connectToDevice_cases BleClient_resolves w deviceId)
    as [[Hfalse _] | (device0 & _ & Hget0 & Hdev & Hconn)].
  { exfalso. revert Hfalse. unfold connectToDevice. run_js.
    rewrite Hget, Hc. cbn [ble_calls with_ble_call]. rewrite Hs. discriminate. }
  assert (device0 = device) by congruence. subst device0.
  assert (Hcalls : ble_calls (world_of (connectToDevice BleClient_resolves deviceId w))
                   = ble_calls w ++ [Connect deviceId; GetServices deviceId]).
  { unfold connectToDevice. run_js.
    rewrite Hget, Hc. cbn [ble_calls with_ble_call]. rewrite Hs.
    cbn. now rewrite <- app_assoc. }
  destruct (disconnectFromDevice_spec BleClient_resolves
              (world_of (connectToDevice BleClient_resolves deviceId w)) deviceId)
    as (_ & _ & -> & ->).
  rewrite Hcalls, Hd, Hdev, Hconn, get_set_same, set_set.
  split; [apply has_set_same|]. split.
  - apply set_same_value. rewrite Hget. f_equal.
    destruct device; simpl in Hflag |- *; now subst.
  - now apply delete_set_absent.
Qed.

(** X8: Connecting a device that already has its session (as the handle
    [{ deviceId }]) never adds a session: whatever the transport answers, the
    sessions are exactly as before. *)
Theorem reconnect_keeps_the_sessions (w : World) (deviceId : JsString) :
  JsMap.get deviceId (connections w) = Some (BleDevice.mk deviceId None) ->
  connections (world_of (connectToDevice BleClient_resolves deviceId w))
  = connections w.
Proof.
  intros Hsession.
  destruct (connectToDevice_cases BleClient_resolves w deviceId)
    as [[_ [_ Hsame]] | (device & _ & _ & _ & Hconn)]; [exact Hsame|].
  rewrite Hconn. now apply set_same_value.
Qed.

(** X9: [sendMessage] to a device without a session returns [false] at once:
    nothing is encrypted, the transport is not called, and the error
    'Device not connected' is logged. *)
Theorem sendMessage_without_session (w : World) (deviceId message : JsString)
  (salt : N) :
  JsMap.has deviceId (connections w) = false ->
  let r := sendMessage BleClient_resolves AES_encrypt deviceId message salt w in
  result_of r = Normal false
  /\ crypto_calls (world_of r) = crypto_calls w
  /\ ble_calls (world_of r) = ble_calls w
  /\ console (world_of r)
     = console w ++ [console_error (js "Failed to send message:")
                                   (Error (js "Device not connected"))].
Proof.
  intros Hno. cbv zeta. unfold sendMessage. run_js. rewrite Hno.
  repeat split.
Qed.

Lemma Base64_stringify_text (bytes : list N) : is_base64_text (Base64.stringify bytes).
Proof.
  assert (Hchar : forall v, In (Base64.char v) (Base64.padding :: Base64.alphabet)).
  { intros v. unfold Base64.char.
    destruct (nth_in_or_default (N.to_nat (N.land v 63)) Base64.alphabet
                                Base64.padding) as [Hin | ->];
      [right; exact Hin | left; reflexivity]. }
  assert (Hpad : In Base64.padding (Base64.padding :: Base64.alphabet))
    by (left; reflexivity).
  unfold is_base64_text.
  assert (H : forall n bytes0, (List.length bytes0 <= n)%nat ->
                Forall (fun c => In c (Base64.padding :: Base64.alphabet))
                       (Base64.stringify bytes0)).
  { induction n as [|n IH];
      intros [|a [|b [|c rest]]] Hlen; cbn [Base64.stringify];
      simpl in Hlen; try lia;
      repeat (first [apply Forall_nil | apply Forall_cons; [first [apply Hchar | exact Hpad]|]]).
    cbn [app]. 
    repeat (apply Forall_cons; [apply Hchar|]). apply IH. lia. }
  exact (H (List.length bytes) bytes (Nat.le_refl _)).
Qed.

Lemma Base64_stringify_length (bytes : list N) :
  List.length (Base64.stringify bytes) = (4 * ((List.length bytes + 2) / 3))%nat.
Proof.
  assert (H : forall n bytes0, (List.length bytes0 <= n)%nat ->
                List.length (Base64.stringify bytes0)
                = (4 * ((List.length bytes0 + 2) / 3))%nat).
  { induction n as [|n IH];
      intros [|a [|b [|c rest]]] Hlen; simpl in Hlen; try lia;
      try reflexivity.
    cbn [Base64.stringify app List.length]. rewrite IH by lia.
    replace (S (S (S (List.length rest))) + 2)%nat
      with ((List.length rest + 2) + 1 * 3)%nat by lia.
    rewrite Nat.div_add by lia. lia. }
  exact (H (List.length bytes) bytes (Nat.le_refl _)).
Qed.

(** X10: [sendMessage] of a text without unpaired surrogates to a device with
    a session encrypts once and writes once to the message characteristic; it
    returns whether the write resolved. The bytes written are the Base64 text
    of the ciphertext, one byte per character, four characters for every
    three ciphertext bytes. *)
Theorem sendMessage_writes_base64 (w : World) (deviceId message : JsString)
  (salt : N) :
  well_formed message ->
  JsMap.has deviceId (connections w) = true ->
  let r := sendMessage BleClient_resolves AES_encrypt deviceId message salt w in
  let cipher := AES_encrypt message encryptionKey salt in
  exists payload,
    ble_calls (world_of r)
    = ble_calls w
      ++ [Write deviceId SERVICE_UUID MESSAGE_CHARACTERISTIC_UUID payload]
    /\ crypto_calls (world_of r)
       = crypto_calls w ++ [Encrypt message encryptionKey]
    /\ result_of r
       = Normal (BleClient_resolves (ble_calls w)
                   (Write deviceId SERVICE_UUID MESSAGE_CHARACTERISTIC_UUID
                          payload))
    /\ payload = Base64.stringify cipher
    /\ is_base64_text payload
    /\ List.length payload = (4 * ((List.length cipher + 2) / 3))%nat.
Proof.
  intros _ Hhas. cbv zeta.
  destruct (sendMessage_writes BleClient_resolves AES_encrypt w deviceId message
                               salt Hhas) as (Hb & Hc & Hr).
  eexists. split; [exact Hb|]. split; [exact Hc|]. split; [exact Hr|].
  assert (E : payload_of (CipherParams_toString
                            (AES_encrypt message encryptionKey salt))
              = Base64.stringify (AES_encrypt message encryptionKey salt)).
  { unfold payload_of, numbersToDataView, CipherParams_toString.
    rewrite encode_ascii by apply Base64_stringify_ascii.
    apply Uint8Array_from_ascii, Base64_stringify_ascii. }
  rewrite E. split; [reflexivity|].
  split; [apply Base64_stringify_text | apply Base64_stringify_length].
Qed.

(** X12: A notification whose text does not decrypt is dropped: whatever the
    handler, it is not called; the failure is logged and the callback
    returns normally. *)
Theorem notification_callback_drops_undecryptable
  (w : World) (deviceId : JsString) (value : DataView) (now date : Z) :
  AES_decrypt_utf8 (Utf8.decode (Uint8Array_from (dataViewToNumbers value)))
                   encryptionKey = None ->
  forall handler,
    notification_callback AES_decrypt_utf8 deviceId handler value now date w
    = (Normal tt,
       with_console
         (console_error (js "Failed to process received message:") MalformedUtf8)
         (with_crypto_call
            (Decrypt (Utf8.decode (Uint8Array_from (dataViewToNumbers value)))
                     encryptionKey) w)).
Proof.
  intros Hnone handler. unfold notification_callback. run_js.
  now rewrite Hnone.
Qed.

Lemma handleSendMessage_returns (w : World) (device : ChatDevice.t) (salt : N)
  (now date : Z) :
  result_of (handleSendMessage BleClient_resolves AES_encrypt device salt now
                               date w) = Normal tt.
Proof.
  unfold handleSendMessage, sendMessage. run_js.
  destruct (Js.truthy _); cbn [negb]; [|reflexivity].
  destruct (flagged _); cbn -[checkContentModeration]; [reflexivity|].
  destruct (JsMap.has _ (connections w)); cbn [negb]; [|reflexivity].
  cbn [ble_calls with_crypto_call with_chat].
  destruct (BleClient_resolves (ble_calls w) _); reflexivity.
Qed.

(** X13: Which methods can throw: [initialize] and [startScanning] throw exactly
    when their transport call rejects (with that rejection), and
    [startScanning] otherwise returns the registry's records; every other
    method and callback returns normally on every input, whatever the
    transport, the cipher or the message handler do. *)
Theorem only_initialize_and_startScanning_throw (w : World) :
  result_of (initialize BleClient_resolves w)
  = (if BleClient_resolves (ble_calls w) Initialize
     then Normal tt else Throw (Rejected Initialize))
  /\ result_of (startScanning BleClient_resolves w)
     = (if BleClient_resolves (ble_calls w) (RequestLEScan [SERVICE_UUID])
        then Normal (getAllDevices w)
        else Throw (Rejected (RequestLEScan [SERVICE_UUID])))
  /\ result_of (stopScanning BleClient_resolves w) = Normal tt
  /\ (forall deviceId,
        exists b,
          result_of (connectToDevice BleClient_resolves deviceId w) = Normal b)
  /\ (forall deviceId,
        result_of (disconnectFromDevice BleClient_resolves deviceId w) = Normal tt)
  /\ (forall deviceId message salt,
        exists b,
          result_of (sendMessage BleClient_resolves AES_encrypt deviceId message
                                 salt w) = Normal b)
  /\ (forall deviceId,
        result_of (startMessageListener BleClient_resolves deviceId w) = Normal tt)
  /\ (forall deviceId handler value now date,
        result_of (notification_callback AES_decrypt_utf8 deviceId handler value
                                         now date w) = Normal tt)
  /\ result_of (cleanup BleClient_resolves w) = Normal tt
  /\ (forall device salt now date,
        result_of (handleSendMessage BleClient_resolves AES_encrypt device salt
                                     now date w) = Normal tt).
Proof.
  split.
  { unfold initialize. run_js.
    destruct (BleClient_resolves (ble_calls w) Initialize); reflexivity. }
  split.
  { unfold startScanning, getAllDevices. run_js.
    destruct (BleClient_resolves (ble_calls w) _); reflexivity. }
  split; [apply stopScanning_spec|].
  split.
  { intros deviceId.
    destruct (connectToDevice_cases BleClient_resolves w deviceId)
      as [[H _] | (device & H & _)]; eexists; exact H. }
  split; [intros deviceId; apply disconnectFromDevice_spec|].
  split; [intros deviceId message salt; apply sendMessage_spec|].
  split.
  { intros deviceId. unfold startMessageListener. run_js.
    destruct (BleClient_resolves (ble_calls w) _); reflexivity. }
  split.
  { intros deviceId handler value now date.
    unfold notification_callback. run_js.
    destruct (AES_decrypt_utf8 _ encryptionKey) as [text|]; [|reflexivity].
    destruct (handler _ _) as [[[]|e] w']; reflexivity. }
  split; [apply cleanup_spec|].
  intros device salt now date. apply handleSendMessage_returns.
Qed.

(** *** Cleanup over any number of devices *)

Lemma stopScanning_calls (w : World) :
  ble_calls (world_of (stopScanning BleClient_resolves w))
  = ble_calls w ++ [StopLEScan].
Proof.
  unfold stopScanning. run_js.
  destruct (BleClient_resolves (ble_calls w) StopLEScan); reflexivity.
Qed.

Lemma cleanup_loop_visits (ids : list JsString) :
  forall w,
    NoDup ids ->
    (forall k, In k ids -> JsMap.has k (connections w) = true) ->
    ble_calls (world_of (cleanup_loop BleClient_resolves ids w))
    = ble_calls w ++ map Disconnect ids.
Proof.
  induction ids as [|deviceId rest IH]; intros w Hnd Hall.
  - cbn. now rewrite app_nil_r.
  - rewrite cleanup_loop_cons, (Hall deviceId (or_introl eq_refl)).
    inversion Hnd as [|? ? Hnotin Hnd']; subst.
    destruct (disconnectFromDevice_spec BleClient_resolves w deviceId)
      as (R & T & C & _).
    destruct (disconnectFromDevice BleClient_resolves deviceId w) as [r w1].
    unfold result_of, world_of in R, T, C. cbn [fst snd] in R, T, C. subst r.
    rewrite IH; [rewrite T; cbn [map]; now rewrite <- app_assoc | exact Hnd' |].
    intros k Hk. rewrite C.
    destruct (BleClient_resolves (ble_calls w) (Disconnect deviceId));
      [|now apply Hall; right].
    rewrite has_delete_other; [now apply Hall; right|].
    intros ->. contradiction.
Qed.

(** X14: [cleanup] calls the transport disconnect once for every session, in the
    order in which the sessions were created, whatever these calls answer,
    and then stops the scan. *)
Theorem cleanup_disconnects_every_session_once (w : World) :
  NoDup (JsMap.keys (connections w)) ->
  ble_calls (world_of (cleanup BleClient_resolves w))
  = ble_calls w ++ map Disconnect (JsMap.keys (connections w)) ++ [StopLEScan].
Proof.
  intros Hnd. rewrite cleanup_unfold.
  pose proof (cleanup_loop_visits (JsMap.keys (connections w)) w Hnd
                (fun k Hk => proj2 (has_in_keys _ k (connections w)) Hk)) as Hcalls.
  destruct (cleanup_loop_spec BleClient_resolves (JsMap.keys (connections w)) w)
    as [R _].
  destruct (cleanup_loop BleClient_resolves (JsMap.keys (connections w)) w)
    as [r w1].
  unfold result_of, world_of in R, Hcalls. cbn [fst snd] in R, Hcalls. subst r.
  pose proof (stopScanning_calls w1) as Hstop.
  destruct (stopScanning_spec BleClient_resolves w1) as [R2 _].
  destruct (stopScanning BleClient_resolves w1) as [r2 w2].
  unfold result_of, world_of in R2, Hstop. cbn [fst snd] in R2, Hstop. subst r2.
  unfold world_of. cbn [snd ble_calls with_console].
  now rewrite Hstop, Hcalls, <- app_assoc.
Qed.

Lemma disconnectFromDevice_keys (w : World) (deviceId : JsString) :
  JsMap.keys (devices (world_of (disconnectFromDevice BleClient_resolves deviceId w)))
  = JsMap.keys (devices w).
Proof.
  destruct (disconnectFromDevice_spec BleClient_resolves w deviceId)
    as (_ & _ & _ & ->).
  destruct (BleClient_resolves (ble_calls w) (Disconnect deviceId)); [|reflexivity].
  destruct (JsMap.get deviceId (devices w)) eqn:Hget; [|reflexivity].
  apply keys_set_present. unfold JsMap.has. now rewrite Hget.
Qed.

Section AllDisconnectsResolve.

Hypothesis disconnect_resolves :
  forall calls deviceId, BleClient_resolves calls (Disconnect deviceId) = true.

Lemma cleanup_loop_clears (ids : list JsString) :
  forall w,
    NoDup ids ->
    (forall k, In k ids -> JsMap.has k (connections w) = true) ->
    let w' := world_of (cleanup_loop BleClient_resolves ids w) in
    (forall k, In k ids -> JsMap.has k (connections w') = false)
    /\ (forall k, ~ In k ids ->
          JsMap.get k (connections w') = JsMap.get k (connections w)
          /\ JsMap.get k (devices w') = JsMap.get k (devices w))
    /\ (forall k device,
          In k ids -> JsMap.get k (devices w') = Some device ->
          ChatDevice.connected device = false).
Proof using disconnect_resolves.
  induction ids as [|deviceId rest IH]; intros w Hnd Hall; cbv zeta.
  - cbn. split; [intros k []|]. split; [intros k _; split; reflexivity | intros k device []].
  - rewrite cleanup_loop_cons, (Hall deviceId (or_introl eq_refl)).
    inversion Hnd as [|? ? Hnotin Hnd']; subst.
    destruct (disconnectFromDevice_spec BleClient_resolves w deviceId)
      as (R & _ & C & D).
    rewrite disconnect_resolves in C, D.
    destruct (disconnectFromDevice BleClient_resolves deviceId w) as [r w1].
    unfold result_of, world_of in R, C, D. cbn [fst snd] in R, C, D. subst r.
    assert (Hall1 : forall k, In k rest -> JsMap.has k (connections w1) = true).
    { intros k Hk. rewrite C, has_delete_other; [now apply Hall; right|].
      intros ->. contradiction. }
    destruct (IH w1 Hnd' Hall1) as (Hin & Hout & Hflag).
    assert (Hdev1 : forall k, k <> deviceId ->
                      JsMap.get k (devices w1) = JsMap.get k (devices w)).
    { intros k Hk. rewrite D. destruct (JsMap.get deviceId (devices w));
        [now apply get_set_other | reflexivity]. }
    split; [|split].
    + intros k [<-|Hk]; [|now apply Hin].
      destruct (Hout deviceId Hnotin) as [Hc _].
      unfold JsMap.has. rewrite Hc, C, get_delete_same. reflexivity.
    + intros k Hk.
      assert (Hne : k <> deviceId) by (intros ->; apply Hk; now left).
      assert (Hrest : ~ In k rest) by (intros H; apply Hk; now right).
      destruct (Hout k Hrest) as [Hc Hd]. split.
      * rewrite Hc, C. now apply get_delete_other.
      * rewrite Hd. now apply Hdev1.
    + intros k device [<-|Hk]; [|now apply Hflag].
      destruct (Hout deviceId Hnotin) as [_ Hd]. rewrite Hd, D.
      destruct (JsMap.get deviceId (devices w)) as [device0|] eqn:Hget.
      * rewrite get_set_same. now intros [= <-].
      * rewrite Hget. discriminate.
Qed.

(** X15: When the transport's disconnects resolve, [cleanup] leaves no session
    and no record marked connected, keeps every record in the registry, and
    after it [sendMessage] to any device returns [false]. *)
Theorem cleanup_clears_every_session (w : World) :
  unique_ids w ->
  connected_have_sessions w ->
  let w' := world_of (cleanup BleClient_resolves w) in
  connections w' = []
  /\ getConnectedDevices w' = []
  /\ JsMap.keys (devices w') = JsMap.keys (devices w)
  /\ (forall deviceId message salt,
        result_of (sendMessage BleClient_resolves AES_encrypt deviceId message
                               salt w') = Normal false).
Proof using disconnect_resolves AES_encrypt.
  intros Hu Hc. cbv zeta.
  assert (Hu' : unique_ids (world_of (cleanup BleClient_resolves w))).
  { destruct (cleanup_spec BleClient_resolves w) as [_ HP]. apply HP;
      [exact unique_ids_service
      |intros d w0; apply disconnectFromDevice_unique_ids
      |exact Hu]. }
  assert (Hkeys : JsMap.keys (devices (world_of (cleanup BleClient_resolves w)))
                  = JsMap.keys (devices w)).
  { destruct (cleanup_spec BleClient_resolves w) as [_ HP].
    apply (HP (fun w0 => JsMap.keys (devices w0) = JsMap.keys (devices w))).
    - intros w1 w2 [-> _]. auto.
    - intros d w0 H.
      now rewrite disconnectFromDevice_keys.
    - reflexivity. }
  revert Hu' Hkeys. rewrite cleanup_unfold.
  destruct Hu as [Hud Huc].
  pose proof (cleanup_loop_clears (JsMap.keys (connections w)) w Huc
                (fun k Hk => proj2 (has_in_keys _ k (connections w)) Hk))
    as (Hin & Hout & Hflag).
  destruct (cleanup_loop_spec BleClient_resolves (JsMap.keys (connections w)) w)
    as [R _].
  destruct (cleanup_loop BleClient_resolves (JsMap.keys (connections w)) w)
    as [r w1].
  unfold result_of, world_of in R, Hin, Hout, Hflag.
  cbn [fst snd] in R, Hin, Hout, Hflag. subst r.
  destruct (stopScanning_spec BleClient_resolves w1) as [R2 [D2 C2]].
  destruct (stopScanning BleClient_resolves w1) as [r2 w2].
  unfold result_of, world_of in R2, D2, C2. cbn [fst snd] in R2, D2, C2. subst r2.
  unfold world_of, getConnectedDevices.
  cbn [snd devices connections with_console]. rewrite D2, C2.
  intros [Hud' _] Hkeys. cbn [devices with_console] in Hud'.
  rewrite D2 in Hud'.
  assert (Hempty : connections w1 = []).
  { apply no_key_empty. intros k.
    destruct (JsMap.has k (connections w)) eqn:Hk.
    - apply Hin. now apply has_in_keys.
    - assert (Hnot : ~ In k (JsMap.keys (connections w)))
        by (rewrite <- has_in_keys; congruence).
      destruct (Hout k Hnot) as [Hck _].
      unfold JsMap.has in Hk |- *. now rewrite Hck. }
  split; [exact Hempty|]. split; [|split; [exact Hkeys|]].
  - assert (Hall : forall k device, In (k, device) (devices w1) ->
                     ChatDevice.connected device = false).
    { intros k device Hind. apply (in_get _ k device _ Hud') in Hind.
      destruct (JsMap.has k (connections w)) eqn:Hk.
      - apply (Hflag k); [now apply has_in_keys | exact Hind].
      - assert (Hnot : ~ In k (JsMap.keys (connections w)))
          by (rewrite <- has_in_keys; congruence).
        destruct (Hout k Hnot) as [_ Hdk]. rewrite Hdk in Hind.
        destruct (ChatDevice.connected device) eqn:Hflagged; [|reflexivity].
        rewrite (Hc k device Hind Hflagged) in Hk. discriminate. }
    unfold JsMap.values. clear - Hall.
    induction (devices w1) as [|[k device] m IH]; [reflexivity|].
    cbn [map snd filter]. rewrite (Hall k device (or_introl eq_refl)).
    apply IH. intros k' d' H. apply (Hall k' d'). now right.
  - intros deviceId message salt. unfold sendMessage. run_js.
    rewrite C2, Hempty. reflexivity.
Qed.

End AllDisconnectsResolve.

(** *** Discovery *)

Lemma scan_callback_name_nonempty (result : ScanResult.t) (fallback : JsString) :
  fallback <> [] ->
  match BleDevice.name (ScanResult.device result) with
  | Some n => if Js.truthy n then n else fallback
  | None => fallback
  end <> [].
Proof.
  intros Hf. destruct (BleDevice.name (ScanResult.device result)) as [[|c n]|];
    cbn; congruence.
Qed.

(** X16: The discovery callback is an upsert on the registry: afterwards the
    device's id maps to the advertised data, every other record is as
    before, and the registry has the same ids in the same order, with the
    new id added at the end if it was unknown. Nothing else changes. *)
Theorem scan_callback_upserts (w : World) (result : ScanResult.t) (now : Z) :
  let deviceId := BleDevice.deviceId (ScanResult.device result) in
  let w' := world_of (scan_callback result now w) in
  (exists device,
     JsMap.get deviceId (devices w') = Some device
     /\ ChatDevice.id device = deviceId
     /\ ChatDevice.rssi device = ScanResult.rssi result
     /\ ChatDevice.lastSeen device = now
     /\ ChatDevice.name device <> []
     /\ (forall n,
           BleDevice.name (ScanResult.device result) = Some n -> n <> [] ->
           ChatDevice.name device = n))
  /\ (forall other,
        other <> deviceId ->
        JsMap.get other (devices w') = JsMap.get other (devices w))
  /\ JsMap.keys (devices w')
     = (if JsMap.has deviceId (devices w)
        then JsMap.keys (devices w)
        else JsMap.keys (devices w) ++ [deviceId])
  /\ connections w' = connections w
  /\ ble_calls w' = ble_calls w
  /\ chat w' = chat w.
Proof.
  cbv zeta. unfold scan_callback. run_js.
  cbn [ChatDevice.id].
  split.
  { eexists. split; [apply get_set_same|]. cbn. repeat split.
    - apply scan_callback_name_nonempty. discriminate.
    - intros n -> Hn. destruct n; [congruence|reflexivity]. }
  split; [intros other Hne; now apply get_set_other|].
  split; [|repeat split].
  destruct (JsMap.has _ (devices w)) eqn:Hhas;
    [now apply keys_set_present | now apply keys_set_absent].
Qed.

(** X17: An unnamed device is listed as "Device_" followed by the last four code
    units of its id, or by the whole id when that is shorter. *)
Theorem scan_callback_names_unnamed_devices (w : World) (deviceId : JsString)
  (rssi now : Z) (advertised : option JsString) :
  advertised = None \/ advertised = Some [] ->
  exists device,
    JsMap.get deviceId
      (devices (world_of (scan_callback
                            (ScanResult.mk (BleDevice.mk deviceId advertised) rssi)
                            now w)))
    = Some device
    /\ ChatDevice.name device
       = js "Device_" ++ skipn (List.length deviceId - 4) deviceId
    /\ List.length (ChatDevice.name device)
       = (7 + Nat.min 4 (List.length deviceId))%nat
    /\ (forall tail front,
          deviceId = front ++ tail -> List.length tail = 4%nat ->
          ChatDevice.name device = js "Device_" ++ tail).
Proof.
  intros Hadv. unfold scan_callback. run_js. cbn [ChatDevice.id ScanResult.device
    BleDevice.deviceId BleDevice.name ScanResult.rssi].
  eexists. split; [apply get_set_same|]. cbn [ChatDevice.name].
  assert (E : match advertised with
              | Some n => if Js.truthy n
                          then n
                          else Js.concat (js "Device_") (Js.slice_last 4 deviceId)
              | None => Js.concat (js "Device_") (Js.slice_last 4 deviceId)
              end = js "Device_" ++ skipn (List.length deviceId - 4) deviceId)
    by (destruct Hadv as [-> | ->]; reflexivity).
  rewrite E. split; [reflexivity|]. split.
  - rewrite length_app, length_skipn. cbn [js List.length map list_ascii_of_string].
    lia.
  - intros tail front -> Hlen. f_equal.
    rewrite length_app, Hlen.
    replace (List.length front + 4 - 4)%nat with (List.length front + 0)%nat by lia.
    now rewrite skipn_app, Nat.add_0_r, skipn_all, Nat.sub_diag.
Qed.

(** *** More invariants *)

Lemma records_keyed_service (w w' : World) :
  same_service w w' -> records_keyed w -> records_keyed w'.
Proof. unfold records_keyed. intros [-> ->]. auto. Qed.

Lemma sessions_known_service (w w' : World) :
  same_service w w' -> sessions_known w -> sessions_known w'.
Proof. unfold sessions_known. intros [-> ->]. auto. Qed.

Lemma named_service (w w' : World) : same_service w w' -> named w -> named w'.
Proof. unfold named. intros [-> _]. auto. Qed.

Lemma well_kept_service (w w' : World) :
  same_service w w' -> well_kept w -> well_kept w'.
Proof.
  intros Hs (Hk & Hs' & Hn).
  repeat split; eauto using sessions_known_service, named_service;
    apply (records_keyed_service w w' Hs Hk).
Qed.

Lemma set_connected_in (b : bool) (k : JsString) (device : ChatDevice.t)
  (m : JsMap.t ChatDevice.t) (k' : JsString) (d' : ChatDevice.t) :
  JsMap.get k m = Some device ->
  In (k', d') (JsMap.set k (ChatDevice.set_connected b device) m) ->
  exists d, In (k', d) m
            /\ ChatDevice.id d' = ChatDevice.id d
            /\ ChatDevice.name d' = ChatDevice.name d.
Proof.
  intros Hget Hin. apply in_set in Hin as [[= -> ->] | Hin].
  - exists device. split; [now apply get_in | split; reflexivity].
  - exists d'. auto.
Qed.

Lemma connectToDevice_well_kept (w : World) (deviceId : JsString) :
  well_kept w -> well_kept (world_of (connectToDevice BleClient_resolves deviceId w)).
Proof.
  intros Hw.
  destruct (connectToDevice_cases BleClient_resolves w deviceId)
    as [[_ Hsame] | (device & _ & Hget & Hdev & Hconn)].
  - exact (well_kept_service _ _ Hsame Hw).
  - destruct Hw as ([Hkd Hkc] & Hs & Hn). unfold well_kept, records_keyed,
      sessions_known, named. rewrite Hdev, Hconn. repeat split.
    + intros k d Hin.
      destruct (set_connected_in _ _ _ _ _ _ Hget Hin) as (d0 & Hin0 & -> & _).
      now apply Hkd.
    + intros k session Hin. apply in_set in Hin as [[= -> ->] | Hin];
        [reflexivity | now apply Hkc].
    + intros k. destruct (Js_eqb_spec k deviceId) as [->|Hk].
      * intros _. apply has_set_same.
      * rewrite !has_set_other by assumption. apply Hs.
    + intros k d Hin.
      destruct (set_connected_in _ _ _ _ _ _ Hget Hin) as (d0 & Hin0 & _ & ->).
      now apply (Hn k).
Qed.

Lemma disconnectFromDevice_well_kept (w : World) (deviceId : JsString) :
  well_kept w ->
  well_kept (world_of (disconnectFromDevice BleClient_resolves deviceId w)).
Proof.
  intros ([Hkd Hkc] & Hs & Hn).
  destruct (disconnectFromDevice_spec BleClient_resolves w deviceId)
    as (_ & _ & Hconn & Hdev).
  unfold well_kept, records_keyed, sessions_known, named. rewrite Hdev, Hconn.
  destruct (BleClient_resolves (ble_calls w) (Disconnect deviceId));
    [|repeat split; assumption].
  destruct (JsMap.get deviceId (devices w)) as [device|] eqn:Hget.
  - repeat split.
    + intros k d Hin.
      destruct (set_connected_in _ _ _ _ _ _ Hget Hin) as (d0 & Hin0 & -> & _).
      now apply Hkd.
    + intros k session Hin. apply in_delete in Hin. now apply Hkc.
    + intros k. destruct (Js_eqb_spec k deviceId) as [->|Hk].
      * now rewrite has_delete_same.
      * rewrite has_delete_other, has_set_other by assumption. apply Hs.
    + intros k d Hin.
      destruct (set_connected_in _ _ _ _ _ _ Hget Hin) as (d0 & Hin0 & _ & ->).
      now apply (Hn k).
  - repeat split; try assumption.
    + intros k session Hin. apply in_delete in Hin. now apply Hkc.
    + intros k. destruct (Js_eqb_spec k deviceId) as [->|Hk].
      * now rewrite has_delete_same.
      * rewrite has_delete_other by assumption. apply Hs.
Qed.

Lemma step_well_kept (ev : Event) (w : World) :
  well_kept w ->
  well_kept (step BleClient_resolves AES_encrypt AES_decrypt_utf8 ev w).
Proof.
  intros Hw.
  assert (Hframe : forall w', same_service w w' -> well_kept w')
    by (intros w' Hs; exact (well_kept_service _ _ Hs Hw)).
  destruct ev; cbn [step].
  - apply Hframe, initialize_frame.
  - apply Hframe, startScanning_frame.
  - destruct Hw as ([Hkd Hkc] & Hs & Hn).
    unfold scan_callback. run_js. cbn [ChatDevice.id].
    unfold well_kept, records_keyed, sessions_known, named.
    cbn [devices connections with_devices]. repeat split.
    + intros k d Hin. apply in_set in Hin as [[= -> ->] | Hin];
        [reflexivity | now apply Hkd].
    + exact Hkc.
    + intros k Hk. apply Hs in Hk.
      destruct (Js_eqb_spec k (BleDevice.deviceId (ScanResult.device result)))
        as [->|Hne]; [apply has_set_same | now rewrite has_set_other].
    + intros k d Hin. apply in_set in Hin as [[= -> ->] | Hin];
        [|now apply (Hn k)].
      cbn [ChatDevice.name]. apply scan_callback_name_nonempty. discriminate.
  - apply Hframe, stopScanning_spec.
  - now apply connectToDevice_well_kept.
  - now apply disconnectFromDevice_well_kept.
  - apply Hframe, sendMessage_spec.
  - apply Hframe, startMessageListener_frame.
  - apply Hframe, notification_callback_frame.
  - apply Hframe, handleSendMessage_frame.
  - destruct (cleanup_spec BleClient_resolves w) as [_ HP].
    apply HP;
      [exact well_kept_service
      |intros d w0; apply disconnectFromDevice_well_kept
      |exact Hw].
Qed.

(** X3: In every reachable state each record is stored under its own id and has
    a name, each session is the handle [{ deviceId }] stored under that id,
    and a session exists only for a device of the registry. *)
Theorem reachable_registry_is_well_kept (w : World) :
  reachable BleClient_resolves AES_encrypt AES_decrypt_utf8 w ->
  records_keyed w /\ sessions_known w /\ named w.
Proof.
  intros [events ->].
  induction events as [|ev events IH] using rev_ind.
  - repeat split; try (intros k d []); intros k H; discriminate.
  - rewrite run_snoc. now apply step_well_kept.
Qed.

(** X4: [connectToDevice], [disconnectFromDevice] and [cleanup] keep the pairing
    of the [connected] flag with the session: from a state in which every
    record is marked connected exactly when its session exists, each of them
    leads to such a state, whatever the transport answers. *)
Theorem lifecycle_methods_keep_the_pairing (w : World) :
  paired w ->
  (forall deviceId,
     paired (world_of (connectToDevice BleClient_resolves deviceId w)))
  /\ (forall deviceId,
        paired (world_of (disconnectFromDevice BleClient_resolves deviceId w)))
  /\ paired (world_of (cleanup BleClient_resolves w))
  /\ (forall deviceId message salt,
        paired (world_of (sendMessage BleClient_resolves AES_encrypt deviceId
                                      message salt w))).
Proof.
  intros Hw. split; [|split; [|split]].
  - intros deviceId.
    exact (connectToDevice_paired BleClient_resolves (fun _ _ _ => [])
             (fun _ _ => None) w deviceId Hw).
  - intros deviceId. now apply disconnectFromDevice_paired.
  - now apply cleanup_paired.
  - intros deviceId message salt.
    apply (paired_service w); [apply sendMessage_spec | exact Hw].
Qed.

(** *** The chat component's send handler *)

Lemma blank_trim (s : JsString) : blank s -> Js.truthy (Js.trim s) = false.
Proof.
  intros Hs. unfold Js.trim, Js.trimEnd.
  rewrite (proj2 (trimStart_nil s) Hs). reflexivity.
Qed.

(** X18: With nothing but white space typed, [handleSendMessage] does nothing at
    all. *)
Theorem handleSendMessage_ignores_blank_text
  (w : World) (device : ChatDevice.t) (salt : N) (now date : Z) :
  blank (ChatInterface.newMessage (chat w)) ->
  handleSendMessage BleClient_resolves AES_encrypt device salt now date w
  = (Normal tt, w).
Proof.
  intros Hb. unfold handleSendMessage. run_js.
  now rewrite (blank_trim _ Hb).
Qed.

Lemma sendMessage_with_chat (f : ChatInterface.state -> ChatInterface.state)
  (w : World) (deviceId message : JsString) (salt : N) :
  sendMessage BleClient_resolves AES_encrypt deviceId message salt (with_chat f w)
  = (result_of (sendMessage BleClient_resolves AES_encrypt deviceId message salt w),
     with_chat f
       (world_of (sendMessage BleClient_resolves AES_encrypt deviceId message
                              salt w))).
Proof.
  unfold sendMessage. run_js.
  destruct (JsMap.has deviceId (connections w)); cbn [negb]; [|reflexivity].
  cbn [ble_calls with_crypto_call with_chat].
  destruct (BleClient_resolves (ble_calls w) _); reflexivity.
Qed.

(** X19: For text that is not blank and not flagged, [handleSendMessage] calls the
    service's [sendMessage] once. If that returns [true] the sent message
    (the typed text, [sent = true], [encrypted = true]) is appended to the
    list and the input is emptied; otherwise no message is added, the typed
    text stays, and the failure toast is shown. Either way the warning is
    cleared and [sending] ends [false]. *)
Theorem handleSendMessage_follows_sendMessage
  (w : World) (device : ChatDevice.t) (salt : N) (now date : Z) :
  let text := ChatInterface.newMessage (chat w) in
  Js.truthy (Js.trim text) = true ->
  flagged (checkContentModeration text) = false ->
  let sent :=
    sendMessage BleClient_resolves AES_encrypt (ChatDevice.id device) text salt w in
  let w' :=
    world_of (handleSendMessage BleClient_resolves AES_encrypt device salt now
                                date w) in
  ble_calls w' = ble_calls (world_of sent)
  /\ crypto_calls w' = crypto_calls (world_of sent)
  /\ ChatInterface.sending (chat w') = false
  /\ ChatInterface.moderationWarning (chat w') = None
  /\ match result_of sent with
     | Normal true =>
         ChatInterface.messages (chat w')
         = ChatInterface.messages (chat w)
           ++ [ChatMessage.mk (Js.Number_toString now) (ChatDevice.id device)
                              text date true true]
         /\ ChatInterface.newMessage (chat w') = []
         /\ ChatInterface.toasts (chat w')
            = ChatInterface.toasts (chat w)
              ++ [mkToast (js "Message Sent")
                          (js "Your encrypted message has been delivered.")
                          false]
     | _ =>
         ChatInterface.messages (chat w') = ChatInterface.messages (chat w)
         /\ ChatInterface.newMessage (chat w') = text
         /\ ChatInterface.toasts (chat w')
            = ChatInterface.toasts (chat w)
              ++ [mkToast (js "Send Failed")
                          (js "Could not send message. Please check connection.")
                          true]
     end.
Proof.
  cbv zeta. intros Hnb Hnf.
  unfold handleSendMessage, sendMessage. run_js.
  rewrite Hnb. cbn [negb]. rewrite Hnf.
  cbn [fst snd devices connections ble_calls console crypto_calls chat
       with_devices with_connections with_ble_call with_console
       with_crypto_call with_chat].
  destruct (JsMap.has (ChatDevice.id device) (connections w)); cbn [negb];
    [|cbn; repeat split].
  cbn [ble_calls with_crypto_call with_chat].
  destruct (BleClient_resolves (ble_calls w) _); cbn; repeat split.
Qed.

(** *** The device scanner component *)

(** X22: The signal label never gets worse when the signal gets stronger, the
    icon is green exactly for 'Excellent' and amber exactly for 'Good', and
    the thresholds -50, -70 and -90 themselves belong to the weaker label. *)
Theorem signal_labels_are_monotone (rssi1 rssi2 : Z) :
  (rssi1 <= rssi2)%Z ->
  (signal_rank (DeviceScanner.getSignalStrengthText rssi1)
   <= signal_rank (DeviceScanner.getSignalStrengthText rssi2))%nat
  /\ (DeviceScanner.getSignalStrengthIcon rssi1 = DeviceScanner.text_success
      <-> DeviceScanner.getSignalStrengthText rssi1 = DeviceScanner.Excellent)
  /\ (DeviceScanner.getSignalStrengthIcon rssi1 = DeviceScanner.text_warning
      <-> DeviceScanner.getSignalStrengthText rssi1 = DeviceScanner.Good)
  /\ (DeviceScanner.getSignalStrengthText rssi1 = DeviceScanner.Excellent
      <-> (-50 < rssi1)%Z)
  /\ (DeviceScanner.getSignalStrengthText rssi1 = DeviceScanner.Weak
      <-> (rssi1 <= -90)%Z).
Proof.
  intros Hle.
  unfold DeviceScanner.getSignalStrengthText, DeviceScanner.getSignalStrengthIcon.
  destruct (Z.ltb_spec (-50) rssi1), (Z.ltb_spec (-70) rssi1),
    (Z.ltb_spec (-90) rssi1), (Z.ltb_spec (-50) rssi2),
    (Z.ltb_spec (-70) rssi2), (Z.ltb_spec (-90) rssi2);
    cbn; try lia;
    repeat split; intros; try discriminate; try lia; try reflexivity.
Qed.

Lemma in_map_mark (target : JsString) (l : list ChatDevice.t) (d' : ChatDevice.t) :
  In d' (map (fun d => if Js.eqb (ChatDevice.id d) target
                       then ChatDevice.set_connected true d else d) l) ->
  In d' l \/ (ChatDevice.id d' = target /\ ChatDevice.connected d' = true).
Proof.
  induction l as [|d l IH]; cbn [map In]; [intros []|].
  intros [<-|Hin]; [|destruct (IH Hin); auto].
  destruct (Js_eqb_spec (ChatDevice.id d) target) as [E|E]; auto.
Qed.

(** X20: The scanner's connect handler shows a device as connected, or opens its
    chat, only when the service holds a session for it; when the service
    reports failure the list and the selection are unchanged; the list keeps
    its devices in order; and [connecting] is reset in every case. *)
Theorem scanner_connect_follows_the_service
  (s : DeviceScanner.state) (w : World) (device : ChatDevice.t) :
  let r := DeviceScanner.connectToDevice BleClient_resolves device s w in
  let s' := fst r in
  let w' := snd r in
  DeviceScanner.connecting s' = None
  /\ w' = world_of (connectToDevice BleClient_resolves (ChatDevice.id device) w)
  /\ map ChatDevice.id (DeviceScanner.devices s')
     = map ChatDevice.id (DeviceScanner.devices s)
  /\ (forall d,
        In d (DeviceScanner.devices s') ->
        ChatDevice.connected d = true ->
        In d (DeviceScanner.devices s)
        \/ JsMap.has (ChatDevice.id d) (connections w') = true)
  /\ (DeviceScanner.selectedDevice s' = DeviceScanner.selectedDevice s
      \/ (DeviceScanner.selectedDevice s'
          = Some (ChatDevice.set_connected true device)
          /\ JsMap.has (ChatDevice.id device) (connections w') = true))
  /\ (result_of (connectToDevice BleClient_resolves (ChatDevice.id device) w)
      = Normal false ->
      DeviceScanner.devices s' = DeviceScanner.devices s
      /\ DeviceScanner.selectedDevice s' = DeviceScanner.selectedDevice s
      /\ same_service w w').
Proof.
  clear AES_encrypt AES_decrypt_utf8.
  cbv zeta. unfold DeviceScanner.connectToDevice.
  destruct (connectToDevice_cases BleClient_resolves w (ChatDevice.id device))
    as [[Hr Hsame] | (device0 & Hr & Hget & Hdev & Hconn)];
    destruct (connectToDevice BleClient_resolves (ChatDevice.id device) w)
      as [r w1];
    unfold result_of, world_of in *; cbn [fst snd] in *; subst r;
    cbn [fst snd DeviceScanner.connecting DeviceScanner.devices
         DeviceScanner.selectedDevice DeviceScanner.setConnecting
         DeviceScanner.setDevices DeviceScanner.toast
         DeviceScanner.onDeviceConnect].
  - split; [reflexivity|]. split; [reflexivity|]. split; [reflexivity|].
    split; [intros d Hin _; now left|]. split; [now left|].
    intros _. split; [reflexivity|]. split; [reflexivity | exact Hsame].
  - split; [reflexivity|]. split; [reflexivity|].
    assert (Hhas : JsMap.has (ChatDevice.id device) (connections w1) = true)
      by (rewrite Hconn; apply has_set_same).
    split; [|split; [|split; [|discriminate]]].
    + rewrite map_map. apply map_ext. intros d.
      destruct (Js.eqb (ChatDevice.id d) (ChatDevice.id device)); reflexivity.
    + intros d Hin _. apply in_map_mark in Hin as [Hin|[Hid _]]; [now left|].
      right. now rewrite Hid.
    + right. split; [reflexivity | exact Hhas].
Qed.

(** X21: The number in the 'Scan Complete' toast is the number of devices the
    registry held when the scan was started: devices discovered during the
    scan appear in the list (after a refresh) but are not counted. *)
Theorem scan_complete_counts_the_devices_known_at_start
  (s : DeviceScanner.state) (w : World) (found : list ChatDevice.t)
  (s1 : DeviceScanner.state) (w1 : World)
  (discovered : list (ScanResult.t * Z)) :
  DeviceScanner.startScanning BleClient_resolves s w = (Some found, s1, w1) ->
  let w2 :=
    fold_left (fun w0 d => world_of (scan_callback (fst d) (snd d) w0))
              discovered w1 in
  let s3 := DeviceScanner.scanComplete found (DeviceScanner.refresh s1 w2) in
  found = getAllDevices w
  /\ DeviceScanner.devices s1 = getAllDevices w
  /\ DeviceScanner.devices s3 = getAllDevices w2
  /\ (List.length (getAllDevices w) <= List.length (getAllDevices w2))%nat
  /\ DeviceScanner.scanning s3 = false
  /\ DeviceScanner.toasts s3
     = DeviceScanner.toasts s1
       ++ [mkToast (js "Scan Complete")
             (js "Found "
              ++ Js.Number_toString (Z.of_nat (List.length (getAllDevices w)))
              ++ js " nearby devices.")
             false].
Proof.
  unfold DeviceScanner.startScanning, startScanning. run_js.
  destruct (BleClient_resolves (ble_calls w) _); [|discriminate].
  cbn [devices with_ble_call]. intros [= <- <- <-]. cbv zeta.
  split; [reflexivity|]. split; [reflexivity|]. split; [reflexivity|].
  split; [|split; [reflexivity|]].
  - unfold getAllDevices, JsMap.values. rewrite !length_map.
    change (List.length (devices w))
      with (List.length (devices (with_ble_call (RequestLEScan [SERVICE_UUID]) w))).
    generalize (with_ble_call (RequestLEScan [SERVICE_UUID]) w).
    induction discovered as [|[result now] rest IH]; intros w0; cbn [fold_left];
      [lia|].
    etransitivity; [|apply IH].
    unfold scan_callback. run_js. cbn [fst snd devices with_devices].
    rewrite <- !(length_map fst).
    change (map fst ?m) with (JsMap.keys m).
    destruct (JsMap.has (BleDevice.deviceId (ScanResult.device result)) (devices w0))
      eqn:Hhas.
    + rewrite keys_set_present by assumption. lia.
    + rewrite keys_set_absent by assumption. rewrite length_app. lia.
  - unfold DeviceScanner.scanComplete, DeviceScanner.refresh,
      DeviceScanner.toast, DeviceScanner.setScanning, DeviceScanner.setDevices,
      Js.concat.
    cbn [DeviceScanner.toasts DeviceScanner.devices DeviceScanner.scanning
         DeviceScanner.connecting DeviceScanner.selectedDevice].
    now rewrite <- (app_assoc (js "Found ")).
Qed.
End MoreProperties.

(* ================================================================== *)
(** ** What the moderation patterns match *)

Lemma last_or_app (prev : option N) (m1 m2 : JsString) :
  last_or prev (m1 ++ m2) = last_or (last_or prev m1) m2.
Proof. revert prev. induction m1 as [|c m1 IH]; intros prev; cbn; auto. Qed.

(** The matcher finds exactly the matches. *)
Lemma run_iff (r : RegExp.t) :
  forall prev s k,
    RegExp.run r prev s k = true
    <-> exists m rest,
          s = m ++ rest /\ Matches r prev m rest /\ k (last_or prev m) rest = true.
Proof.
  induction r as [|p|a IHa b IHb|a IHa b IHb|a IHa|]; intros prev s k;
    cbn [RegExp.run].
  - split.
    + intros H. exists [], s. repeat split; [constructor | exact H].
    + intros (m & rest & -> & HM & Hk). inversion HM; subst. exact Hk.
  - split.
    + destruct s as [|c s']; [discriminate|]. intros H.
      apply andb_true_iff in H as [Hp Hk].
      exists [c], s'. repeat split; [constructor; exact Hp | exact Hk].
    + intros (m & rest & -> & HM & Hk). inversion HM; subst.
      cbn. apply andb_true_iff. split; assumption.
  - rewrite IHa. split.
    + intros (m1 & rest1 & -> & HMa & Hb). apply IHb in Hb
        as (m2 & rest & -> & HMb & Hk).
      exists (m1 ++ m2), rest. rewrite <- app_assoc, last_or_app.
      repeat split; [constructor; assumption | exact Hk].
    + intros (m & rest & -> & HM & Hk). inversion HM; subst.
      exists m1, (m2 ++ rest). rewrite <- app_assoc.
      repeat split; [assumption|]. apply IHb. exists m2, rest.
      rewrite last_or_app in Hk. repeat split; assumption.
  - rewrite orb_true_iff, IHa, IHb. split.
    + intros [(m & rest & -> & HM & Hk) | (m & rest & -> & HM & Hk)];
        exists m, rest; repeat split; try assumption;
        [now apply Matches_Alt_l | now apply Matches_Alt_r].
    + intros (m & rest & -> & HM & Hk). inversion HM; subst;
        [left | right]; exists m, rest; repeat split; assumption.
  - rewrite orb_true_iff, IHa. split.
    + intros [(m & rest & -> & HM & Hk) | Hk].
      * exists m, rest. repeat split; [now apply Matches_Opt_some | exact Hk].
      * exists [], s. repeat split; [apply Matches_Opt_none | exact Hk].
    + intros (m & rest & -> & HM & Hk). inversion HM; subst.
      * left. exists m, rest. repeat split; assumption.
      * right. exact Hk.
  - rewrite andb_true_iff. split.
    + intros [Hb Hk]. exists [], s. repeat split; [now constructor | exact Hk].
    + intros (m & rest & -> & HM & Hk). inversion HM; subst. split; assumption.
Qed.

Lemma search_iff (r : RegExp.t) (s : JsString) :
  forall prev,
    RegExp.search r prev s = true
    <-> exists pre m rest,
          s = pre ++ m ++ rest /\ Matches r (last_or prev pre) m rest.
Proof.
  induction s as [|c s IH]; intros prev; cbn [RegExp.search];
    unfold RegExp.match_here; rewrite orb_true_iff, run_iff.
  - split.
    + intros [(m & rest & E & HM & _) | H]; [|discriminate].
      exists [], m, rest. auto.
    + intros (pre & m & rest & E & HM).
      destruct pre as [|x pre]; [|discriminate].
      left. exists m, rest. auto.
  - rewrite IH. split.
    + intros [(m & rest & E & HM & _) | (pre & m & rest & E & HM)].
      * exists [], m, rest. auto.
      * exists (c :: pre), m, rest. cbn. split; [now rewrite E | exact HM].
    + intros (pre & m & rest & E & HM). destruct pre as [|x pre].
      * left. exists m, rest. auto.
      * right. injection E as -> ->. exists pre, m, rest. auto.
Qed.

Lemma test_iff (r : RegExp.t) (s : JsString) :
  RegExp.test r s = true
  <-> exists pre m rest,
        s = pre ++ m ++ rest /\ Matches r (last_or None pre) m rest.
Proof. apply search_iff. Qed.

Lemma Matches_Seq_inv (a b : RegExp.t) (prev : option N) (m rest : JsString) :
  Matches (Seq a b) prev m rest
  <-> exists m1 m2,
        m = m1 ++ m2 /\ Matches a prev m1 (m2 ++ rest)
        /\ Matches b (last_or prev m1) m2 rest.
Proof.
  split.
  - intros H. inversion H; subst. eauto.
  - intros (m1 & m2 & -> & Ha & Hb). now constructor.
Qed.

Lemma Matches_chars (cls : N -> N -> bool) (kw : JsString) :
  forall prev m rest,
    Matches (chars cls kw) prev m rest
    <-> Forall2 (fun p c => cls p c = true) kw m.
Proof.
  induction kw as [|p kw IH]; intros prev m rest; cbn [chars].
  - split; intros H; inversion H; subst; constructor.
  - rewrite Matches_Seq_inv. split.
    + intros (m1 & m2 & -> & Ha & Hb). inversion Ha; subst.
      constructor; [assumption|]. eapply IH. exact Hb.
    + intros H. inversion H as [|? c ? m' Hc Hrest]; subst.
      exists [c], m'. repeat split; [now constructor|]. now apply IH.
Qed.

Lemma Matches_times (p : N -> bool) (n : nat) :
  forall prev m rest,
    Matches (times n (Cls p)) prev m rest
    <-> List.length m = n /\ Forall (fun c => p c = true) m.
Proof.
  induction n as [|n IH]; intros prev m rest; cbn [times].
  - split.
    + intros H. inversion H; subst. split; [reflexivity | constructor].
    + intros [Hlen _]. destruct m; [constructor | discriminate].
  - rewrite Matches_Seq_inv. split.
    + intros (m1 & m2 & -> & Ha & Hb). inversion Ha; subst.
      apply IH in Hb as [Hlen Hall]. cbn. split; [now rewrite Hlen|].
      now constructor.
    + intros [Hlen Hall]. destruct m as [|c m']; [discriminate|].
      inversion Hall; subst. injection Hlen as Hlen.
      exists [c], m'. repeat split; [now constructor|]. apply IH. now split.
Qed.

Lemma Matches_Opt_Cls (p : N -> bool) (prev : option N) (m rest : JsString) :
  Matches (Opt (Cls p)) prev m rest
  <-> m = [] \/ exists c, m = [c] /\ p c = true.
Proof.
  split.
  - intros H. inversion H as [| | | | |? ? ? ? Ha| |]; subst; [|now left].
    inversion Ha; subst. right. eauto.
  - intros [-> | (c & -> & Hc)];
      [apply Matches_Opt_none | apply Matches_Opt_some; now constructor].
Qed.

Lemma Matches_WordB_inv (prev : option N) (m rest : JsString) :
  Matches WordB prev m rest <-> m = [] /\ RegExp.at_boundary prev rest = true.
Proof.
  split.
  - intros H. inversion H; subst. now split.
  - intros [-> H]. now constructor.
Qed.

Lemma Matches_Cls_inv (p : N -> bool) (prev : option N) (m rest : JsString) :
  Matches (Cls p) prev m rest <-> exists c, m = [c] /\ p c = true.
Proof.
  split.
  - intros H. inversion H; subst. eauto.
  - intros (c & -> & Hc). now constructor.
Qed.

Ltac norm_last :=
  repeat (progress (rewrite ?last_or_app in *; cbn [last_or app] in * )).

Lemma Matches_Alt_inv (a b : RegExp.t) (prev : option N) (m rest : JsString) :
  Matches (Alt a b) prev m rest <-> Matches a prev m rest \/ Matches b prev m rest.
Proof.
  split.
  - intros H. inversion H; subst; auto.
  - intros [H|H]; [now apply Matches_Alt_l | now apply Matches_Alt_r].
Qed.

Lemma digit_word (c : N) : RegExp.digit c = true -> RegExp.word c = true.
Proof. unfold RegExp.word. now intros ->. Qed.

Lemma is_i_letter_word (p c : N) :
  (97 <= p <= 122)%N -> RegExp.is_i p c = true -> RegExp.word c = true.
Proof.
  intros Hp H. apply (is_i_letter_range p c Hp) in H as Hrange.
  revert H. unfold RegExp.is_i, RegExp.word, RegExp.digit.
  rewrite !orb_true_iff, !andb_true_iff, !N.eqb_eq, !N.leb_le. lia.
Qed.

Lemma boundary_before (t rest : JsString) (prev : option N) :
  starts_with_word t ->
  (RegExp.at_boundary prev (t ++ rest) = true
   <-> match prev with Some x => RegExp.word x = false | None => True end).
Proof.
  intros (c & t' & -> & Hc). unfold RegExp.at_boundary. cbn. rewrite Hc.
  destruct prev as [x|]; [destruct (RegExp.word x)|]; cbn; intuition congruence.
Qed.

Lemma boundary_after (t rest : JsString) (prev : option N) :
  ends_with_word t ->
  (RegExp.at_boundary (last_or prev t) rest = true <-> nonword_after rest).
Proof.
  intros (t' & c & -> & Hc). rewrite last_or_app. cbn [last_or].
  unfold RegExp.at_boundary, nonword_after. rewrite Hc.
  destruct rest as [|x rest]; [|destruct (RegExp.word x)]; cbn;
    intuition congruence.
Qed.

Lemma digits_word_ends (n : nat) (g : JsString) :
  digits (S n) g -> starts_with_word g /\ ends_with_word g.
Proof.
  intros [Hlen Hall]. split.
  - destruct g as [|c g]; [discriminate|]. inversion Hall; subst.
    exists c, g. split; [reflexivity | now apply digit_word].
  - destruct (exists_last (l := g)) as (g' & c & ->);
      [intros ->; discriminate|].
    apply Forall_app in Hall as [_ Hc]. inversion Hc; subst.
    exists g', c. split; [reflexivity | now apply digit_word].
Qed.

Lemma starts_with_word_app (t u : JsString) :
  starts_with_word t -> starts_with_word (t ++ u).
Proof. intros (c & t' & -> & Hc). exists c, (t' ++ u). now split. Qed.

Lemma ends_with_word_app (t u : JsString) :
  ends_with_word u -> ends_with_word (t ++ u).
Proof.
  intros (u' & c & -> & Hc). exists (t ++ u'), c.
  split; [now rewrite app_assoc | exact Hc].
Qed.

Lemma spells_word_ends (kw t : JsString) (p q : N) (middle : JsString) :
  kw = p :: middle ++ [q] ->
  (97 <= p <= 122)%N -> (97 <= q <= 122)%N ->
  spells kw t -> starts_with_word t /\ ends_with_word t.
Proof.
  intros -> Hp Hq H. unfold spells in H.
  inversion H as [|? c ? t' Hc Hrest]; subst.
  split.
  - exists c, t'. split; [reflexivity | exact (is_i_letter_word p c Hp Hc)].
  - apply Forall2_app_inv_l in Hrest as (t1 & t2 & _ & Hlast & ->).
    inversion Hlast as [|? d ? t3 Hd Hnil]; subst. inversion Hnil; subst.
    apply (ends_with_word_app (c :: t1) [d]). exists [], d.
    split; [reflexivity | exact (is_i_letter_word q d Hq Hd)].
Qed.

Lemma keyword_word_ends (kw t : JsString) :
  In kw keywords -> spells kw t -> starts_with_word t /\ ends_with_word t.
Proof.
  unfold keywords. cbn [In].
  intros [<-|[<-|[<-|[<-|[<-|[]]]]]];
    [apply (spells_word_ends _ t 112 100 (js "asswor"))%N
    |apply (spells_word_ends _ t 115 110 (js "s"))%N
    |apply (spells_word_ends _ t 115 121 (js "ocial securit"))%N
    |apply (spells_word_ends _ t 99 100 (js "redit car"))%N
    |apply (spells_word_ends _ t 98 116 (js "ank accoun"))%N];
    solve [reflexivity | lia].
Qed.

Lemma sensitive_word_ends (t : JsString) :
  sensitive t -> starts_with_word t /\ ends_with_word t.
Proof.
  intros [kw text Hin Hs | g1 s1 g2 s2 g3 s3 g4 H1 _ _ _ _ _ H4 | a b c Ha _ Hc].
  - exact (keyword_word_ends kw text Hin Hs).
  - split.
    + apply starts_with_word_app. exact (proj1 (digits_word_ends 3 g1 H1)).
    + rewrite !app_assoc. apply ends_with_word_app.
      exact (proj2 (digits_word_ends 3 g4 H4)).
  - split.
    + apply starts_with_word_app. exact (proj1 (digits_word_ends 2 a Ha)).
    + rewrite !app_assoc. apply ends_with_word_app.
      exact (proj2 (digits_word_ends 3 c Hc)).
Qed.

(** What each of the three patterns matches. *)
Lemma keyword_pattern_matches (prev : option N) (m rest : JsString) :
  Matches keyword_pattern prev m rest
  <-> (exists kw, In kw keywords /\ spells kw m)
      /\ RegExp.at_boundary prev (m ++ rest) = true
      /\ RegExp.at_boundary (last_or prev m) rest = true.
Proof.
  unfold keyword_pattern. split.
  - intros H.
    apply Matches_Seq_inv in H as (m0 & m1 & -> & H0 & H).
    apply Matches_WordB_inv in H0 as [-> Hb0].
    apply Matches_Seq_inv in H as (t & m2 & -> & Ht & H).
    apply Matches_WordB_inv in H as [-> Hb1].
    cbn [app last_or] in *. rewrite app_nil_r in *.
    split; [|split; assumption].
    unfold keywords, spells.
    apply Matches_Alt_inv in Ht as [Ht|Ht];
      [|apply Matches_Alt_inv in Ht as [Ht|Ht];
        [|apply Matches_Alt_inv in Ht as [Ht|Ht];
          [|apply Matches_Alt_inv in Ht as [Ht|Ht]]]];
      match type of Ht with
      | Matches (chars _ ?kw) _ _ _ =>
          apply Matches_chars in Ht; exists kw; split; [cbn; tauto | exact Ht]
      end.
  - intros ((kw & Hin & Hs) & Hb0 & Hb1).
    apply Matches_Seq_inv. exists [], m. split; [reflexivity|]. split.
    { apply Matches_WordB_inv. split; [reflexivity|]. exact Hb0. }
    apply Matches_Seq_inv. exists m, []. split; [now rewrite app_nil_r|]. split.
    2:{ apply Matches_WordB_inv. split; [reflexivity|]. exact Hb1. }
    cbn [last_or]. unfold keywords in Hin. cbn [In] in Hin.
    destruct Hin as [<-|[<-|[<-|[<-|[<-|[]]]]]];
      [apply Matches_Alt_l
      |apply Matches_Alt_r, Matches_Alt_l
      |apply Matches_Alt_r, Matches_Alt_r, Matches_Alt_l
      |apply Matches_Alt_r, Matches_Alt_r, Matches_Alt_r, Matches_Alt_l
      |apply Matches_Alt_r, Matches_Alt_r, Matches_Alt_r, Matches_Alt_r];
      apply Matches_chars; exact Hs.
Qed.

Lemma ssn_pattern_matches (prev : option N) (m rest : JsString) :
  Matches ssn_pattern prev m rest
  <-> (exists a b c,
         m = a ++ [45%N] ++ b ++ [45%N] ++ c
         /\ digits 3 a /\ digits 2 b /\ digits 4 c)
      /\ RegExp.at_boundary prev (m ++ rest) = true
      /\ RegExp.at_boundary (last_or prev m) rest = true.
Proof.
  unfold ssn_pattern. split.
  - intros H.
    apply Matches_Seq_inv in H as (m0 & m1 & -> & H0 & H).
    apply Matches_WordB_inv in H0 as [-> Hb0].
    apply Matches_Seq_inv in H as (a & m2 & -> & Ha & H).
    apply Matches_Seq_inv in H as (d1 & m3 & -> & Hd1 & H).
    apply Matches_Seq_inv in H as (b & m4 & -> & Hb & H).
    apply Matches_Seq_inv in H as (d2 & m5 & -> & Hd2 & H).
    apply Matches_Seq_inv in H as (c & m6 & -> & Hc & H).
    apply Matches_WordB_inv in H as [-> Hb1].
    apply Matches_times in Ha, Hb, Hc.
    apply Matches_Cls_inv in Hd1 as (x1 & -> & Hx1).
    apply Matches_Cls_inv in Hd2 as (x2 & -> & Hx2).
    apply N.eqb_eq in Hx1, Hx2. subst x1 x2.
    cbn [app] in *. rewrite !app_nil_r in *.
    split; [exists a, b, c; split; [reflexivity|]; split; [exact Ha|];
            split; [exact Hb | exact Hc]|].
    split; [exact Hb0|]. norm_last. exact Hb1.
  - intros ((a & b & c & -> & Ha & Hb & Hc) & Hb0 & Hb1).
    apply Matches_Seq_inv. exists [], (a ++ [45%N] ++ b ++ [45%N] ++ c).
    split; [reflexivity|]. split; [now apply Matches_WordB_inv|].
    apply Matches_Seq_inv. exists a, ([45%N] ++ b ++ [45%N] ++ c).
    split; [reflexivity|]. split; [now apply Matches_times|].
    apply Matches_Seq_inv. exists [45%N], (b ++ [45%N] ++ c).
    split; [reflexivity|]. split; [apply Matches_Cls_inv; now exists 45%N|].
    apply Matches_Seq_inv. exists b, ([45%N] ++ c).
    split; [reflexivity|]. split; [now apply Matches_times|].
    apply Matches_Seq_inv. exists [45%N], c.
    split; [reflexivity|]. split; [apply Matches_Cls_inv; now exists 45%N|].
    apply Matches_Seq_inv. exists c, [].
    split; [now rewrite app_nil_r|]. split; [now apply Matches_times|].
    apply Matches_WordB_inv. split; [reflexivity|].
    norm_last. exact Hb1.
Qed.

Lemma credit_card_pattern_matches (prev : option N) (m rest : JsString) :
  Matches credit_card_pattern prev m rest
  <-> (exists g1 s1 g2 s2 g3 s3 g4,
         m = g1 ++ s1 ++ g2 ++ s2 ++ g3 ++ s3 ++ g4
         /\ digits 4 g1 /\ separator s1 /\ digits 4 g2 /\ separator s2
         /\ digits 4 g3 /\ separator s3 /\ digits 4 g4)
      /\ RegExp.at_boundary prev (m ++ rest) = true
      /\ RegExp.at_boundary (last_or prev m) rest = true.
Proof.
  unfold credit_card_pattern. split.
  - intros H.
    apply Matches_Seq_inv in H as (m0 & m1 & -> & H0 & H).
    apply Matches_WordB_inv in H0 as [-> Hb0].
    apply Matches_Seq_inv in H as (g1 & m2 & -> & Hg1 & H).
    apply Matches_Seq_inv in H as (s1 & m3 & -> & Hs1 & H).
    apply Matches_Seq_inv in H as (g2 & m4 & -> & Hg2 & H).
    apply Matches_Seq_inv in H as (s2 & m5 & -> & Hs2 & H).
    apply Matches_Seq_inv in H as (g3 & m6 & -> & Hg3 & H).
    apply Matches_Seq_inv in H as (s3 & m7 & -> & Hs3 & H).
    apply Matches_Seq_inv in H as (g4 & m8 & -> & Hg4 & H).
    apply Matches_WordB_inv in H as [-> Hb1].
    apply Matches_times in Hg1, Hg2, Hg3, Hg4.
    apply Matches_Opt_Cls in Hs1, Hs2, Hs3.
    cbn [app] in *. rewrite !app_nil_r in *.
    split; [exists g1, s1, g2, s2, g3, s3, g4; split; [reflexivity|];
            split; [exact Hg1|]; split; [exact Hs1|]; split; [exact Hg2|];
            split; [exact Hs2|]; split; [exact Hg3|]; split; [exact Hs3|];
            exact Hg4|].
    split; [exact Hb0|]. norm_last. exact Hb1.
  - intros ((g1 & s1 & g2 & s2 & g3 & s3 & g4 & -> & Hg1 & Hs1 & Hg2 & Hs2
             & Hg3 & Hs3 & Hg4) & Hb0 & Hb1).
    apply Matches_Seq_inv. exists [], (g1 ++ s1 ++ g2 ++ s2 ++ g3 ++ s3 ++ g4).
    split; [reflexivity|]. split; [now apply Matches_WordB_inv|].
    apply Matches_Seq_inv. exists g1, (s1 ++ g2 ++ s2 ++ g3 ++ s3 ++ g4).
    split; [reflexivity|]. split; [now apply Matches_times|].
    apply Matches_Seq_inv. exists s1, (g2 ++ s2 ++ g3 ++ s3 ++ g4).
    split; [reflexivity|]. split; [now apply Matches_Opt_Cls|].
    apply Matches_Seq_inv. exists g2, (s2 ++ g3 ++ s3 ++ g4).
    split; [reflexivity|]. split; [now apply Matches_times|].
    apply Matches_Seq_inv. exists s2, (g3 ++ s3 ++ g4).
    split; [reflexivity|]. split; [now apply Matches_Opt_Cls|].
    apply Matches_Seq_inv. exists g3, (s3 ++ g4).
    split; [reflexivity|]. split; [now apply Matches_times|].
    apply Matches_Seq_inv. exists s3, g4.
    split; [reflexivity|]. split; [now apply Matches_Opt_Cls|].
    apply Matches_Seq_inv. exists g4, [].
    split; [now rewrite app_nil_r|]. split; [now apply Matches_times|].
    apply Matches_WordB_inv. split; [reflexivity|].
    norm_last. exact Hb1.
Qed.

Lemma pattern_matches_sensitive (pattern : RegExp.t) (prev : option N)
  (m rest : JsString) :
  In pattern sensitivePatterns ->
  Matches pattern prev m rest ->
  sensitive m
  /\ RegExp.at_boundary prev (m ++ rest) = true
  /\ RegExp.at_boundary (last_or prev m) rest = true.
Proof.
  unfold sensitivePatterns. cbn [In]. intros [<-|[<-|[<-|[]]]] H.
  - apply keyword_pattern_matches in H as ((kw & Hin & Hs) & Hb).
    split; [exact (@sensitive_keyword kw m Hin Hs) | exact Hb].
  - apply credit_card_pattern_matches in H
      as ((g1 & s1 & g2 & s2 & g3 & s3 & g4 & -> & H1 & H2 & H3 & H4 & H5 & H6
           & H7) & Hb).
    split; [now constructor | exact Hb].
  - apply ssn_pattern_matches in H as ((a & b & c & -> & Ha & Hb' & Hc) & Hb).
    split; [now constructor | exact Hb].
Qed.

Lemma sensitive_matches_pattern (prev : option N) (m rest : JsString) :
  sensitive m ->
  RegExp.at_boundary prev (m ++ rest) = true ->
  RegExp.at_boundary (last_or prev m) rest = true ->
  exists pattern, In pattern sensitivePatterns /\ Matches pattern prev m rest.
Proof.
  intros Hs Hb0 Hb1.
  destruct Hs as [kw text Hin Hsp
                 | g1 s1 g2 s2 g3 s3 g4 H1 H2 H3 H4 H5 H6 H7
                 | a b c Ha Hb Hc].
  - exists keyword_pattern. split; [cbn; tauto|].
    apply keyword_pattern_matches. eauto.
  - exists credit_card_pattern. split; [cbn; tauto|].
    apply credit_card_pattern_matches. split; [|now split].
    exists g1, s1, g2, s2, g3, s3, g4. split; [reflexivity|].
    repeat (split; [assumption|]). assumption.
  - exists ssn_pattern. split; [cbn; tauto|].
    apply ssn_pattern_matches. split; [|now split].
    exists a, b, c. split; [reflexivity|].
    repeat (split; [assumption|]). assumption.
Qed.

(** X1: [checkContentModeration] flags a message exactly when it contains
    sensitive data standing on its own: one of the five keywords in any
    letter case, sixteen digits in groups of four (each group optionally
    followed by one dash or white space character), or [ddd-dd-dddd], with
    no word character directly before or after it. *)
Theorem checkContentModeration_flags_exactly_sensitive_data (message : JsString) :
  flagged (checkContentModeration message) = true
  <-> exists pre data post,
        message = pre ++ data ++ post
        /\ sensitive data
        /\ nonword_before pre
        /\ nonword_after post.
Proof.
  unfold checkContentModeration. rewrite moderation_loop_spec.
  assert (E : flagged
                (if existsb (fun p => RegExp.test p message) sensitivePatterns
                 then mkModeration true (Some sensitive_reason)
                 else mkModeration false None) = true
              <-> existsb (fun p => RegExp.test p message) sensitivePatterns = true)
    by (destruct (existsb _ sensitivePatterns); cbn; tauto).
  rewrite E, existsb_exists. clear E. split.
  - intros (pattern & Hin & Htest).
    apply test_iff in Htest as (pre & m & rest & -> & HM).
    apply (pattern_matches_sensitive pattern _ m rest Hin) in HM
      as (Hs & Hb0 & Hb1).
    destruct (sensitive_word_ends m Hs) as [Hstart Hend].
    exists pre, m, rest. split; [reflexivity|]. split; [exact Hs|].
    split; [exact (proj1 (boundary_before m rest _ Hstart) Hb0)
           |exact (proj1 (boundary_after m rest _ Hend) Hb1)].
  - intros (pre & data & post & -> & Hs & Hpre & Hpost).
    destruct (sensitive_word_ends data Hs) as [Hstart Hend].
    destruct (sensitive_matches_pattern (last_or None pre) data post Hs)
      as (pattern & Hin & HM).
    + exact (proj2 (boundary_before data post _ Hstart) Hpre).
    + exact (proj2 (boundary_after data post _ Hend) Hpost).
    + exists pattern. split; [exact Hin|]. apply test_iff. eauto.
Qed.

(* ================================================================== *)
(** ** UTF-8 on the wire, for any text *)

Lemma all_in_range_spec (check : N -> bool) (start count : N) :
  all_in_range check start count = true ->
  forall i, (start <= i < start + count)%N -> check i = true.
Proof.
  unfold all_in_range.
  assert (H : forall n,
            let r := N.iter n (fun s => (fst s + 1, snd s && check (fst s)))%N
                            (start, true) in
            fst r = (start + n)%N
            /\ (snd r = true ->
                forall i, (start <= i < start + n)%N -> check i = true)).
  { intros n. induction n as [|n IH] using N.peano_ind; cbv zeta.
    - cbn. split; [lia|]. intros _ i Hi. lia.
    - rewrite N.iter_succ. cbv zeta in IH. destruct IH as [Hfst Hsnd].
      destruct (N.iter n _ (start, true)) as [cur ok]. cbn [fst snd] in *.
      subst cur. split; [lia|].
      intros Hok i Hi. apply andb_true_iff in Hok as [Hok Hc].
      destruct (N.eq_dec i (start + n)) as [->|Hne]; [exact Hc|].
      apply Hsnd; [exact Hok | lia]. }
  intros Hall. exact (proj2 (H count) Hall).
Qed.

Lemma bmp_low_ok : all_in_range bmp_ok 0 0xD800 = true.
Proof. vm_compute. reflexivity. Qed.

Lemma bmp_high_ok : all_in_range bmp_ok 0xE000 0x2000 = true.
Proof. vm_compute. reflexivity. Qed.

Lemma lead3_all_ok : all_in_range lead3_ok 0x400 0x4000 = true.
Proof. vm_compute. reflexivity. Qed.

Lemma trail_all_ok : all_in_range trail_ok 0 64 = true.
Proof. vm_compute. reflexivity. Qed.

Lemma state_eqb_eq (a b : Utf8.state) : state_eqb a b = true -> a = b.
Proof.
  unfold state_eqb. rewrite !andb_true_iff, !N.eqb_eq.
  destruct a, b; cbn. intros ((((-> & ->) & ->) & ->) & ->). reflexivity.
Qed.

Lemma decoder_run_app (a b : list N) :
  forall st,
    decoder_run st (a ++ b)
    = (fst (decoder_run st a) ++ fst (decoder_run (snd (decoder_run st a)) b),
       snd (decoder_run (snd (decoder_run st a)) b)).
Proof.
  induction a as [|x a IH]; intros st; cbn [app decoder_run].
  - cbn. now destruct (decoder_run st b).
  - destruct (Utf8.step st x) as [o1 st1]. rewrite IH.
    destruct (decoder_run st1 a) as [o2 st2]. cbn [fst snd].
    now rewrite app_assoc.
Qed.

Lemma decode_from_run (bytes rest : list N) :
  forall st,
    Utf8.decode_from st (bytes ++ rest)
    = fst (decoder_run st bytes)
      ++ Utf8.decode_from (snd (decoder_run st bytes)) rest.
Proof.
  induction bytes as [|b bytes IH]; intros st; cbn [app decoder_run Utf8.decode_from].
  - reflexivity.
  - destruct (Utf8.step st b) as [o1 st1]. rewrite IH.
    destruct (decoder_run st1 bytes) as [o2 st2]. cbn [fst snd].
    now rewrite app_assoc.
Qed.

Lemma forallb_byte (bs : list N) :
  forallb (fun b => (b <? 256)%N) bs = true -> Forall (fun b => (b < 256)%N) bs.
Proof.
  rewrite forallb_forall, Forall_forall. intros H b Hb.
  apply N.ltb_lt. now apply H.
Qed.

Lemma bmp_ok_decodes_alone (cp : N) : bmp_ok cp = true -> decodes_alone cp.
Proof.
  unfold bmp_ok, decodes_alone.
  destruct (decoder_run Utf8.initial (Utf8.bytes_of cp)) as [out st].
  destruct out as [|c [|? ?]]; try discriminate.
  rewrite !andb_true_iff. intros (((Hc & Hst) & Hbytes) & Hbom).
  apply N.eqb_eq in Hc. apply state_eqb_eq in Hst. subst c st.
  split; [reflexivity|]. split; [now apply forallb_byte|].
  intros Hne rest.
  destruct (Utf8.bytes_of cp) as [|b0 [|b1 [|b2 [|? ?]]]]; try discriminate.
  - apply negb_true_iff in Hbom. cbn [app]. unfold Utf8.strip_bom.
    destruct rest as [|r1 [|r2 rest]]; try reflexivity. now rewrite Hbom.
  - apply negb_true_iff in Hbom. cbn [app]. unfold Utf8.strip_bom.
    destruct rest as [|r1 rest]; try reflexivity. now rewrite Hbom.
  - apply orb_true_iff in Hbom as [Hbom|Hbom].
    + apply negb_true_iff in Hbom. cbn [app]. unfold Utf8.strip_bom.
      now rewrite Hbom.
    + apply N.eqb_eq in Hbom. contradiction.
Qed.

Lemma land_63_lt (x : N) : (N.land x 63 < 64)%N.
Proof.
  change 63%N with (N.ones 6). rewrite N.land_ones.
  apply N.mod_lt. discriminate.
Qed.

Lemma lor_high_low (x : N) : N.lor (N.shiftl (N.shiftr x 6) 6) (N.land x 63) = x.
Proof.
  change 63%N with (N.ones 6). rewrite <- N.ldiff_ones_r. apply N.lor_ldiff_and.
Qed.

Lemma supplementary_decodes_alone (cp : N) :
  (0x10000 <= cp < 0x110000)%N -> decodes_alone cp.
Proof.
  intros Hcp.
  assert (Hh : (0x400 <= N.shiftr cp 6 < 0x400 + 0x4000)%N).
  { rewrite N.shiftr_div_pow2. change (2 ^ 6)%N with 64%N. split.
    - apply N.div_le_lower_bound; lia.
    - apply N.Div0.div_lt_upper_bound; lia. }
  pose proof (all_in_range_spec lead3_ok _ _ lead3_all_ok _ Hh) as Hlead.
  assert (Hl : (0 <= N.land cp 63 < 0 + 64)%N)
    by (pose proof (land_63_lt cp); lia).
  pose proof (all_in_range_spec trail_ok _ _ trail_all_ok _ Hl) as Htrail.
  assert (Hbytes : Utf8.bytes_of cp
                   = [N.lor 0xF0 (N.shiftr (N.shiftr cp 6) 12);
                      N.lor 0x80 (N.land (N.shiftr (N.shiftr cp 6) 6) 0x3F);
                      N.lor 0x80 (N.land (N.shiftr cp 6) 0x3F)]
                     ++ [N.lor 0x80 (N.land cp 0x3F)]).
  { unfold Utf8.bytes_of.
    assert (E1 : (cp <? 0x80)%N = false) by (apply N.ltb_ge; lia).
    assert (E2 : (cp <? 0x800)%N = false) by (apply N.ltb_ge; lia).
    assert (E3 : (cp <? 0x10000)%N = false) by (apply N.ltb_ge; lia).
    rewrite E1, E2, E3, !N.shiftr_shiftr. reflexivity. }
  unfold lead3_ok in Hlead. unfold trail_ok in Htrail. cbv zeta in Hlead, Htrail.
  unfold decodes_alone. rewrite Hbytes.
  destruct (decoder_run Utf8.initial
              [N.lor 0xF0 (N.shiftr (N.shiftr cp 6) 12);
               N.lor 0x80 (N.land (N.shiftr (N.shiftr cp 6) 6) 0x3F);
               N.lor 0x80 (N.land (N.shiftr cp 6) 0x3F)]) as [out st] eqn:Erun.
  destruct out as [|? ?]; [|discriminate].
  rewrite !andb_true_iff in Hlead, Htrail.
  destruct Hlead as ((Hst & Hb3) & Hnot), Htrail as ((Hlo & Hhi) & Hland).
  apply state_eqb_eq in Hst. subst st. apply N.eqb_eq in Hland.
  split; [|split].
  - rewrite decoder_run_app, Erun. cbn [fst snd decoder_run app].
    unfold Utf8.step.
    cbn [Utf8.bytes_needed Utf8.bytes_seen Utf8.lower_boundary
         Utf8.upper_boundary Utf8.code_point].
    change (3 =? 0)%N with false. change (2 + 1 =? 3)%N with true.
    cbv iota. rewrite Hlo, Hhi. cbn [andb negb]. rewrite Hland, lor_high_low.
    reflexivity.
  - apply Forall_app. split; [now apply forallb_byte|].
    constructor; [|constructor]. apply N.leb_le in Hhi. lia.
  - intros _ rest. apply negb_true_iff in Hnot. cbn [app].
    unfold Utf8.strip_bom. now rewrite Hnot.
Qed.

Lemma scalar_decodes_alone (cp : N) :
  (cp < 0xD800 \/ 0xE000 <= cp < 0x110000)%N -> decodes_alone cp.
Proof.
  intros [H|H].
  - apply bmp_ok_decodes_alone.
    apply (all_in_range_spec bmp_ok _ _ bmp_low_ok). lia.
  - destruct (N.lt_ge_cases cp 0x10000) as [Hlt|Hge].
    + apply bmp_ok_decodes_alone.
      apply (all_in_range_spec bmp_ok _ _ bmp_high_ok). lia.
    + apply supplementary_decodes_alone. lia.
Qed.

Lemma Uint8Array_from_bytes (bytes : list N) :
  Forall (fun b => (b < 256)%N) bytes -> Uint8Array_from bytes = bytes.
Proof.
  unfold Uint8Array_from.
  induction 1 as [|b bytes Hb _ IH]; cbn [map]; [reflexivity|].
  now rewrite IH, N.mod_small.
Qed.

Lemma not_surrogate_scalar (c : N) :
  (c < 0x10000)%N ->
  Utf8.is_high_surrogate c = false -> Utf8.is_low_surrogate c = false ->
  (c < 0xD800 \/ 0xE000 <= c < 0x110000)%N.
Proof.
  unfold Utf8.is_high_surrogate, Utf8.is_low_surrogate.
  rewrite !andb_false_iff, !N.leb_gt. lia.
Qed.

Lemma surrogate_pair_units (h l : N) :
  Utf8.is_high_surrogate h = true -> Utf8.is_low_surrogate l = true ->
  let cp := (0x10000 + (h - 0xD800) * 0x400 + (l - 0xDC00))%N in
  (0x10000 <= cp < 0x110000)%N /\ Utf8.units_of cp = [h; l].
Proof.
  unfold Utf8.is_high_surrogate, Utf8.is_low_surrogate.
  rewrite !andb_true_iff, !N.leb_le. intros [Hh1 Hh2] [Hl1 Hl2]. cbv zeta.
  split; [lia|]. unfold Utf8.units_of.
  assert (E : (0x10000 + (h - 0xD800) * 0x400 + (l - 0xDC00) <? 0x10000)%N = false)
    by (apply N.ltb_ge; lia).
  rewrite E.
  replace (0x10000 + (h - 0xD800) * 0x400 + (l - 0xDC00) - 0x10000)%N
    with ((l - 0xDC00) + (h - 0xD800) * 0x400)%N by lia.
  rewrite N.div_add, N.Div0.mod_add by discriminate.
  rewrite N.div_small, N.mod_small by lia.
  f_equal; [lia | f_equal; lia].
Qed.

(** The encoding of well-formed text: bytes that decode back to it. *)
Lemma encode_well_formed (s : JsString) :
  well_formed s ->
  Forall (fun b => (b < 256)%N) (Utf8.encode s)
  /\ flat_map Utf8.units_of (Utf8.decode_from Utf8.initial (Utf8.encode s)) = s
  /\ (match s with c :: _ => c <> 0xFEFF%N | [] => True end ->
      Utf8.strip_bom (Utf8.encode s) = Utf8.encode s).
Proof.
  induction 1 as [|c s Hc Hh Hl Hs IH|h l s Hh Hl Hs IH].
  - repeat split; constructor.
  - destruct IH as (IHb & IHd & _).
    destruct (scalar_decodes_alone c (not_surrogate_scalar c Hc Hh Hl))
      as (Hrun & Hbytes & Hbom).
    cbn [Utf8.encode]. rewrite Hh, Hl. split; [|split].
    + apply Forall_app. now split.
    + rewrite decode_from_run, Hrun. cbn [fst snd app flat_map].
      rewrite IHd. unfold Utf8.units_of.
      apply N.ltb_lt in Hc. now rewrite Hc.
    + intros Hne. now apply Hbom.
  - destruct IH as (IHb & IHd & _).
    destruct (surrogate_pair_units h l Hh Hl) as [Hrange Hunits].
    destruct (supplementary_decodes_alone _ Hrange) as (Hrun & Hbytes & Hbom).
    cbn [Utf8.encode]. rewrite Hh, Hl. split; [|split].
    + apply Forall_app. now split.
    + rewrite decode_from_run, Hrun. cbn [fst snd app flat_map].
      now rewrite IHd, Hunits.
    + intros _. apply Hbom. lia.
Qed.

(** X11: Any well-formed text survives the wire: the bytes [sendMessage] writes
    for it are read back by the notification callback as the same text,
    except that a leading byte order mark U+FEFF is dropped. *)
Theorem wire_roundtrip_well_formed (text : JsString) :
  well_formed text ->
  (match text with c :: _ => c <> 0xFEFF%N | [] => True end ->
   Utf8.decode (Uint8Array_from (dataViewToNumbers (payload_of text))) = text)
  /\ Utf8.decode
       (Uint8Array_from (dataViewToNumbers (payload_of (0xFEFF%N :: text))))
     = text.
Proof.
  intros Hwf.
  destruct (encode_well_formed text Hwf) as (Hbytes & Hdec & Hbom).
  unfold payload_of, numbersToDataView, dataViewToNumbers, Utf8.decode. split.
  - intros Hfirst. rewrite !(Uint8Array_from_bytes _ Hbytes).
    now rewrite Hbom.
  - assert (E : Utf8.encode (0xFEFF%N :: text) = [0xEF; 0xBB; 0xBF]%N ++ Utf8.encode text)
      by reflexivity.
    rewrite E.
    assert (Hall : Forall (fun b => (b < 256)%N)
                          ([0xEF; 0xBB; 0xBF]%N ++ Utf8.encode text)).
    { apply Forall_app. split; [|assumption]. repeat constructor. }
    rewrite !(Uint8Array_from_bytes _ Hall). cbn [app Utf8.strip_bom].
    cbn. exact Hdec.
Qed.

(* ================================================================== *)
(** ** The profile settings component *)

Lemma split_space_blank (s : JsString) :
  Forall (fun c => c = 32%N) s ->
  Forall (fun word => word = []) (ProfileSettings.split_space s).
Proof.
  induction 1 as [|c s Hc _ IH]; cbn [ProfileSettings.split_space].
  - repeat constructor.
  - subst c. cbn. now constructor.
Qed.

(** X23: Whatever the display name and whatever upper-casing does, the initials
    [saveProfile] stores have one or two code units; a name made of spaces
    only (or empty) gives "AU". The saved profile keeps the edited display
    name, device name and colour, is what is written to the storage, and
    editing ends. *)
Theorem saveProfile_initials
  (toUpperCase : JsString -> JsString)
  (JSON_stringify : ProfileSettings.UserProfile -> JsString)
  (s : ProfileSettings.state) :
  let s' := ProfileSettings.saveProfile toUpperCase JSON_stringify s in
  let saved := ProfileSettings.profile s' in
  let edited := ProfileSettings.tempProfile s in
  (1 <= List.length (ProfileSettings.avatarInitials saved) <= 2)%nat
  /\ (toUpperCase [] = [] ->
      Forall (fun c => c = 32%N) (ProfileSettings.displayName edited) ->
      ProfileSettings.avatarInitials saved = js "AU")
  /\ ProfileSettings.displayName saved = ProfileSettings.displayName edited
  /\ ProfileSettings.deviceName saved = ProfileSettings.deviceName edited
  /\ ProfileSettings.avatarColor saved = ProfileSettings.avatarColor edited
  /\ ProfileSettings.stored_profile s' = Some (JSON_stringify saved)
  /\ ProfileSettings.editing s' = false.
Proof.
  cbv zeta.
  cbn [ProfileSettings.saveProfile ProfileSettings.profile
       ProfileSettings.with_field ProfileSettings.avatarInitials
       ProfileSettings.displayName ProfileSettings.deviceName
       ProfileSettings.avatarColor ProfileSettings.stored_profile
       ProfileSettings.editing].
  split; [|split; [|repeat split]].
  - unfold ProfileSettings.initials_of, ProfileSettings.substring_0_2.
    cbv zeta.
    destruct (firstn 2 _) as [|c l] eqn:E; cbn [Js.truthy].
    + cbn. lia.
    + pose proof (firstn_le_length 2
        (List.concat
           (map (fun word => toUpperCase (ProfileSettings.charAt0 word))
                (ProfileSettings.split_space
                   (ProfileSettings.displayName (ProfileSettings.tempProfile s))))))
        as Hle.
      rewrite E in Hle. cbn [List.length] in *. lia.
  - intros Hup Hblank.
    unfold ProfileSettings.initials_of. cbv zeta.
    assert (E : List.concat
                  (map (fun word => toUpperCase (ProfileSettings.charAt0 word))
                       (ProfileSettings.split_space
                          (ProfileSettings.displayName
                             (ProfileSettings.tempProfile s)))) = []).
    { pose proof (split_space_blank _ Hblank) as Hwords.
      induction Hwords as [|word words Hw _ IH]; [reflexivity|].
      subst word. cbn [map List.concat ProfileSettings.charAt0 firstn].
      rewrite Hup. exact IH. }
    now rewrite E.
Qed.

(* ================================================================== *)
(** ** The further properties on concrete runs *)

Import Scenario2.

Lemma connected_B_maps :
  devices connected_B = [(idB, deviceB)]
  /\ connections connected_B = [(idB, BleDevice.mk idB None)].
Proof. split; reflexivity. Qed.

Lemma connected_B_paired : paired connected_B.
Proof.
  destruct connected_B_maps as [Hd Hc].
  intros k d. rewrite Hd, Hc. unfold JsMap.has. cbn [JsMap.get].
  destruct (Js.eqb k idB); [|discriminate].
  intros [= <-]. cbn. split; reflexivity.
Qed.

Lemma connected_B_unique_ids : unique_ids connected_B.
Proof.
  destruct connected_B_maps as [Hd Hc]. unfold unique_ids. rewrite Hd, Hc.
  split; repeat constructor; intros [].
Qed.

Lemma connectToDevice_success_witness :
  result_of (connectToDevice always_resolves idB discovered_B) = Normal true
  /\ JsMap.get idB (connections (world_of (connectToDevice always_resolves idB
                                                          discovered_B)))
     = Some (BleDevice.mk idB None).
Proof.
  pose proof (connectToDevice_success always_resolves discovered_B idB found_B
                eq_refl eq_refl eq_refl) as H.
  cbv zeta in H. destruct H as (H1 & H2 & _). exact (conj H1 H2).
Defined.

Lemma connect_then_disconnect_witness :
  devices (world_of (disconnectFromDevice always_resolves idB
                       (world_of (connectToDevice always_resolves idB
                                                  discovered_B))))
  = devices discovered_B.
Proof.
  pose proof (connect_then_disconnect_restores always_resolves discovered_B idB
                found_B eq_refl eq_refl eq_refl eq_refl eq_refl eq_refl) as H.
  cbv zeta in H. exact (proj1 (proj2 H)).
Defined.

Lemma reconnect_witness :
  connections (world_of (connectToDevice always_resolves idB connected_B))
  = connections connected_B.
Proof.
  exact (reconnect_keeps_the_sessions always_resolves connected_B idB eq_refl).
Defined.

Lemma sendMessage_without_session_witness :
  result_of (sendMessage always_resolves toy_encrypt idB (js "hi") 7 discovered_B)
  = Normal false.
Proof.
  pose proof (sendMessage_without_session always_resolves toy_encrypt
                discovered_B idB (js "hi") 7 eq_refl) as H.
  cbv zeta in H. exact (proj1 H).
Defined.

Lemma sendMessage_writes_base64_witness :
  exists payload,
    ble_calls (world_of (sendMessage always_resolves toy_encrypt idB (js "hi") 7
                                     connected_B))
    = ble_calls connected_B
      ++ [Write idB SERVICE_UUID MESSAGE_CHARACTERISTIC_UUID payload]
    /\ payload = js "B2hp".
Proof.
  assert (Hwf : well_formed (js "hi")).
  { cbv. repeat (apply well_formed_unit; [reflexivity..|]).
    apply well_formed_nil. }
  destruct (sendMessage_writes_base64 always_resolves toy_encrypt connected_B
              idB (js "hi") 7 Hwf eq_refl) as (payload & Hcalls & _ & _ & Hp & _).
  exists payload. split; [exact Hcalls | exact Hp].
Defined.

Lemma notification_drop_witness :
  ChatInterface.messages
    (chat (world_of (notification_callback never_decrypts idB onMessage
                       [1; 2; 3]%N 1700000000000 1700000000000 connected_B)))
  = ChatInterface.messages (chat connected_B).
Proof.
  rewrite (notification_callback_drops_undecryptable never_decrypts connected_B
             idB [1; 2; 3]%N 1700000000000 1700000000000 eq_refl onMessage).
  reflexivity.
Defined.

Lemma cleanup_calls_witness :
  ble_calls (world_of (cleanup (disconnect_rejects idA) connected_A_B))
  = ble_calls connected_A_B ++ [Disconnect idA; Disconnect idB; StopLEScan].
Proof.
  assert (Hnd : NoDup (JsMap.keys (connections connected_A_B))).
  { change (NoDup [idA; idB]).
    constructor; [intros [H|[]]; discriminate|].
    constructor; [intros []|constructor]. }
  exact (cleanup_disconnects_every_session_once (disconnect_rejects idA)
           connected_A_B Hnd).
Defined.

Lemma cleanup_clears_witness :
  connections (world_of (cleanup always_resolves connected_B)) = []
  /\ getConnectedDevices (world_of (cleanup always_resolves connected_B)) = [].
Proof.
  pose proof (cleanup_clears_every_session always_resolves toy_encrypt
                (fun _ _ => eq_refl) connected_B connected_B_unique_ids
                (paired_connected_have_sessions connected_B connected_B_paired))
    as H.
  cbv zeta in H. destruct H as (H1 & H2 & _). exact (conj H1 H2).
Defined.

Lemma scan_callback_names_witness :
  exists device,
    JsMap.get idB
      (devices (world_of (scan_callback
                            (ScanResult.mk (BleDevice.mk idB None) (-40))
                            1000 initial_world)))
    = Some device
    /\ ChatDevice.name device = js "Device_E:FF".
Proof.
  destruct (scan_callback_names_unnamed_devices initial_world idB (-40) 1000
              None (or_introl eq_refl)) as (device & Hget & Hname & _).
  exists device. split; [exact Hget | exact Hname].
Defined.

Lemma reachable_invariant_witness :
  unique_ids rediscovered_B /\ connected_have_sessions rediscovered_B.
Proof.
  exact (reachable_invariant always_resolves toy_encrypt toy_decrypt_utf8
           rediscovered_B (ex_intro _ _ eq_refl)).
Defined.

Lemma reachable_registry_witness :
  records_keyed connected_A_B /\ sessions_known connected_A_B
  /\ named connected_A_B.
Proof.
  exact (reachable_registry_is_well_kept always_resolves toy_encrypt
           toy_decrypt_utf8 connected_A_B
           (ex_intro _ [EvScanResult advertA 1000; EvScanResult advertB 1001;
                        EvConnect idA; EvConnect idB] eq_refl)).
Defined.

Lemma lifecycle_pairing_witness :
  paired (world_of (disconnectFromDevice (disconnect_rejects idB) idB
                                         connected_B))
  /\ paired (world_of (cleanup always_resolves connected_B)).
Proof.
  destruct (lifecycle_methods_keep_the_pairing (disconnect_rejects idB)
              toy_encrypt connected_B connected_B_paired) as (_ & H2 & _).
  destruct (lifecycle_methods_keep_the_pairing always_resolves
              toy_encrypt connected_B connected_B_paired) as (_ & _ & H3 & _).
  exact (conj (H2 idB) H3).
Defined.

Lemma handleSendMessage_blank_witness :
  handleSendMessage always_resolves toy_encrypt deviceB 7 1700000000000
                    1700000000000 (typed (js "   ") connected_B)
  = (Normal tt, typed (js "   ") connected_B).
Proof.
  apply handleSendMessage_ignores_blank_text.
  unfold blank. cbn. repeat constructor.
Defined.

Lemma handleSendMessage_follows_witness :
  ChatInterface.messages
    (chat (world_of (handleSendMessage always_resolves toy_encrypt deviceB 7
                       1700000000000 1700000000001
                       (typed (js "hi") connected_B))))
  = [ChatMessage.mk (js "1700000000000") idB (js "hi") 1700000000001 true true].
Proof.
  pose proof (handleSendMessage_follows_sendMessage always_resolves toy_encrypt
                (typed (js "hi") connected_B) deviceB 7 1700000000000
                1700000000001 eq_refl eq_refl) as H.
  cbv zeta in H. destruct H as (_ & _ & _ & _ & H).
  exact (proj1 H).
Defined.

Lemma signal_labels_witness :
  (signal_rank (DeviceScanner.getSignalStrengthText (-80))
   <= signal_rank (DeviceScanner.getSignalStrengthText (-40)))%nat.
Proof.
  apply (signal_labels_are_monotone (-80) (-40)). lia.
Defined.

Lemma scan_complete_witness :
  exists s3,
    DeviceScanner.devices s3
    = getAllDevices (world_of (scan_callback advertA 3000
                                 (with_ble_call (RequestLEScan [SERVICE_UUID])
                                                connected_B)))
    /\ List.length (DeviceScanner.devices s3) = 2%nat
    /\ DeviceScanner.toasts s3
       = [mkToast (js "Scanning Started")
                  (js "Looking for nearby MeshChat users...") false;
          mkToast (js "Scan Complete") (js "Found 1 nearby devices.") false].
Proof.
  pose proof (scan_complete_counts_the_devices_known_at_start always_resolves
                DeviceScanner.initial connected_B _ _ _ [(advertA, 3000%Z)]
                eq_refl) as H.
  cbv zeta in H. destruct H as (_ & _ & Hd & _ & _ & Ht).
  eexists. split; [exact Hd|]. split; [reflexivity | exact Ht].
Defined.

Lemma wire_roundtrip_witness :
  Utf8.decode (Uint8Array_from (dataViewToNumbers (payload_of mixed_text)))
  = mixed_text.
Proof.
  assert (Hwf : well_formed mixed_text).
  { unfold mixed_text.
    apply well_formed_unit; [reflexivity..|].
    apply well_formed_unit; [reflexivity..|].
    apply well_formed_pair; [reflexivity..|].
    apply well_formed_nil. }
  apply (proj1 (wire_roundtrip_well_formed mixed_text Hwf)).
  discriminate.
Defined.
